(** * asionet: a shallow embedding of the coordination layer

    The development follows the headers under [vendor/asionet/include/asionet]:
    [Error.h], [Closeable.h], [Utils.h], [Frame.h], [Socket.h], [Stream.h],
    [AsyncOperationManager.h], and the components built on the manager.
    Machine integers are [Z] with the wrap-around written out; bytes are
    [Init.Byte.byte] read through coqutil's [byte.unsigned]/[byte.of_Z]. *)

From Stdlib Require Import ZArith List Bool Lia.
From coqutil Require Import Byte.
Import ListNotations.

Local Open Scope Z_scope.

(** ** Error.h *)

Module error.

(** [using ErrorCode = int;] *)
Definition ErrorCode := Z.

(** [boost::system::error_code]: the integer value; its conversion to
    bool is [value != 0]. *)
Record error_code := { value : Z }.

Definition error_code_default : error_code := {| value := 0 |}.

Definition error_code_bool (e : error_code) : bool := negb (value e =? 0).

Record Error := {
  asionetCode : ErrorCode;
  boostCode : error_code
}.

Definition getBoostCode (e : Error) : error_code := boostCode e.

(** [explicit operator bool() const noexcept { return asionetCode != 0; }] *)
Definition to_bool (e : Error) : bool := negb (asionetCode e =? 0).

(** [operator==]: [lhs.asionetCode == rhs.asionetCode] *)
Definition eqb (lhs rhs : Error) : bool := asionetCode lhs =? asionetCode rhs.

(** [operator!=]: [!(lhs == rhs)] *)
Definition neqb (lhs rhs : Error) : bool := negb (eqb lhs rhs).

Module codes.
Definition success : ErrorCode := 0.
Definition failedOperation : ErrorCode := 1.
Definition aborted : ErrorCode := 2.
Definition encoding : ErrorCode := 3.
Definition decoding : ErrorCode := 4.
Definition invalidFrame : ErrorCode := 5.
End codes.

(** [const Error success{codes::success};] and its siblings: the
    transport code is value-initialised. *)
Definition mk (c : ErrorCode) : Error :=
  {| asionetCode := c; boostCode := error_code_default |}.

Definition success : Error := mk codes.success.
Definition failedOperation : Error := mk codes.failedOperation.
Definition aborted : Error := mk codes.aborted.
Definition encoding : Error := mk codes.encoding.
Definition decoding : Error := mk codes.decoding.
Definition invalidFrame : Error := mk codes.invalidFrame.

End error.

(** ** Closeable.h *)

Module closeable.

(** The error computed by the completion lambda of
    [timedAsyncOperation] from the handle's [is_open()] at completion
    time and the transport code:
<<
    auto error = error::success;
    if (!IsOpen<Closeable>{}(closeable))
        error = error::aborted;
    else if (boostCode)
        error = error::Error{error::codes::failedOperation, boostCode};
>> *)
Definition completionError (isOpen : bool) (boostCode : error.error_code)
  : error.Error :=
  let error := error.success in
  if negb isOpen then error.aborted
  else if error.error_code_bool boostCode
       then {| error.asionetCode := error.codes.failedOperation;
               error.boostCode := boostCode |}
       else error.

End closeable.

(** ** Utils.h *)

Module utils.

(** Unsigned integer types of the target: values are taken modulo
    [2^w]. [std::size_t] is 64 bits wide (LP64). *)
Definition wrap (w : Z) (x : Z) : Z := x mod 2 ^ w.
Definition uint8 := wrap 8.
Definition uint32 := wrap 32.
Definition size_t := wrap 64.

(** The loop of [toBigEndian]: [n] iterations remain, [bitsToShift] is
    the variable of the same name before the iteration. *)
Fixpoint toBigEndian_loop (n : nat) (bitsToShift : Z) (src : Z) : list byte :=
  match n with
  | O => []
  | S n' =>
      let bitsToShift := bitsToShift - 8 in
      byte.of_Z (uint8 (Z.land (Z.shiftr src bitsToShift) 255))
        :: toBigEndian_loop n' bitsToShift src
  end.

Definition toBigEndian (numBytes : nat) (src : Z) : list byte :=
  toBigEndian_loop numBytes (Z.of_nat numBytes * 8) src.

(** The loop of [fromBigEndian] at an integer type of width [w]:
    [result += ((Int) bytes[i]) << bitsToShift], the shift and the sum
    both taken at width [w]. Reading past the end of [bytes] has no
    defined behaviour in the source; the model reads a zero there. *)
Fixpoint fromBigEndian_loop (w : Z) (n : nat) (i : nat) (bitsToShift : Z)
         (bytes : list byte) (result : Z) : Z :=
  match n with
  | O => result
  | S n' =>
      let bitsToShift := bitsToShift - 8 in
      let b := byte.unsigned (nth i bytes Byte.x00) in
      let result := wrap w (result + wrap w (Z.shiftl (wrap w b) bitsToShift)) in
      fromBigEndian_loop w n' (S i) bitsToShift bytes result
  end.

Definition fromBigEndian (numBytes : nat) (w : Z) (bytes : list byte) : Z :=
  fromBigEndian_loop w numBytes 0%nat (Z.of_nat numBytes * 8) bytes 0.

End utils.

(** ** Frame.h *)

Module internal.

Definition HEADER_SIZE : Z := 4.

(** [class Frame]: the constructor's second parameter is a
    [std::uint32_t], so the caller's [std::size_t] length is reduced
    modulo [2^32] when the frame is built. *)
Record Frame := {
  numDataBytes : Z;
  header : list byte;
  data : list byte
}.

Definition mkFrame (data : list byte) (numDataBytes : Z) : Frame :=
  let numDataBytes := utils.uint32 numDataBytes in
  {| numDataBytes := numDataBytes;
     header := utils.toBigEndian 4 numDataBytes;
     data := data |}.

(** [getBuffers]: the header buffer followed by [numDataBytes] bytes
    of the payload; a vectored send puts them on the wire in this
    order. *)
Definition getBuffers (f : Frame) : list byte :=
  header f ++ firstn (Z.to_nat (numDataBytes f)) (data f).

(** [getSize]: [sizeof(header) + numDataBytes] as a [std::size_t]. *)
Definition getSize (f : Frame) : Z :=
  utils.size_t (4 + numDataBytes f).

(** [ConstVectorBuffer] and [ConstStreamBuffer]: a window of
    [numBytes] bytes at [offset] of a buffer. [bytes] is the range
    [begin(), end())] a decoder reads. *)
Record ConstBuffer := {
  buffer : list byte;
  numBytes : Z;
  offset : Z
}.

Definition bytes (b : ConstBuffer) : list byte :=
  firstn (Z.to_nat (numBytes b)) (skipn (Z.to_nat (offset b)) (buffer b)).

End internal.

(** ** The transport underneath (boost::asio), as far as framing needs it *)

Module asio.

(** [socket.async_receive_from(buffer(v), ...)] delivering one
    datagram: the datagram's bytes overwrite the start of the vector,
    at most [v.size()] of them; the count is the number of bytes
    transferred. *)
Definition receive_from (v : list byte) (datagram : list byte)
  : list byte * Z :=
  let n := Nat.min (length v) (length datagram) in
  (firstn n datagram ++ skipn n v, Z.of_nat n).

(** [boost::asio::streambuf] with its maximum size. *)
Record streambuf := {
  contents : list byte;
  max_size : Z
}.

Definition consume (n : Z) (sb : streambuf) : streambuf :=
  {| contents := skipn (Z.to_nat n) (contents sb); max_size := max_size sb |}.

(** Transport code reported when the peer closes before the requested
    count arrived ([boost::asio::error::eof]). *)
Definition eof : error.error_code := {| error.value := 2 |}.

(** [async_read(stream, sb, transfer_exactly(n))] against the bytes
    [wire] the peer sends before closing: bytes are appended to [sb]
    until [n] were transferred, [sb] is full, or the wire is
    exhausted (which is reported as [eof]). Yields the buffer, the
    rest of the wire, the transport code and the count. *)
Definition read_exactly (n : Z) (sb : streambuf) (wire : list byte)
  : streambuf * list byte * error.error_code * Z :=
  let room := Z.max 0 (max_size sb - Z.of_nat (length (contents sb))) in
  let want := Z.to_nat (Z.min n room) in
  let got := firstn want wire in
  let sb' := {| contents := contents sb ++ got; max_size := max_size sb |} in
  let ec := if (length wire <? want)%nat then eof else error.error_code_default in
  (sb', skipn want wire, ec, Z.of_nat (length got)).

End asio.

(** ** Socket.h *)

Module socket.

(** [internal::numDataBytesFromBuffer]: [None] is the [false] return;
    [Some n] is [true] with the out-parameter set to [n]. The sum
    [4 + numDataBytes] is computed in [std::size_t]. *)
Definition numDataBytesFromBuffer (buffer : list byte) (numBytesTransferred : Z)
  : option Z :=
  if numBytesTransferred <? 4 then None
  else
    let numDataBytes := utils.fromBigEndian 4 32 buffer in
    if numBytesTransferred <? utils.size_t (4 + numDataBytes) then None
    else Some numDataBytes.

(** Completion lambda of [asyncSendTo]: the error given to the send
    handler. *)
Definition asyncSendTo_completion (frame : internal.Frame)
           (error : error.Error) (numBytesTransferred : Z) : error.Error :=
  if numBytesTransferred <? internal.getSize frame
  then error.failedOperation
  else error.

(** Completion lambda of [asyncReceiveFrom]: the error and the window
    given to the receive handler. *)
Definition asyncReceiveFrom_completion (buffer : list byte)
           (error : error.Error) (numBytesTransferred : Z)
  : error.Error * internal.ConstBuffer :=
  let empty := {| internal.buffer := buffer; internal.numBytes := 0;
                  internal.offset := 0 |} in
  if error.to_bool error then (error, empty)
  else
    match numDataBytesFromBuffer buffer numBytesTransferred with
    | None => (error.invalidFrame, empty)
    | Some numDataBytes =>
        (error, {| internal.buffer := buffer;
                   internal.numBytes := numDataBytes;
                   internal.offset := internal.HEADER_SIZE |})
    end.

End socket.

(** ** Stream.h *)

Module stream.

(** [internal::numDataBytesFromBuffer]: the first [HEADER_SIZE] bytes
    of the stream buffer, read as a big-endian [uint32]. *)
Definition numDataBytesFromBuffer (sb : asio.streambuf) : Z :=
  utils.fromBigEndian 4 32
    (firstn (Z.to_nat internal.HEADER_SIZE) (asio.contents sb)).

(** Completion lambda of [asyncWrite]. *)
Definition asyncWrite_completion (frame : internal.Frame)
           (error : error.Error) (numBytesTransferred : Z) : error.Error :=
  if numBytesTransferred <? internal.getSize frame
  then error.failedOperation
  else error.

Definition emptyView (sb : asio.streambuf) : internal.ConstBuffer :=
  {| internal.buffer := asio.contents sb; internal.numBytes := 0;
     internal.offset := 0 |}.

(** Completion lambda of the payload read of [asyncRead]: what the
    handler receives, and the buffer after [consume]. *)
Definition asyncRead_data_completion (sb : asio.streambuf) (numDataBytes : Z)
           (error : error.Error) (numBytesTransferred : Z)
  : error.Error * internal.ConstBuffer * asio.streambuf :=
  let after := asio.consume (internal.HEADER_SIZE + numBytesTransferred) sb in
  if error.to_bool error then (error, emptyView sb, after)
  else if negb (numBytesTransferred =? numDataBytes)
  then (error.invalidFrame, emptyView sb, after)
  else (error,
        {| internal.buffer := asio.contents sb;
           internal.numBytes := numDataBytes;
           internal.offset := internal.HEADER_SIZE |},
        after).

(** [asyncRead] on a stream whose handle stays open ([isOpen]) and
    whose peer sends [wire]: the header read, its completion lambda,
    and, for a non-empty payload, the payload read. Each read goes
    through [timedAsyncOperation], whose completion computes the
    error from the handle and the transport code. *)
Definition asyncRead (isOpen : bool) (sb : asio.streambuf) (wire : list byte)
  : error.Error * internal.ConstBuffer * asio.streambuf :=
  let '(sb1, wire1, ec1, n1) := asio.read_exactly internal.HEADER_SIZE sb wire in
  let error := closeable.completionError isOpen ec1 in
  if error.to_bool error then (error, emptyView sb1, asio.consume n1 sb1)
  else if negb (n1 =? internal.HEADER_SIZE)
  then (error.invalidFrame, emptyView sb1, asio.consume n1 sb1)
  else
    let numDataBytes := numDataBytesFromBuffer sb1 in
    if numDataBytes =? 0 then (error, emptyView sb1, asio.consume n1 sb1)
    else
      let '(sb2, wire2, ec2, n2) := asio.read_exactly numDataBytes sb1 wire1 in
      asyncRead_data_completion sb2 numDataBytes
        (closeable.completionError isOpen ec2) n2.

End stream.

(** ** Message.h *)

Module message.

(** [Encoder<std::string>] copies the message; [Decoder<std::string>]
    builds the string from the window. Neither throws. *)
Definition stringEncoder (m : list byte) : option (list byte) := Some m.
Definition stringDecoder (b : internal.ConstBuffer) : option (list byte) :=
  Some (internal.bytes b).

(** The frame [asyncWrite] and [asyncSendTo] build for [writeData]:
    the payload pointer and [writeData.size()]. *)
Definition frameOf (writeData : list byte) : internal.Frame :=
  internal.mkFrame writeData (utils.size_t (Z.of_nat (length writeData))).

Section Codec.
(** A message type with its [Decoder]; [None] stands for a decoder
    that throws, which [internal::decode] turns into [false]. The
    message handed on after a failed decode is the
    default-constructed one. *)
Context {Message : Type}.
Variable decode : internal.ConstBuffer -> option Message.
Variable defaultMessage : Message.

(** Lambda of [asyncReceiveDatagram], given what [asyncReceiveFrom]
    hands to it. *)
Definition asyncReceiveDatagram_handler
           (error : error.Error) (constBuffer : internal.ConstBuffer)
  : error.Error * Message :=
  match decode constBuffer with
  | None => (error.decoding, defaultMessage)
  | Some message => (error, message)
  end.

(** Lambda of [message::asyncReceive], given what [asyncRead] hands
    to it. *)
Definition asyncReceive_handler
           (errorCode : error.Error) (constBuffer : internal.ConstBuffer)
  : error.Error * Message :=
  match decode constBuffer with
  | None => (error.decoding, defaultMessage)
  | Some message => (errorCode, message)
  end.

(** [asyncReceiveDatagram] completing on a socket: the transport
    fills [buffer] from [datagram] and reports [boostCode]; the
    error is computed by [timedAsyncOperation] from the socket's
    [is_open()], then the frame is parsed and decoded. *)
Definition asyncReceiveDatagram (isOpen : bool) (buffer : list byte)
           (boostCode : error.error_code) (datagram : list byte)
  : error.Error * Message * list byte :=
  let '(buffer, n) := asio.receive_from buffer datagram in
  let error := closeable.completionError isOpen boostCode in
  let '(error, constBuffer) :=
    socket.asyncReceiveFrom_completion buffer error n in
  (asyncReceiveDatagram_handler error constBuffer, buffer).

(** [message::asyncReceive] completing on a stream. *)
Definition asyncReceive (isOpen : bool) (sb : asio.streambuf)
           (wire : list byte) : error.Error * Message * asio.streambuf :=
  let '(error, constBuffer, sb) := stream.asyncRead isOpen sb wire in
  (asyncReceive_handler error constBuffer, sb).

End Codec.

(** [DatagramReceiver]'s buffer: [buffer(maxMessageSize + HEADER_SIZE)],
    the size computed in [std::size_t]. *)
Definition receiverBuffer (maxMessageSize : Z) : list byte :=
  repeat Byte.x00
    (Z.to_nat (utils.size_t (maxMessageSize + internal.HEADER_SIZE))).

(** [AsyncState::buffer(client.maxMessageSize + Frame::HEADER_SIZE)]
    of the service client and [ServiceState::buffer] of the server. *)
Definition serviceBuffer (maxMessageSize : Z) : asio.streambuf :=
  {| asio.contents := [];
     asio.max_size := utils.size_t (maxMessageSize + internal.HEADER_SIZE) |}.

(** A datagram carrying the frame of payload [p] arriving at a
    receiver configured with [maxMessageSize], its socket open and the
    transport reporting no error: the error and the decoded payload. *)
Definition sendReceiveDatagram (maxMessageSize : Z) (p : list byte)
  : error.Error * list byte :=
  fst (asyncReceiveDatagram stringDecoder []
         true (receiverBuffer maxMessageSize) error.error_code_default
         (internal.getBuffers (frameOf p))).

(** The frame of payload [p] read from a stream into a service buffer
    configured with [maxMessageSize]. *)
Definition sendReceiveStream (maxMessageSize : Z) (p : list byte)
  : error.Error * list byte :=
  fst (asyncReceive stringDecoder []
         true (serviceBuffer maxMessageSize)
         (internal.getBuffers (frameOf p))).

End message.

(** ** AsyncOperationManager.h *)

Module manager.

(** The interface the manager requires of its
    [PendingOperationContainer] template parameter. An operation
    record is the operation together with its captured arguments;
    [getPendingOperation] on an empty container has no defined
    behaviour in the source and is [None] here. *)
Class PendingOperationContainer (C : Type -> Type) := {
  emptyContainer : forall {Op}, C Op;
  shouldCancel : forall {Op}, C Op -> bool;
  hasPendingOperation : forall {Op}, C Op -> bool;
  pushPendingOperation : forall {Op}, Op -> C Op -> C Op;
  popPendingOperation : forall {Op}, C Op -> C Op;
  getPendingOperation : forall {Op}, C Op -> option Op;
  reset : forall {Op}, C Op -> C Op
}.

(** [class PendingOperationQueue]: a [std::queue] of records. *)
Definition PendingOperationQueue (Op : Type) : Type := list Op.

#[global] Instance queue : PendingOperationContainer PendingOperationQueue := {|
  emptyContainer := fun Op => @nil Op;
  shouldCancel := fun Op _ => false;
  hasPendingOperation := fun Op operations =>
    negb (match operations with [] => true | _ => false end);
  pushPendingOperation := fun Op op operations => operations ++ [op];
  popPendingOperation := fun Op operations => tl operations;
  getPendingOperation := fun Op operations => hd_error operations;
  reset := fun Op _ => @nil Op
|}.

(** [class PendingOperationReplacer]: a [unique_ptr] holding at most
    one record. *)
Definition PendingOperationReplacer (Op : Type) : Type := option Op.

#[global] Instance replacer : PendingOperationContainer PendingOperationReplacer := {|
  emptyContainer := fun Op => @None Op;
  shouldCancel := fun Op _ => true;
  hasPendingOperation := fun Op operation =>
    match operation with Some _ => true | None => false end;
  pushPendingOperation := fun Op op _ => Some op;
  popPendingOperation := fun Op _ => @None Op;
  getPendingOperation := fun Op operation => operation;
  reset := fun Op _ => @None Op
|}.

(** The manager's own fields. *)
Record Manager (C : Type -> Type) (Op : Type) := {
  pendingOperations : C Op;
  running : bool;
  canceled : bool
}.
Arguments pendingOperations {C Op}.
Arguments running {C Op}.
Arguments canceled {C Op}.

(** The manager together with the state of the object that owns it
    (its I/O handle, the reactor's outstanding operations, ...). *)
Record World (C : Type -> Type) (Op Env : Type) := {
  mgr : Manager C Op;
  env : Env
}.
Arguments mgr {C Op Env}.
Arguments env {C Op Env}.

(** [FinishedOperationNotifier]. *)
Record FinishedOperationNotifier := { enabled : bool }.

Section Manager.
Context {C : Type -> Type} `{PendingOperationContainer C}.
Context {Op Env : Type}.

(** What invoking an operation with its arguments does, and the
    [cancelingOperation] given to the constructor. Every operation
    of the library submits asynchronous work on the owner's handle
    and returns, and every canceler closes that handle: both act on
    the owner's state, and neither calls back into the manager
    before returning. *)
Variable invoke : Op -> Env -> Env.
Variable cancelingOperation : Env -> Env.

Local Abbreviation World := (World C Op Env).

Definition initial (e : Env) : World :=
  {| mgr := {| pendingOperations := emptyContainer;
               running := false; canceled := false |};
     env := e |}.

Definition setRunning (b : bool) (w : World) : World :=
  {| mgr := {| pendingOperations := pendingOperations (mgr w);
               running := b; canceled := canceled (mgr w) |};
     env := env w |}.

Definition setCanceled (b : bool) (w : World) : World :=
  {| mgr := {| pendingOperations := pendingOperations (mgr w);
               running := running (mgr w); canceled := b |};
     env := env w |}.

Definition setPending (p : C Op) (w : World) : World :=
  {| mgr := {| pendingOperations := p;
               running := running (mgr w); canceled := canceled (mgr w) |};
     env := env w |}.

Definition onEnv (f : Env -> Env) (w : World) : World :=
  {| mgr := mgr w; env := f (env w) |}.

Definition startOperation (asyncOperation : Op) (w : World) : World :=
  if negb (running (mgr w)) then
    let w := setRunning true w in
    onEnv (invoke asyncOperation) w
  else
    let w := if shouldCancel (pendingOperations (mgr w))
             then onEnv cancelingOperation w else w in
    setPending (pushPendingOperation asyncOperation (pendingOperations (mgr w))) w.

Definition finishOperation (w : World) : World :=
  let w := setCanceled false w in
  if negb (hasPendingOperation (pendingOperations (mgr w))) then
    setRunning false w
  else
    match getPendingOperation (pendingOperations (mgr w)) with
    | Some pendingOperation =>
        let w := setPending (popPendingOperation (pendingOperations (mgr w))) w in
        onEnv (invoke pendingOperation) w
    | None => w
    end.

Definition cancelOperation (w : World) : World :=
  let w := setCanceled true w in
  let w := onEnv cancelingOperation w in
  setPending (reset (pendingOperations (mgr w))) w.

Definition isCanceled (w : World) : bool := canceled (mgr w).

(** A notifier is constructed enabled. *)
Definition newNotifier : FinishedOperationNotifier := {| enabled := true |}.

(** [notify()]: [enabled = false; operationManager.finishOperation();] *)
Definition notify (n : FinishedOperationNotifier) (w : World)
  : FinishedOperationNotifier * World :=
  ({| enabled := false |}, finishOperation w).

(** The destructor. *)
Definition destroy (n : FinishedOperationNotifier) (w : World) : World :=
  if enabled n then finishOperation w else w.

(** The move constructor: the new notifier and the moved-from one. *)
Definition moveNotifier (other : FinishedOperationNotifier)
  : FinishedOperationNotifier * FinishedOperationNotifier :=
  ({| enabled := enabled other |}, {| enabled := false |}).

(** Several calls in a row: [startOperation] for each operation of
    a list in turn, and [finishOperation] [k] times. *)
Definition startOperations (ops : list Op) (w : World) : World :=
  fold_left (fun w op => startOperation op w) ops w.

Fixpoint finishOperations (k : nat) (w : World) : World :=
  match k with
  | O => w
  | S k' => finishOperations k' (finishOperation w)
  end.

End Manager.

End manager.

(** ** Conventions shared by the components

    User handlers are identified by a number. What a handler does when
    it is invoked is given by a table [user]: from the handler and the
    history of events up to and including its own invocation, the calls
    it makes on the object that invoked it. Durations and time points
    are integers (ticks of [time::Clock]); an endpoint is an address
    and a port. *)

Definition HandlerId := nat.
Definition Duration := Z.
Definition TimePoint := Z.
Definition Endpoint : Type := Z * Z.

(** [boost::asio::error::operation_aborted], reported for an operation
    outstanding on a handle that is closed or cancelled. *)
Definition operation_aborted : error.error_code := {| error.value := 125 |}.

(** ** DatagramReceiver.h *)

Module DatagramReceiver.
Import manager.

Section Receiver.
Context {Message : Type}.
Variable decode : internal.ConstBuffer -> option Message.
Variable defaultMessage : Message.

Inductive Event :=
| Started (timeout : Duration) (handler : HandlerId)
| Invoked (handler : HandlerId) (error : error.Error) (message : Message)
          (senderEndpoint : Endpoint).

(** The public member functions. *)
Inductive Call :=
| CallAsyncReceive (timeout : Duration) (handler : HandlerId)
| CallCancel.

Variable user : HandlerId -> list Event -> list Call.

(** [struct AsyncState] *)
Record AsyncState := {
  handler : HandlerId;
  finishedNotifier : FinishedOperationNotifier
}.

(** The arguments [startOperation] captures for
    [asyncReceiveOperation]. *)
Record Op := { opTimeout : Duration; opHandler : HandlerId }.

(** The receiver apart from its manager: the socket, the receive
    buffer, the receive submitted to the socket and not yet
    completed (with the state its completion lambda holds), and
    the history. *)
Record Env := {
  socketOpen : bool;
  buffer : list byte;
  outstanding : list AsyncState;
  log : list Event
}.

Local Abbreviation World := (World PendingOperationReplacer Op Env).

(** [setupSocket]: opens, sets the options and binds, unless the
    socket is open already. *)
Definition setupSocket (e : Env) : Env :=
  if socketOpen e then e
  else {| socketOpen := true; buffer := buffer e;
          outstanding := outstanding e; log := log e |}.

(** [asyncReceiveOperation] *)
Definition asyncReceiveOperation (op : Op) (e : Env) : Env :=
  let e := setupSocket e in
  let state := {| handler := opHandler op;
                  finishedNotifier := newNotifier |} in
  {| socketOpen := socketOpen e; buffer := buffer e;
     outstanding := outstanding e ++ [state];
     log := log e ++ [Started (opTimeout op) (opHandler op)] |}.

(** [cancelOperation]: [closeable::Closer<Socket>::close(socket)] *)
Definition cancelOperation (e : Env) : Env :=
  {| socketOpen := false; buffer := buffer e;
     outstanding := outstanding e; log := log e |}.

(** The receiver as constructed. *)
Definition create (maxMessageSize : Z) : World :=
  initial {| socketOpen := false;
             buffer := message.receiverBuffer maxMessageSize;
             outstanding := []; log := [] |}.

Definition asyncReceive (timeout : Duration) (handler : HandlerId) (w : World)
  : World :=
  startOperation asyncReceiveOperation cancelOperation
    {| opTimeout := timeout; opHandler := handler |} w.

Definition cancel (w : World) : World :=
  manager.cancelOperation cancelOperation w.

Definition finish (w : World) : World :=
  finishOperation asyncReceiveOperation w.

Definition runCall (w : World) (c : Call) : World :=
  match c with
  | CallAsyncReceive timeout handler => asyncReceive timeout handler w
  | CallCancel => cancel w
  end.

Definition addLog (ev : Event) (e : Env) : Env :=
  {| socketOpen := socketOpen e; buffer := buffer e;
     outstanding := outstanding e; log := log e ++ [ev] |}.

(** Invoking the user's handler: the invocation enters the history,
    then the handler's own calls run. *)
Definition invokeHandler (h : HandlerId) (error : error.Error)
           (message : Message) (senderEndpoint : Endpoint) (w : World) : World :=
  let w := onEnv (addLog (Invoked h error message senderEndpoint)) w in
  fold_left runCall (user h (log (env w))) w.

(** The lambda [asyncReceiveOperation] passes to
    [asyncReceiveDatagram]; when it returns, the closure and the
    state it holds are destroyed. *)
Definition receiveHandler (state : AsyncState) (error : error.Error)
           (message : Message) (senderEndpoint : Endpoint) (w : World) : World :=
  if isCanceled w then
    destroy asyncReceiveOperation (finishedNotifier state) w
  else
    let '(notifier, w) := notify asyncReceiveOperation (finishedNotifier state) w in
    let w := invokeHandler (handler state) error message senderEndpoint w in
    destroy asyncReceiveOperation notifier w.

(** The reactor completes the outstanding receive: [datagram]
    arrived from [senderEndpoint], or the transport reports
    [boostCode]. *)
Definition receiveCompleted (boostCode : error.error_code)
           (datagram : list byte) (senderEndpoint : Endpoint) (w : World) : World :=
  match outstanding (env w) with
  | [] => w
  | state :: rest =>
      let e := env w in
      let '(error, message, buffer) :=
        message.asyncReceiveDatagram decode defaultMessage
          (socketOpen e) (buffer e) boostCode datagram in
      let w := {| mgr := mgr w;
                  env := {| socketOpen := socketOpen e; buffer := buffer;
                            outstanding := rest; log := log e |} |} in
      receiveHandler state error message senderEndpoint w
  end.

(** The deadline of the outstanding receive passes: the timer of
    [timedAsyncOperation] closes the socket. *)
Definition timedOut (w : World) : World := onEnv cancelOperation w.

(** The handlers invoked so far, oldest first. *)
Definition invocations (w : World) : list Event :=
  filter (fun ev => match ev with Invoked _ _ _ _ => true | _ => false end)
         (log (env w)).

(** What a call on the receiver leaves alone: the [canceled] latch
    once set, the receives already outstanding, the handlers invoked
    so far. *)
Definition extends (w w' : World) : Prop :=
  (canceled (mgr w) = true -> canceled (mgr w') = true) /\
  (exists more, outstanding (env w') = outstanding (env w) ++ more) /\
  invocations w' = invocations w.

End Receiver.

End DatagramReceiver.

(** ** DatagramSender.h *)

Module DatagramSender.
Import manager.

Section Sender.
Context {Message : Type}.
(** [Encoder<Message>]; [None] stands for an encoder that throws. *)
Variable encode : Message -> option (list byte).

Inductive Event :=
| Started (data : list byte) (endpoint : Endpoint) (timeout : Duration)
          (handler : HandlerId)
| Invoked (handler : HandlerId) (error : error.Error).

Inductive Call :=
| CallAsyncSend (message : Message) (endpoint : Endpoint)
                (timeout : Duration) (handler : HandlerId)
| CallCancel.

Variable user : HandlerId -> list Event -> list Call.

(** [struct AsyncState] *)
Record AsyncState := {
  data : list byte;
  handler : HandlerId;
  finishedNotifier : FinishedOperationNotifier
}.

(** The arguments [startOperation] captures for
    [asyncSendOperation]. *)
Record Op := {
  opData : list byte;
  opEndpoint : Endpoint;
  opTimeout : Duration;
  opHandler : HandlerId
}.

(** The sender apart from its manager: the socket, the send
    submitted to it and not yet completed, the tasks posted to the
    context and not yet run (each invokes a handler with
    [error::encoding]), and the history. *)
Record Env := {
  socketOpen : bool;
  outstanding : list AsyncState;
  posted : list HandlerId;
  log : list Event
}.

Local Abbreviation World := (World PendingOperationQueue Op Env).

(** [setupSocket] *)
Definition setupSocket (e : Env) : Env :=
  if socketOpen e then e
  else {| socketOpen := true; outstanding := outstanding e;
          posted := posted e; log := log e |}.

(** [asyncSendOperation] *)
Definition asyncSendOperation (op : Op) (e : Env) : Env :=
  let e := setupSocket e in
  let state := {| data := opData op; handler := opHandler op;
                  finishedNotifier := newNotifier |} in
  {| socketOpen := socketOpen e;
     outstanding := outstanding e ++ [state];
     posted := posted e;
     log := log e ++ [Started (opData op) (opEndpoint op) (opTimeout op)
                              (opHandler op)] |}.

(** [cancelOperation] *)
Definition cancelOperation (e : Env) : Env :=
  {| socketOpen := false; outstanding := outstanding e;
     posted := posted e; log := log e |}.

Definition create : World :=
  initial {| socketOpen := false; outstanding := []; posted := []; log := [] |}.

(** [context.post(...)] *)
Definition post (h : HandlerId) (w : World) : World :=
  let e := env w in
  {| mgr := mgr w;
     env := {| socketOpen := socketOpen e; outstanding := outstanding e;
               posted := posted e ++ [h]; log := log e |} |}.

Definition asyncSend (message : Message) (endpoint : Endpoint)
           (timeout : Duration) (handler : HandlerId) (w : World) : World :=
  match encode message with
  | None => post handler w
  | Some data =>
      startOperation asyncSendOperation cancelOperation
        {| opData := data; opEndpoint := endpoint;
           opTimeout := timeout; opHandler := handler |} w
  end.

Definition cancel (w : World) : World :=
  manager.cancelOperation cancelOperation w.

Definition finish (w : World) : World :=
  finishOperation asyncSendOperation w.

Definition runCall (w : World) (c : Call) : World :=
  match c with
  | CallAsyncSend message endpoint timeout handler =>
      asyncSend message endpoint timeout handler w
  | CallCancel => cancel w
  end.

Definition addLog (ev : Event) (e : Env) : Env :=
  {| socketOpen := socketOpen e; outstanding := outstanding e;
     posted := posted e; log := log e ++ [ev] |}.

Definition invokeHandler (h : HandlerId) (error : error.Error) (w : World)
  : World :=
  let w := onEnv (addLog (Invoked h error)) w in
  fold_left runCall (user h (log (env w))) w.

(** The lambda [asyncSendOperation] passes to [asyncSendTo]. *)
Definition sendHandler (state : AsyncState) (error : error.Error) (w : World)
  : World :=
  let '(notifier, w) := notify asyncSendOperation (finishedNotifier state) w in
  let w := invokeHandler (handler state) error w in
  destroy asyncSendOperation notifier w.

(** The reactor completes the outstanding send with [boostCode]
    and [numBytesTransferred]. *)
Definition sendCompleted (boostCode : error.error_code)
           (numBytesTransferred : Z) (w : World) : World :=
  match outstanding (env w) with
  | [] => w
  | state :: rest =>
      let e := env w in
      let error := closeable.completionError (socketOpen e) boostCode in
      let error := socket.asyncSendTo_completion
                     (message.frameOf (data state)) error numBytesTransferred in
      let w := {| mgr := mgr w;
                  env := {| socketOpen := socketOpen e; outstanding := rest;
                            posted := posted e; log := log e |} |} in
      sendHandler state error w
  end.

(** The context runs the oldest posted task. *)
Definition runPosted (w : World) : World :=
  match posted (env w) with
  | [] => w
  | h :: rest =>
      let e := env w in
      let w := {| mgr := mgr w;
                  env := {| socketOpen := socketOpen e;
                            outstanding := outstanding e;
                            posted := rest; log := log e |} |} in
      invokeHandler h error.encoding w
  end.

(** The deadline of the outstanding send passes: the timer of
    [timedAsyncOperation] closes the socket. *)
Definition timedOut (w : World) : World := onEnv cancelOperation w.

Definition invocations (w : World) : list Event :=
  filter (fun ev => match ev with Invoked _ _ => true | _ => false end)
         (log (env w)).

(** What a call on the sender leaves alone while an operation is
    running: [running] itself, a closed socket, the sends already
    outstanding, the handlers invoked so far. *)
Definition extends (w w' : World) : Prop :=
  (running (mgr w) = true -> running (mgr w') = true) /\
  (running (mgr w) = true -> socketOpen (env w) = false ->
   socketOpen (env w') = false) /\
  (exists more, outstanding (env w') = outstanding (env w) ++ more) /\
  invocations w' = invocations w.

End Sender.

End DatagramSender.

(** ** ServiceClient.h *)

Module ServiceClient.
Import manager.

Section Client.
Context {RequestMessage ResponseMessage : Type}.
Variable encodeRequest : RequestMessage -> option (list byte).
Variable decodeResponse : internal.ConstBuffer -> option ResponseMessage.
(** [ResponseMessage noResponse;], the default-constructed response. *)
Variable noResponse : ResponseMessage.
Variable maxMessageSize : Z.

(** The two overloads of [asyncCall]: by host and port, or by an
    endpoint iterator. *)
Inductive Target :=
| ByHost (host : list byte) (port : Z)
| ByEndpoints (endpointIterator : list Endpoint).

Inductive Event :=
| Started (sendData : list byte) (target : Target) (timeout : Duration)
          (handler : HandlerId)
| Invoked (handler : HandlerId) (error : error.Error)
          (response : ResponseMessage).

Inductive Call :=
| CallAsyncCall (request : RequestMessage) (target : Target)
                (timeout : Duration) (handler : HandlerId)
| CallCancel.

Variable user : HandlerId -> list Event -> list Call.

(** [struct AsyncState] *)
Record AsyncState := {
  handler : HandlerId;
  sendData : list byte;
  timeout : Duration;
  startTime : TimePoint;
  buffer : asio.streambuf;
  finishedNotifier : FinishedOperationNotifier
}.

Record Op := {
  opSendData : list byte;
  opTarget : Target;
  opTimeout : Duration;
  opHandler : HandlerId
}.

(** The stage of the call that is outstanding: the resolver of
    [asyncConnect] (with its own [is_open()]), the connect, the
    write of the request, the read of the response. *)
Inductive Stage :=
| Resolving (resolverOpen : bool)
| Connecting
| Writing
| Reading.

(** What the reactor reports when a stage completes. *)
Inductive Completion :=
| ResolveDone (boostCode : error.error_code) (endpoints : list Endpoint)
| ConnectDone (boostCode : error.error_code)
| WriteDone (boostCode : error.error_code) (numBytesTransferred : Z)
| ReadDone (wire : list byte).

Record Env := {
  now : TimePoint;
  socketOpen : bool;
  outstanding : list (Stage * AsyncState);
  posted : list HandlerId;
  log : list Event
}.

Local Abbreviation World := (World PendingOperationQueue Op Env).

Definition setSocket (b : bool) (e : Env) : Env :=
  {| now := now e; socketOpen := b; outstanding := outstanding e;
     posted := posted e; log := log e |}.

Definition submit (stage : Stage) (state : AsyncState) (e : Env) : Env :=
  {| now := now e; socketOpen := socketOpen e;
     outstanding := outstanding e ++ [(stage, state)];
     posted := posted e; log := log e |}.

Definition addLog (ev : Event) (e : Env) : Env :=
  {| now := now e; socketOpen := socketOpen e; outstanding := outstanding e;
     posted := posted e; log := log e ++ [ev] |}.

(** [newSocket]: [socket = Socket(context);], a socket not yet open. *)
Definition newSocket (e : Env) : Env := setSocket false e.

(** [boost::asio::async_connect] opens the socket it connects. *)
Definition beginConnect (state : AsyncState) (e : Env) : Env :=
  submit Connecting state (setSocket true e).

(** Both overloads of [asyncCallOperation]. *)
Definition asyncCallOperation (op : Op) (e : Env) : Env :=
  let state := {| handler := opHandler op; sendData := opSendData op;
                  timeout := opTimeout op; startTime := now e;
                  buffer := message.serviceBuffer maxMessageSize;
                  finishedNotifier := newNotifier |} in
  let e := addLog (Started (opSendData op) (opTarget op) (opTimeout op)
                           (opHandler op)) e in
  let e := newSocket e in
  match opTarget op with
  | ByHost _ _ => submit (Resolving true) state e
  | ByEndpoints _ => beginConnect state e
  end.

(** [cancelOperation] *)
Definition cancelOperation (e : Env) : Env := setSocket false e.

Definition create : World :=
  initial {| now := 0; socketOpen := false; outstanding := [];
             posted := []; log := [] |}.

(** [encode]: the data to send, or [nullptr] after posting the
    handler with [error::encoding]. *)
Definition encode (request : RequestMessage) (handler : HandlerId) (w : World)
  : option (list byte) * World :=
  match encodeRequest request with
  | None =>
      let e := env w in
      (None,
       {| mgr := mgr w;
          env := {| now := now e; socketOpen := socketOpen e;
                    outstanding := outstanding e;
                    posted := posted e ++ [handler]; log := log e |} |})
  | Some sendData => (Some sendData, w)
  end.

Definition asyncCall (request : RequestMessage) (target : Target)
           (timeout : Duration) (handler : HandlerId) (w : World) : World :=
  match encode request handler w with
  | (None, w) => w
  | (Some sendData, w) =>
      startOperation asyncCallOperation cancelOperation
        {| opSendData := sendData; opTarget := target;
           opTimeout := timeout; opHandler := handler |} w
  end.

Definition cancel (w : World) : World :=
  manager.cancelOperation cancelOperation w.

Definition finish (w : World) : World :=
  finishOperation asyncCallOperation w.

Definition runCall (w : World) (c : Call) : World :=
  match c with
  | CallAsyncCall request target timeout handler =>
      asyncCall request target timeout handler w
  | CallCancel => cancel w
  end.

Definition invokeHandler (h : HandlerId) (error : error.Error)
           (response : ResponseMessage) (w : World) : World :=
  let w := onEnv (addLog (Invoked h error response)) w in
  fold_left runCall (user h (log (env w))) w.

(** [updateTimeout] *)
Definition updateTimeout (nowTime : TimePoint) (state : AsyncState) : AsyncState :=
  let timeSpend := nowTime - startTime state in
  {| handler := handler state; sendData := sendData state;
     timeout := timeout state - timeSpend; startTime := nowTime;
     buffer := buffer state; finishedNotifier := finishedNotifier state |}.

(** The exit taken by [connectHandler] and [writeHandler] on an
    error, and by the read lambda always: close the socket, notify,
    invoke the handler; then the closure and its state go away. *)
Definition exitStage (state : AsyncState) (error : error.Error)
           (response : ResponseMessage) (w : World) : World :=
  let w := onEnv (setSocket false) w in
  let '(notifier, w) := notify asyncCallOperation (finishedNotifier state) w in
  let w := invokeHandler (handler state) error response w in
  destroy asyncCallOperation notifier w.

Definition connectHandler (state : AsyncState) (error : error.Error) (w : World)
  : World :=
  if error.to_bool error then exitStage state error noResponse w
  else
    let state := updateTimeout (now (env w)) state in
    onEnv (submit Writing state) w.

Definition writeHandler (state : AsyncState) (error : error.Error) (w : World)
  : World :=
  if error.to_bool error then exitStage state error noResponse w
  else
    let state := updateTimeout (now (env w)) state in
    onEnv (submit Reading state) w.

(** The lambda [writeHandler] passes to [message::asyncReceive]. *)
Definition readHandler (state : AsyncState) (error : error.Error)
           (response : ResponseMessage) (w : World) : World :=
  exitStage state error response w.

(** The reactor completes the outstanding stage. *)
Definition completed (c : Completion) (w : World) : World :=
  match outstanding (env w) with
  | [] => w
  | (stage, state) :: rest =>
      let e := env w in
      let w' := {| mgr := mgr w;
                   env := {| now := now e; socketOpen := socketOpen e;
                             outstanding := rest; posted := posted e;
                             log := log e |} |} in
      match stage, c with
      | Resolving resolverOpen, ResolveDone boostCode _ =>
          let error := closeable.completionError resolverOpen boostCode in
          if error.to_bool error then connectHandler state error w'
          else onEnv (beginConnect state) w'
      | Connecting, ConnectDone boostCode =>
          let error := closeable.completionError (socketOpen e) boostCode in
          connectHandler state error w'
      | Writing, WriteDone boostCode numBytesTransferred =>
          let error := closeable.completionError (socketOpen e) boostCode in
          let error := stream.asyncWrite_completion
                         (message.frameOf (sendData state)) error
                         numBytesTransferred in
          writeHandler state error w'
      | Reading, ReadDone wire =>
          let '(error, response, sb) :=
            message.asyncReceive decodeResponse noResponse
              (socketOpen e) (buffer state) wire in
          readHandler state error response w'
      | _, _ => w
      end
  end.

(** The context runs the oldest posted task:
    [ResponseMessage noResponse; handler(error::encoding, noResponse);] *)
Definition runPosted (w : World) : World :=
  match posted (env w) with
  | [] => w
  | h :: rest =>
      let e := env w in
      let w := {| mgr := mgr w;
                  env := {| now := now e; socketOpen := socketOpen e;
                            outstanding := outstanding e;
                            posted := rest; log := log e |} |} in
      invokeHandler h error.encoding noResponse w
  end.

(** Time passes. *)
Definition advance (t : TimePoint) (w : World) : World :=
  let e := env w in
  {| mgr := mgr w;
     env := {| now := Z.max (now e) t; socketOpen := socketOpen e;
               outstanding := outstanding e; posted := posted e;
               log := log e |} |}.

(** The deadline of the outstanding stage passes: the timer of
    [timedAsyncOperation] closes the handle the stage acts on, the
    resolver or the socket. *)
Definition timedOut (w : World) : World :=
  match outstanding (env w) with
  | (Resolving _, state) :: rest =>
      let e := env w in
      {| mgr := mgr w;
         env := {| now := now e; socketOpen := socketOpen e;
                   outstanding := (Resolving false, state) :: rest;
                   posted := posted e; log := log e |} |}
  | _ => onEnv (setSocket false) w
  end.

Definition invocations (w : World) : list Event :=
  filter (fun ev => match ev with Invoked _ _ _ => true | _ => false end)
         (log (env w)).

(** What a call on the client leaves alone while an operation is
    running: [running] itself, a closed socket, the stages already
    outstanding, the handlers invoked so far. *)
Definition extends (w w' : World) : Prop :=
  (running (mgr w) = true -> running (mgr w') = true) /\
  (running (mgr w) = true -> socketOpen (env w) = false ->
   socketOpen (env w') = false) /\
  (exists more, outstanding (env w') = outstanding (env w) ++ more) /\
  invocations w' = invocations w.

(** The completion reported is the one the stage awaits, for the
    stages that act on the client's socket (the resolver of
    [asyncConnect] is a handle of its own). *)
Definition onSocket (stage : Stage) (c : Completion) : bool :=
  match stage, c with
  | Connecting, ConnectDone _ => true
  | Writing, WriteDone _ _ => true
  | Reading, ReadDone _ => true
  | _, _ => false
  end.

End Client.

End ServiceClient.

(** ** Timer.h *)

Module Timer.
Import manager.

Section Timer.

Inductive Event :=
| Started (periodic : bool) (duration : Duration) (handler : HandlerId)
| Invoked (handler : HandlerId).

Inductive Call :=
| CallStartTimeout (duration : Duration) (handler : HandlerId)
| CallStartPeriodicTimeout (interval : Duration) (handler : HandlerId)
| CallCancel.

Variable user : HandlerId -> list Event -> list Call.

(** [struct AsyncState] *)
Record AsyncState := {
  handler : HandlerId;
  duration : Duration;
  notifier : FinishedOperationNotifier
}.

(** The operation given to [startOperation] with its captured
    arguments: [startTimeoutOperation] or
    [startPeriodicTimeoutOperation]. *)
Inductive Op :=
| TimeoutOperation (duration : Duration) (handler : HandlerId)
| PeriodicTimeoutOperation (interval : Duration) (handler : HandlerId).

(** The three lambdas given to [timer.async_wait]: by
    [startTimeoutOperation], by [startPeriodicTimeoutOperation] and
    by [nextPeriod]. *)
Inductive WaitKind := TimeoutWait | PeriodicWait | NextPeriodWait.

(** An [async_wait] submitted to the [basic_waitable_timer]: it
    stays pending until the expiry is reached, or until the timer
    is cancelled or its expiry is set anew, which completes it
    with [operation_aborted]. *)
Inductive WaitStatus := Pending | Expired | Aborted.

Record Wait := {
  kind : WaitKind;
  state : AsyncState;
  status : WaitStatus
}.

Record Env := {
  now : TimePoint;
  expires_at : TimePoint;
  waits : list Wait;
  log : list Event
}.

Local Abbreviation World := (World PendingOperationReplacer Op Env).

Definition abort (w : Wait) : Wait :=
  {| kind := kind w; state := state w;
     status := match status w with Pending => Aborted | s => s end |}.

(** [timer.cancel()] *)
Definition timer_cancel (e : Env) : Env :=
  {| now := now e; expires_at := expires_at e;
     waits := map abort (waits e); log := log e |}.

(** [timer.expires_at(t)]; [timer.expires_from_now(d)] is
    [set_expires_at (now + d)]. Pending waits are cancelled. *)
Definition set_expires_at (t : TimePoint) (e : Env) : Env :=
  {| now := now e; expires_at := t;
     waits := map abort (waits e); log := log e |}.

(** [timer.async_wait(lambda)] *)
Definition async_wait (k : WaitKind) (st : AsyncState) (e : Env) : Env :=
  {| now := now e; expires_at := expires_at e;
     waits := waits e ++ [{| kind := k; state := st; status := Pending |}];
     log := log e |}.

Definition addLog (ev : Event) (e : Env) : Env :=
  {| now := now e; expires_at := expires_at e; waits := waits e;
     log := log e ++ [ev] |}.

(** [startTimeoutOperation] and [startPeriodicTimeoutOperation] *)
Definition startTimeoutOperation (duration : Duration) (handler : HandlerId)
           (e : Env) : Env :=
  let state := {| handler := handler; duration := duration;
                  notifier := newNotifier |} in
  let e := addLog (Started false duration handler) e in
  let e := set_expires_at (now e + duration) e in
  async_wait TimeoutWait state e.

Definition startPeriodicTimeoutOperation (interval : Duration)
           (handler : HandlerId) (e : Env) : Env :=
  let state := {| handler := handler; duration := interval;
                  notifier := newNotifier |} in
  let e := addLog (Started true interval handler) e in
  let e := set_expires_at (now e + interval) e in
  async_wait PeriodicWait state e.

Definition invoke (op : Op) (e : Env) : Env :=
  match op with
  | TimeoutOperation duration handler => startTimeoutOperation duration handler e
  | PeriodicTimeoutOperation interval handler =>
      startPeriodicTimeoutOperation interval handler e
  end.

(** [cancelOperation]: [timer.cancel(ignoredError)] *)
Definition cancelOperation (e : Env) : Env := timer_cancel e.

Definition create : World :=
  initial {| now := 0; expires_at := 0; waits := []; log := [] |}.

Definition startTimeout (duration : Duration) (handler : HandlerId) (w : World)
  : World :=
  startOperation invoke cancelOperation (TimeoutOperation duration handler) w.

Definition startPeriodicTimeout (interval : Duration) (handler : HandlerId)
           (w : World) : World :=
  startOperation invoke cancelOperation
    (PeriodicTimeoutOperation interval handler) w.

Definition cancel (w : World) : World :=
  manager.cancelOperation cancelOperation w.

Definition finish (w : World) : World := finishOperation invoke w.

Definition runCall (w : World) (c : Call) : World :=
  match c with
  | CallStartTimeout duration handler => startTimeout duration handler w
  | CallStartPeriodicTimeout interval handler =>
      startPeriodicTimeout interval handler w
  | CallCancel => cancel w
  end.

Definition invokeHandler (h : HandlerId) (w : World) : World :=
  let w := onEnv (addLog (Invoked h)) w in
  fold_left runCall (user h (log (env w))) w.

(** The lambda of [startTimeoutOperation]. *)
Definition timeoutLambda (st : AsyncState) (error : bool) (w : World) : World :=
  if error || isCanceled w then destroy invoke (notifier st) w
  else
    let '(n, w) := notify invoke (notifier st) w in
    let w := invokeHandler (handler st) w in
    destroy invoke n w.

(** [nextPeriod]: returns without re-arming when cancelled, and the
    state is then destroyed with the lambda that called it;
    otherwise the state moves into the next wait. *)
Definition nextPeriod (st : AsyncState) (w : World) : World :=
  if isCanceled w then destroy invoke (notifier st) w
  else
    let w := onEnv (fun e => set_expires_at (expires_at e + duration st) e) w in
    onEnv (async_wait NextPeriodWait st) w.

(** The lambda of [startPeriodicTimeoutOperation], which is also
    that of [nextPeriod]. *)
Definition periodicLambda (st : AsyncState) (error : bool) (w : World) : World :=
  if error || isCanceled w then destroy invoke (notifier st) w
  else
    let w := invokeHandler (handler st) w in
    nextPeriod st w.

(** Time passes to [t]: pending waits whose expiry is reached
    expire. *)
Definition expire (nowTime expiry : TimePoint) (w : Wait) : Wait :=
  {| kind := kind w; state := state w;
     status := match status w with
               | Pending => if expiry <=? nowTime then Expired else Pending
               | s => s
               end |}.

Definition advance (t : TimePoint) (w : World) : World :=
  let e := env w in
  let nowTime := Z.max (now e) t in
  {| mgr := mgr w;
     env := {| now := nowTime; expires_at := expires_at e;
               waits := map (expire nowTime (expires_at e)) (waits e);
               log := log e |} |}.

(** The reactor runs the lambda of the oldest wait, once that wait
    has completed; the error code is set exactly for an aborted
    wait. *)
Definition deliver (w : World) : World :=
  match waits (env w) with
  | [] => w
  | wt :: rest =>
      match status wt with
      | Pending => w
      | s =>
          let e := env w in
          let w' := {| mgr := mgr w;
                       env := {| now := now e; expires_at := expires_at e;
                                 waits := rest; log := log e |} |} in
          let error := match s with Aborted => true | _ => false end in
          match kind wt with
          | TimeoutWait => timeoutLambda (state wt) error w'
          | PeriodicWait | NextPeriodWait => periodicLambda (state wt) error w'
          end
      end
  end.

Definition invocations (w : World) : list Event :=
  filter (fun ev => match ev with Invoked _ => true | _ => false end)
         (log (env w)).

(** The world a lambda runs in: its own wait has left the timer. *)
Definition dropHead (w : World) : World :=
  let e := env w in
  {| mgr := mgr w;
     env := {| now := now e; expires_at := expires_at e;
               waits := tl (waits e); log := log e |} |}.

(** What can happen between two completions: a call on the timer, or
    time passing. *)
Inductive Step :=
| StepCall (c : Call)
| StepAdvance (t : TimePoint).

Definition step (w : World) (s : Step) : World :=
  match s with
  | StepCall c => runCall w c
  | StepAdvance t => advance t w
  end.

(** The oldest wait is that of lambda [k] holding [st], and it has
    completed (expired or aborted). *)
Definition settled (k : WaitKind) (st : AsyncState) (w : World) : Prop :=
  exists s rest,
    waits (env w) = {| kind := k; state := st; status := s |} :: rest /\
    s <> Pending.

(** What such a step leaves alone: the [canceled] latch once set;
    while an operation is running, [running] and the timer's expiry;
    a completed oldest wait; the handlers invoked so far. *)
Definition extends (w w' : World) : Prop :=
  (canceled (mgr w) = true -> canceled (mgr w') = true) /\
  (running (mgr w) = true ->
   running (mgr w') = true /\ expires_at (env w') = expires_at (env w)) /\
  (forall k st, settled k st w -> settled k st w') /\
  invocations w' = invocations w.

(** Everything that can happen to a timer: a step as above, or the
    reactor delivering a completed wait. The reachable worlds are
    those a freshly constructed timer gets to. *)
Inductive Input :=
| Do (s : Step)
| Deliver.

Definition react (w : World) (i : Input) : World :=
  match i with
  | Do s => step w s
  | Deliver => deliver w
  end.

Definition reachable (w : World) : Prop :=
  exists inputs, w = fold_left react inputs create.

(** At most one wait is outstanding, and [running] is set while a wait
    is outstanding or an operation is pending. *)
Definition inFlight (w : World) : Prop :=
  (pendingOperations (mgr w) <> None -> running (mgr w) = true) /\
  (waits (env w) = [] \/
   (exists x, waits (env w) = [x]) /\ running (mgr w) = true).

End Timer.

End Timer.


(** ** Runs of the socket components

    Everything that can happen to a component between its
    construction and some later moment: a call of a public member
    function, the reactor completing the outstanding operation, the
    context running a posted task, a deadline passing. The reachable
    worlds are those a freshly constructed component gets to; handlers
    call back into the component through the table [user]. *)

Module SenderRuns.
Import manager.

Section SenderRuns.
Context {Message : Type}.
Variable encode : Message -> option (list byte).
Variable user : HandlerId -> list DatagramSender.Event
                -> list (@DatagramSender.Call Message).

Local Abbreviation World :=
  (World PendingOperationQueue DatagramSender.Op DatagramSender.Env).

Inductive Input :=
| Do (c : @DatagramSender.Call Message)
| Completed (boostCode : error.error_code) (numBytesTransferred : Z)
| RunPosted
| TimedOut.

Definition react (w : World) (i : Input) : World :=
  match i with
  | Do c => DatagramSender.runCall encode w c
  | Completed boostCode n => DatagramSender.sendCompleted encode user boostCode n w
  | RunPosted => DatagramSender.runPosted encode user w
  | TimedOut => DatagramSender.timedOut w
  end.

Definition reachable (w : World) : Prop :=
  exists inputs, w = fold_left react inputs DatagramSender.create.

(** At most one send is outstanding on the socket, and [running] is
    set while a send is outstanding or an operation is queued. *)
Definition serialized (w : World) : Prop :=
  (pendingOperations (mgr w) <> [] -> running (mgr w) = true) /\
  (DatagramSender.outstanding (env w) = [] \/
   (exists x, DatagramSender.outstanding (env w) = [x]) /\ running (mgr w) = true).

(** The operation record [asyncSend] hands to the manager for a send
    whose message encodes to [data]. *)
Definition opOf (data : list byte) (endpoint : Endpoint) (timeout : Duration)
           (handler : HandlerId) : DatagramSender.Op :=
  {| DatagramSender.opData := data; DatagramSender.opEndpoint := endpoint;
     DatagramSender.opTimeout := timeout; DatagramSender.opHandler := handler |}.

(** The reactor completes the outstanding send in full: every byte of
    its frame was transferred and the transport reports no error. *)
Definition completeInFull (w : World) : World :=
  match DatagramSender.outstanding (env w) with
  | [] => w
  | state :: _ =>
      DatagramSender.sendCompleted encode user error.error_code_default
        (internal.getSize (message.frameOf (DatagramSender.data state))) w
  end.

End SenderRuns.

End SenderRuns.

Module ReceiverRuns.
Import manager.

Section ReceiverRuns.
Context {Message : Type}.
Variable decode : internal.ConstBuffer -> option Message.
Variable defaultMessage : Message.
Variable user : HandlerId -> list (@DatagramReceiver.Event Message)
                -> list DatagramReceiver.Call.
Variable maxMessageSize : Z.

Local Abbreviation World :=
  (World PendingOperationReplacer DatagramReceiver.Op (@DatagramReceiver.Env Message)).

Inductive Input :=
| Do (c : DatagramReceiver.Call)
| Completed (boostCode : error.error_code) (datagram : list byte)
            (senderEndpoint : Endpoint)
| TimedOut.

Definition react (w : World) (i : Input) : World :=
  match i with
  | Do c => DatagramReceiver.runCall w c
  | Completed boostCode datagram senderEndpoint =>
      DatagramReceiver.receiveCompleted decode defaultMessage user
        boostCode datagram senderEndpoint w
  | TimedOut => DatagramReceiver.timedOut w
  end.

Definition reachable (w : World) : Prop :=
  exists inputs, w = fold_left react inputs (DatagramReceiver.create maxMessageSize).

(** At most one receive is outstanding on the socket, and [running]
    is set while a receive is outstanding or an operation is
    pending. *)
Definition serialized (w : World) : Prop :=
  (pendingOperations (mgr w) <> None -> running (mgr w) = true) /\
  (DatagramReceiver.outstanding (env w) = [] \/
   (exists x, DatagramReceiver.outstanding (env w) = [x]) /\ running (mgr w) = true).

End ReceiverRuns.

End ReceiverRuns.

Module ClientRuns.
Import manager.

Section ClientRuns.
Context {RequestMessage ResponseMessage : Type}.
Variable encodeRequest : RequestMessage -> option (list byte).
Variable decodeResponse : internal.ConstBuffer -> option ResponseMessage.
Variable noResponse : ResponseMessage.
Variable maxMessageSize : Z.
Variable user : HandlerId -> list (@ServiceClient.Event ResponseMessage)
                -> list (@ServiceClient.Call RequestMessage).

Local Abbreviation World :=
  (World PendingOperationQueue ServiceClient.Op (@ServiceClient.Env ResponseMessage)).

Inductive Input :=
| Do (c : @ServiceClient.Call RequestMessage)
| Completed (c : ServiceClient.Completion)
| RunPosted
| Advance (t : TimePoint)
| TimedOut.

Definition react (w : World) (i : Input) : World :=
  match i with
  | Do c => ServiceClient.runCall encodeRequest maxMessageSize w c
  | Completed c =>
      ServiceClient.completed encodeRequest decodeResponse noResponse
        maxMessageSize user c w
  | RunPosted =>
      ServiceClient.runPosted encodeRequest noResponse maxMessageSize user w
  | Advance t => ServiceClient.advance t w
  | TimedOut => ServiceClient.timedOut w
  end.

Definition reachable (w : World) : Prop :=
  exists inputs, w = fold_left react inputs ServiceClient.create.

(** At most one stage of one call is outstanding, and [running] is
    set while a stage is outstanding or a call is queued. *)
Definition serialized (w : World) : Prop :=
  (pendingOperations (mgr w) <> [] -> running (mgr w) = true) /\
  (ServiceClient.outstanding (env w) = [] \/
   (exists x, ServiceClient.outstanding (env w) = [x]) /\ running (mgr w) = true).

End ClientRuns.

End ClientRuns.

(** ** Resolver.h *)

Module Resolver.
Import manager.

Section Resolver.

(** What a resolve yields: the endpoints of the iterator. *)
Inductive Event :=
| Started (host service : list byte) (timeout : Duration) (handler : HandlerId)
| Invoked (handler : HandlerId) (error : error.Error) (endpoints : list Endpoint).

Inductive Call :=
| CallAsyncResolve (host service : list byte) (timeout : Duration)
                   (handler : HandlerId)
| CallStop.

Variable user : HandlerId -> list Event -> list Call.

(** [struct AsyncState] *)
Record AsyncState := {
  handler : HandlerId;
  finishedNotifier : FinishedOperationNotifier
}.

Record Op := {
  opHost : list byte;
  opService : list byte;
  opTimeout : Duration;
  opHandler : HandlerId
}.

(** The resolver apart from its manager: the [opened] flag of
    [CloseableResolver], the resolves submitted and not yet
    completed, and the history. *)
Record Env := {
  opened : bool;
  outstanding : list AsyncState;
  log : list Event
}.

Local Abbreviation World := (World PendingOperationQueue Op Env).

(** [CloseableResolver::open] and [CloseableResolver::close]; the
    latter cancels the outstanding resolves, which then complete with
    a transport error. Either way the flag ends up as written. *)
Definition open (e : Env) : Env :=
  {| opened := true; outstanding := outstanding e; log := log e |}.

Definition is_open (e : Env) : bool := opened e.

Definition close (e : Env) : Env :=
  if negb (opened e) then e
  else {| opened := false; outstanding := outstanding e; log := log e |}.

(** [asyncResolveOperation] *)
Definition asyncResolveOperation (op : Op) (e : Env) : Env :=
  let e := open e in
  let state := {| handler := opHandler op; finishedNotifier := newNotifier |} in
  {| opened := opened e;
     outstanding := outstanding e ++ [state];
     log := log e ++ [Started (opHost op) (opService op) (opTimeout op)
                              (opHandler op)] |}.

(** [cancelOperation]: [closeable::Closer<UnderlyingResolver>::close(resolver)] *)
Definition cancelOperation (e : Env) : Env := close e.

(** [std::atomic<bool> opened{true};] *)
Definition create : World :=
  initial {| opened := true; outstanding := []; log := [] |}.

Definition asyncResolve (host service : list byte) (timeout : Duration)
           (handler : HandlerId) (w : World) : World :=
  startOperation asyncResolveOperation cancelOperation
    {| opHost := host; opService := service;
       opTimeout := timeout; opHandler := handler |} w.

Definition stop (w : World) : World :=
  manager.cancelOperation cancelOperation w.

Definition runCall (w : World) (c : Call) : World :=
  match c with
  | CallAsyncResolve host service timeout handler =>
      asyncResolve host service timeout handler w
  | CallStop => stop w
  end.

Definition addLog (ev : Event) (e : Env) : Env :=
  {| opened := opened e; outstanding := outstanding e; log := log e ++ [ev] |}.

Definition invokeHandler (h : HandlerId) (error : error.Error)
           (endpoints : list Endpoint) (w : World) : World :=
  let w := onEnv (addLog (Invoked h error endpoints)) w in
  fold_left runCall (user h (log (env w))) w.

(** The lambda [asyncResolveOperation] passes to
    [timedAsyncOperation]. *)
Definition resolveHandler (state : AsyncState) (error : error.Error)
           (endpoints : list Endpoint) (w : World) : World :=
  let '(notifier, w) := notify asyncResolveOperation (finishedNotifier state) w in
  let w := invokeHandler (handler state) error endpoints w in
  destroy asyncResolveOperation notifier w.

(** The reactor completes the outstanding resolve with [boostCode]
    and the endpoints found. *)
Definition resolveCompleted (boostCode : error.error_code)
           (endpoints : list Endpoint) (w : World) : World :=
  match outstanding (env w) with
  | [] => w
  | state :: rest =>
      let e := env w in
      let error := closeable.completionError (is_open e) boostCode in
      let w := {| mgr := mgr w;
                  env := {| opened := opened e; outstanding := rest;
                            log := log e |} |} in
      resolveHandler state error endpoints w
  end.

(** The deadline of the outstanding resolve passes: the timer of
    [timedAsyncOperation] closes the resolver. *)
Definition timedOut (w : World) : World := onEnv close w.

Definition invocations (w : World) : list Event :=
  filter (fun ev => match ev with Invoked _ _ _ => true | _ => false end)
         (log (env w)).

End Resolver.

End Resolver.

(** ** ServiceServer.h *)

Module ServiceServer.
Import manager.

Section Server.
Context {RequestMessage ResponseMessage : Type}.
Variable decodeRequest : internal.ConstBuffer -> option RequestMessage.
Variable encodeResponse : ResponseMessage -> option (list byte).
(** [RequestMessage message;], the default-constructed request that
    [message::asyncReceive] hands on after a failed decode. *)
Variable noRequest : RequestMessage.
Variable maxMessageSize : Z.

(** [Sent] records the frame submitted to [stream::asyncWrite] on the
    connection of [clientEndpoint]. *)
Inductive Event :=
| Started (handler : HandlerId) (receiveTimeout sendTimeout : Duration)
| Invoked (handler : HandlerId) (clientEndpoint : Endpoint)
          (request : RequestMessage)
| Sent (clientEndpoint : Endpoint) (frame : list byte).

Inductive Call :=
| CallAdvertiseService (handler : HandlerId)
                       (receiveTimeout sendTimeout : Duration)
| CallCancel.

(** A [RequestReceivedHandler]: the response it leaves in its third
    parameter, and the calls it makes on the server, as functions of
    the history, the client's endpoint and the request. *)
Variable user : HandlerId -> list Event -> Endpoint -> RequestMessage
                -> ResponseMessage * list Call.

(** [struct AcceptState] *)
Record AcceptState := {
  requestReceivedHandler : HandlerId;
  receiveTimeout : Duration;
  sendTimeout : Duration;
  finishedNotifier : FinishedOperationNotifier
}.

(** [struct ServiceState]: the connection's socket is represented by
    the endpoint of its peer. *)
Record ServiceState := {
  clientEndpoint : Endpoint;
  buffer : asio.streambuf;
  serviceHandler : HandlerId;
  serviceReceiveTimeout : Duration;
  serviceSendTimeout : Duration
}.

Record Op := {
  opHandler : HandlerId;
  opReceiveTimeout : Duration;
  opSendTimeout : Duration
}.

(** The server apart from its manager: its own [running] flag, the
    acceptor, the [async_accept] submitted and not yet completed (with
    the accept state its lambda holds), the connections whose request
    is being received, and the history. *)
Record Env := {
  running : bool;
  acceptorOpen : bool;
  accepts : list AcceptState;
  receives : list ServiceState;
  log : list Event
}.

Local Abbreviation World := (World PendingOperationReplacer Op Env).

Definition addLog (ev : Event) (e : Env) : Env :=
  {| running := running e; acceptorOpen := acceptorOpen e;
     accepts := accepts e; receives := receives e; log := log e ++ [ev] |}.

(** [accept]: the acceptor is opened anew unless it is open, and an
    [async_accept] is submitted. *)
Definition accept (acceptState : AcceptState) (e : Env) : Env :=
  {| running := running e; acceptorOpen := true;
     accepts := accepts e ++ [acceptState];
     receives := receives e; log := log e |}.

(** [advertiseServiceOperation] *)
Definition advertiseServiceOperation (op : Op) (e : Env) : Env :=
  let e := {| running := true; acceptorOpen := acceptorOpen e;
              accepts := accepts e; receives := receives e; log := log e |} in
  let acceptState := {| requestReceivedHandler := opHandler op;
                        receiveTimeout := opReceiveTimeout op;
                        sendTimeout := opSendTimeout op;
                        finishedNotifier := newNotifier |} in
  let e := addLog (Started (opHandler op) (opReceiveTimeout op) (opSendTimeout op)) e in
  accept acceptState e.

(** [cancelOperation]: [running = false;] and the acceptor is closed,
    which makes the outstanding accept complete with a transport
    error. *)
Definition cancelOperation (e : Env) : Env :=
  {| running := false; acceptorOpen := false;
     accepts := accepts e; receives := receives e; log := log e |}.

Definition create : World :=
  initial {| running := false; acceptorOpen := false; accepts := [];
             receives := []; log := [] |}.

Definition advertiseService (handler : HandlerId)
           (receiveTimeout sendTimeout : Duration) (w : World) : World :=
  startOperation advertiseServiceOperation cancelOperation
    {| opHandler := handler; opReceiveTimeout := receiveTimeout;
       opSendTimeout := sendTimeout |} w.

Definition cancel (w : World) : World :=
  manager.cancelOperation cancelOperation w.

Definition runCall (w : World) (c : Call) : World :=
  match c with
  | CallAdvertiseService handler receiveTimeout sendTimeout =>
      advertiseService handler receiveTimeout sendTimeout w
  | CallCancel => cancel w
  end.

(** [ServiceState(server, acceptState)] for a connection from
    [clientEndpoint]. *)
Definition newServiceState (acceptState : AcceptState) (peer : Endpoint)
  : ServiceState :=
  {| clientEndpoint := peer;
     buffer := message.serviceBuffer maxMessageSize;
     serviceHandler := requestReceivedHandler acceptState;
     serviceReceiveTimeout := receiveTimeout acceptState;
     serviceSendTimeout := sendTimeout acceptState |}.

(** [handleService]: the receive of the request is submitted on the
    connection. *)
Definition handleService (serviceState : ServiceState) (e : Env) : Env :=
  {| running := running e; acceptorOpen := acceptorOpen e;
     accepts := accepts e; receives := receives e ++ [serviceState];
     log := log e |}.

(** The lambda given to [acceptor.async_accept]. Returning early
    destroys the closure and with it the accept state. *)
Definition acceptLambda (acceptState : AcceptState) (serviceState : ServiceState)
           (acceptError : bool) (w : World) : World :=
  if negb (running (env w)) then
    destroy advertiseServiceOperation (finishedNotifier acceptState) w
  else
    let w := if negb acceptError && negb (isCanceled w)
             then onEnv (handleService serviceState) w else w in
    onEnv (accept acceptState) w.

(** The reactor completes the outstanding accept: a connection from
    [peer], or the transport code [boostCode]. *)
Definition acceptCompleted (boostCode : error.error_code) (peer : Endpoint)
           (w : World) : World :=
  match accepts (env w) with
  | [] => w
  | acceptState :: rest =>
      let e := env w in
      let w := {| mgr := mgr w;
                  env := {| running := running e; acceptorOpen := acceptorOpen e;
                            accepts := rest; receives := receives e;
                            log := log e |} |} in
      acceptLambda acceptState (newServiceState acceptState peer)
        (error.error_code_bool boostCode) w
  end.

(** The lambda [handleService] passes to [message::asyncReceive]: on
    an error it returns; otherwise the handler is invoked and the
    response is sent with [message::asyncSend], whose own handler
    does nothing. An encoder that throws sends nothing. *)
Definition requestLambda (serviceState : ServiceState) (errorCode : error.Error)
           (request : RequestMessage) (w : World) : World :=
  if error.to_bool errorCode then w
  else
    let h := serviceHandler serviceState in
    let peer := clientEndpoint serviceState in
    let w := onEnv (addLog (Invoked h peer request)) w in
    let '(response, calls) := user h (log (env w)) peer request in
    let w := fold_left runCall calls w in
    match encodeResponse response with
    | None => w
    | Some data =>
        onEnv (addLog (Sent peer (internal.getBuffers (message.frameOf data)))) w
    end.

Fixpoint removeNth {A : Type} (i : nat) (l : list A) : list A :=
  match i, l with
  | _, [] => []
  | O, _ :: rest => rest
  | S i', x :: rest => x :: removeNth i' rest
  end.

(** The reactor completes the receive on connection number [i]: the
    peer sent [wire], and the connection's socket is open or was
    closed by the receive's deadline. *)
Definition requestCompleted (i : nat) (socketOpen : bool) (wire : list byte)
           (w : World) : World :=
  match nth_error (receives (env w)) i with
  | None => w
  | Some serviceState =>
      let e := env w in
      let w := {| mgr := mgr w;
                  env := {| running := running e; acceptorOpen := acceptorOpen e;
                            accepts := accepts e;
                            receives := removeNth i (receives e);
                            log := log e |} |} in
      let '(errorCode, request, _) :=
        message.asyncReceive decodeRequest noRequest socketOpen
          (buffer serviceState) wire in
      requestLambda serviceState errorCode request w
  end.

(** The requests handed to handlers, and the frames sent, oldest
    first. *)
Definition invocations (w : World) : list Event :=
  filter (fun ev => match ev with Invoked _ _ _ => true | _ => false end)
         (log (env w)).

Definition sent (w : World) : list Event :=
  filter (fun ev => match ev with Sent _ _ => true | _ => false end)
         (log (env w)).

End Server.

End ServiceServer.

(** ** test/TestMessage.h *)

Module protocol.

(** [class TestMessage]: [Id] and [Value] are [std::uint32_t],
    [MessageType] is [std::uint8_t]. *)
Record TestMessage := {
  id : Z;
  messageType : Z;
  value : Z
}.

Definition mkTestMessage (id messageType value : Z) : TestMessage :=
  {| id := utils.uint32 id; messageType := utils.uint8 messageType;
     value := utils.uint32 value |}.

Module messageTypes.
Definition REQUEST : Z := 2.
Definition RESPONSE : Z := 3.
End messageTypes.

Definition request (id : Z) : TestMessage :=
  mkTestMessage id messageTypes.REQUEST 0.

Definition response (id value : Z) : TestMessage :=
  mkTestMessage id messageTypes.RESPONSE value.

(** [Encoder<protocol::TestMessage>]: nine bytes, the two 32-bit
    fields least significant byte first. *)
Definition Encoder (message : TestMessage) : list byte :=
  let id := id message in
  let messageType := messageType message in
  let value := value message in
  [ byte.of_Z (utils.uint8 (Z.land id 255));
    byte.of_Z (utils.uint8 (Z.shiftr (Z.land id 65280) 8));
    byte.of_Z (utils.uint8 (Z.shiftr (Z.land id 16711680) 16));
    byte.of_Z (utils.uint8 (Z.shiftr (Z.land id 4278190080) 24));
    byte.of_Z (utils.uint8 messageType);
    byte.of_Z (utils.uint8 (Z.land value 255));
    byte.of_Z (utils.uint8 (Z.shiftr (Z.land value 65280) 8));
    byte.of_Z (utils.uint8 (Z.shiftr (Z.land value 16711680) 16));
    byte.of_Z (utils.uint8 (Z.shiftr (Z.land value 4278190080) 24)) ].

(** [operator[]] of [ConstVectorBuffer] and [ConstStreamBuffer]: the
    [char] at [pos + offset] of the underlying buffer, with no check
    against [numBytes]. Past the end of the buffer the source has no
    defined behaviour; the model reads a zero there. *)
Definition at_ (buffer : internal.ConstBuffer) (pos : nat) : byte :=
  nth (pos + Z.to_nat (internal.offset buffer)) (internal.buffer buffer) Byte.x00.

(** The conversion [(Id) c] of a [char] to [std::uint32_t]: where
    [char] is a signed type, bytes from 0x80 on are negative and the
    conversion adds [2^32]. *)
Definition charToUint32 (charIsSigned : bool) (c : byte) : Z :=
  let u := byte.unsigned c in
  utils.uint32 (if charIsSigned && (128 <=? u) then u - 256 else u).

(** The conversion [(MessageType) c] to [std::uint8_t]. *)
Definition charToUint8 (charIsSigned : bool) (c : byte) : Z :=
  let u := byte.unsigned c in
  utils.uint8 (if charIsSigned && (128 <=? u) then u - 256 else u).

(** [Decoder<protocol::TestMessage>] *)
Definition Decoder (charIsSigned : bool) (buffer : internal.ConstBuffer)
  : TestMessage :=
  let c := charToUint32 charIsSigned in
  let id := 0 in
  let messageType := 0 in
  let value := 0 in
  let id := utils.uint32 (id + c (at_ buffer 0)) in
  let id := utils.uint32 (id + utils.uint32 (Z.shiftl (c (at_ buffer 1)) 8)) in
  let id := utils.uint32 (id + utils.uint32 (Z.shiftl (c (at_ buffer 2)) 16)) in
  let id := utils.uint32 (id + utils.uint32 (Z.shiftl (c (at_ buffer 3)) 24)) in
  let messageType :=
    utils.uint8 (messageType + charToUint8 charIsSigned (at_ buffer 4)) in
  let value := utils.uint32 (value + c (at_ buffer 5)) in
  let value := utils.uint32 (value + utils.uint32 (Z.shiftl (c (at_ buffer 6)) 8)) in
  let value := utils.uint32 (value + utils.uint32 (Z.shiftl (c (at_ buffer 7)) 16)) in
  let value := utils.uint32 (value + utils.uint32 (Z.shiftl (c (at_ buffer 8)) 24)) in
  mkTestMessage id messageType value.

(** The byte of a 32-bit field at position [i], counted from the
    least significant. *)
Definition byteAt (x : Z) (i : Z) : Z := (x / 2 ^ (8 * i)) mod 256.

End protocol.
(** ** Error.h: properties *)

Section ErrorFacts.
Import error.

Lemma eqb_spec (a b : Error) : eqb a b = true <-> asionetCode a = asionetCode b.
Proof. unfold eqb. apply Z.eqb_eq. Qed.

Lemma neqb_spec (a b : Error) : neqb a b = true <-> asionetCode a <> asionetCode b.
Proof.
    unfold neqb, eqb. rewrite negb_true_iff. apply Z.eqb_neq.
Qed.

Lemma to_bool_spec (e : Error) : to_bool e = true <-> asionetCode e <> codes.success.
Proof.
    unfold to_bool, codes.success. rewrite negb_true_iff. apply Z.eqb_neq.
Qed.

End ErrorFacts.

(** C10. Two errors compare equal exactly when their [asionetCode]s are
    equal, whatever transport codes they carry; [!=] is the negation; an
    error converts to [true] exactly when its code is not [success];
    and [aborted] with any transport code attached equals the plain
    [aborted] constant. *)
Theorem Error_equality_ignores_boostCode :
  (forall a b : error.Error,
      (error.eqb a b = true <-> error.asionetCode a = error.asionetCode b) /\
      error.neqb a b = negb (error.eqb a b)) /\
  (forall (c1 c2 : error.ErrorCode) (t1 t2 : error.error_code),
      error.eqb {| error.asionetCode := c1; error.boostCode := t1 |}
                {| error.asionetCode := c2; error.boostCode := t2 |}
      = (c1 =? c2)) /\
  (forall e : error.Error,
      error.to_bool e = true <-> error.asionetCode e <> error.codes.success) /\
  (forall t : error.error_code,
      error.eqb {| error.asionetCode := error.codes.aborted; error.boostCode := t |}
                error.aborted = true).
Proof.
  repeat split.
  - apply eqb_spec.
  - apply eqb_spec.
  - apply to_bool_spec.
  - apply to_bool_spec.
Qed.

(** C3. The error handed to the wrapped handler by
    [timedAsyncOperation]: it is [aborted] if and only if the handle is
    no longer open at completion (and then it is the plain [aborted]
    constant); otherwise [failedOperation] carrying the transport code
    when that code is set; otherwise [success]. *)
Theorem timedAsyncOperation_error (isOpen : bool) (boostCode : error.error_code) :
  (error.eqb (closeable.completionError isOpen boostCode) error.aborted = true
     <-> isOpen = false) /\
  (isOpen = false ->
     closeable.completionError isOpen boostCode = error.aborted) /\
  (isOpen = true -> error.error_code_bool boostCode = true ->
     closeable.completionError isOpen boostCode
     = {| error.asionetCode := error.codes.failedOperation;
          error.boostCode := boostCode |}) /\
  (isOpen = true -> error.error_code_bool boostCode = false ->
     closeable.completionError isOpen boostCode = error.success).
Proof.
  unfold closeable.completionError.
  destruct isOpen; cbn [negb].
  - destruct (error.error_code_bool boostCode) eqn:E.
    + split; [split; discriminate|].
      split; [discriminate|]. split; [reflexivity | discriminate].
    + split; [split; discriminate|].
      split; [discriminate|]. split; [discriminate | reflexivity].
  - split; [split; reflexivity|].
    split; [reflexivity|]. split; discriminate.
Qed.

Lemma timedAsyncOperation_error_witness :
  closeable.completionError true {| error.value := 104 |}
  = {| error.asionetCode := error.codes.failedOperation;
       error.boostCode := {| error.value := 104 |} |} /\
  closeable.completionError false {| error.value := 125 |} = error.aborted.
Proof.
  split.
  - exact (proj1 (proj2 (proj2
             (timedAsyncOperation_error true {| error.value := 104 |})))
             eq_refl eq_refl).
  - exact (proj1 (proj2
             (timedAsyncOperation_error false {| error.value := 125 |})) eq_refl).
Defined.

(** ** Utils.h, Frame.h, Socket.h, Stream.h: the frame codec *)

Section CodecFacts.

Lemma fromBigEndian_4_app (h rest : list byte) :
    length h = 4%nat ->
    utils.fromBigEndian 4 32 (h ++ rest) = utils.fromBigEndian 4 32 h.
Proof.
    intros H.
    destruct h as [|b0 [|b1 [|b2 [|b3 [|b4 t]]]]]; try discriminate H.
    reflexivity.
Qed.

  (** Four bytes written by [toBigEndian<4>] are read back by
      [fromBigEndian<4, std::uint32_t>]. *)
Lemma fromBigEndian_toBigEndian (n : Z) :
    0 <= n < 2 ^ 32 ->
    utils.fromBigEndian 4 32 (utils.toBigEndian 4 n) = n.
Proof.
    intros Hn.
    unfold utils.fromBigEndian, utils.toBigEndian.
    cbn [utils.fromBigEndian_loop utils.toBigEndian_loop nth Z.of_nat
         Pos.of_succ_nat Pos.succ Z.mul Pos.mul Z.sub Z.add Z.opp Z.pos_sub
         Pos.pred_double Pos.add].
    rewrite !byte.unsigned_of_Z.
    unfold byte.wrap, utils.uint8, utils.wrap.
    change 255 with (Z.ones 8).
    rewrite !Z.land_ones by lia.
    rewrite !Z.shiftr_div_pow2 by lia.
    rewrite !Z.shiftl_mul_pow2 by lia.
    change (2 ^ 8) with 256. change (2 ^ 0) with 1.
    change (2 ^ 16) with 65536. change (2 ^ 24) with 16777216.
    change (2 ^ 32) with 4294967296 in *.
    Z.div_mod_to_equations. lia.
Qed.

Lemma receive_from_fits (v d : list byte) :
    (length d <= length v)%nat ->
    asio.receive_from v d = (d ++ skipn (length d) v, Z.of_nat (length d)).
Proof.
    intros H. unfold asio.receive_from.
    rewrite Nat.min_r by exact H. now rewrite firstn_all.
Qed.

Variable p : list byte.
Hypothesis Hlen : Z.of_nat (length p) < 2 ^ 32.

Lemma frameOf_numDataBytes :
    internal.numDataBytes (message.frameOf p) = Z.of_nat (length p).
Proof.
    unfold message.frameOf, internal.mkFrame; cbn [internal.numDataBytes].
    unfold utils.size_t, utils.uint32, utils.wrap.
    rewrite (Z.mod_small (Z.of_nat (length p)) (2 ^ 64)) by lia.
    apply Z.mod_small. lia.
Qed.

Lemma frameOf_getBuffers :
    internal.getBuffers (message.frameOf p)
    = utils.toBigEndian 4 (Z.of_nat (length p)) ++ p.
Proof.
    unfold internal.getBuffers. rewrite frameOf_numDataBytes.
    rewrite Nat2Z.id, firstn_all.
    unfold message.frameOf, internal.mkFrame; cbn [internal.header internal.data].
    f_equal. f_equal.
    change (utils.uint32 (utils.size_t (Z.of_nat (length p))))
      with (internal.numDataBytes (message.frameOf p)).
    apply frameOf_numDataBytes.
Qed.

Lemma frameOf_getSize :
    internal.getSize (message.frameOf p) = 4 + Z.of_nat (length p).
Proof.
    unfold internal.getSize. rewrite frameOf_numDataBytes.
    unfold utils.size_t, utils.wrap. apply Z.mod_small. lia.
Qed.

Lemma frameOf_wire_length :
    Z.of_nat (length (internal.getBuffers (message.frameOf p)))
    = 4 + Z.of_nat (length p).
Proof.
    rewrite frameOf_getBuffers, length_app.
    change (length (utils.toBigEndian 4 (Z.of_nat (length p)))) with 4%nat. lia.
Qed.

Lemma view_of_frame (h rest : list byte) :
    length h = 4%nat ->
    internal.bytes {| internal.buffer := h ++ p ++ rest;
                      internal.numBytes := Z.of_nat (length p);
                      internal.offset := internal.HEADER_SIZE |} = p.
Proof.
    intros Hh. unfold internal.bytes; cbn [internal.buffer internal.numBytes internal.offset].
    change (Z.to_nat internal.HEADER_SIZE) with 4%nat. rewrite <- Hh.
    rewrite skipn_app, skipn_all, Nat.sub_diag. cbn [skipn app].
    rewrite Nat2Z.id, firstn_app, firstn_all, Nat.sub_diag. cbn [firstn].
    apply app_nil_r.
Qed.

Lemma numDataBytesFromBuffer_frame (rest : list byte) :
    socket.numDataBytesFromBuffer
      (utils.toBigEndian 4 (Z.of_nat (length p)) ++ p ++ rest)
      (4 + Z.of_nat (length p))
    = Some (Z.of_nat (length p)).
Proof.
    unfold socket.numDataBytesFromBuffer.
    rewrite fromBigEndian_4_app by reflexivity.
    rewrite fromBigEndian_toBigEndian by lia.
    replace (4 + Z.of_nat (length p) <? 4) with false
      by (symmetry; apply Z.ltb_ge; lia).
    replace (utils.size_t (4 + Z.of_nat (length p))) with (4 + Z.of_nat (length p))
      by (unfold utils.size_t, utils.wrap; symmetry; apply Z.mod_small; lia).
    now rewrite Z.ltb_irrefl.
Qed.

Variable maxMessageSize : Z.
Hypothesis Hmax : Z.of_nat (length p) <= maxMessageSize.
Hypothesis Hcap : maxMessageSize + internal.HEADER_SIZE < 2 ^ 64.

Lemma capacity :
    utils.size_t (maxMessageSize + internal.HEADER_SIZE) = maxMessageSize + 4.
Proof.
    unfold utils.size_t, utils.wrap, internal.HEADER_SIZE in *.
    apply Z.mod_small. lia.
Qed.

Lemma datagram_round_trip :
    message.sendReceiveDatagram maxMessageSize p = (error.success, p).
Proof.
    unfold message.sendReceiveDatagram, message.asyncReceiveDatagram.
    rewrite frameOf_getBuffers.
    rewrite receive_from_fits.
    2:{ unfold message.receiverBuffer. rewrite capacity, repeat_length, length_app.
        change (length (utils.toBigEndian 4 (Z.of_nat (length p)))) with 4%nat. lia. }
    unfold socket.asyncReceiveFrom_completion.
    change (error.to_bool (closeable.completionError true error.error_code_default))
      with false. cbv iota.
    rewrite length_app, <- app_assoc.
    change (length (utils.toBigEndian 4 (Z.of_nat (length p)))) with 4%nat.
    replace (Z.of_nat (4 + length p)) with (4 + Z.of_nat (length p)) by lia.
    rewrite numDataBytesFromBuffer_frame.
    unfold message.asyncReceiveDatagram_handler, message.stringDecoder.
    rewrite view_of_frame by reflexivity.
    reflexivity.
Qed.

Lemma read_exactly_header (rest : list byte) (h : list byte) :
    length h = 4%nat ->
    asio.read_exactly internal.HEADER_SIZE (message.serviceBuffer maxMessageSize)
                      (h ++ rest)
    = ({| asio.contents := h;
          asio.max_size := maxMessageSize + 4 |},
       rest, error.error_code_default, 4).
Proof.
    intros Hh. unfold asio.read_exactly, message.serviceBuffer.
    cbn [asio.contents asio.max_size length app].
    rewrite capacity. unfold internal.HEADER_SIZE.
    replace (Z.to_nat (Z.min 4 (Z.max 0 (maxMessageSize + 4 - Z.of_nat 0)))) with (length h)
      by (rewrite Hh; lia).
    rewrite firstn_app, firstn_all, Nat.sub_diag, skipn_app, skipn_all, Nat.sub_diag.
    cbn [firstn skipn app]. rewrite app_nil_r.
    replace (length (h ++ rest) <? length h)%nat with false
      by (symmetry; apply Nat.ltb_ge; rewrite length_app; lia).
    rewrite Hh. reflexivity.
Qed.

Lemma read_exactly_payload (h : list byte) :
    length h = 4%nat ->
    asio.read_exactly (Z.of_nat (length p))
      {| asio.contents := h; asio.max_size := maxMessageSize + 4 |} p
    = ({| asio.contents := h ++ p; asio.max_size := maxMessageSize + 4 |},
       [], error.error_code_default, Z.of_nat (length p)).
Proof.
    intros Hh. unfold asio.read_exactly.
    cbn [asio.contents asio.max_size]. rewrite Hh.
    replace (Z.to_nat (Z.min (Z.of_nat (length p))
                             (Z.max 0 (maxMessageSize + 4 - Z.of_nat 4))))
      with (length p) by lia.
    rewrite firstn_all, skipn_all, Nat.ltb_irrefl. reflexivity.
Qed.

Lemma stream_round_trip :
    message.sendReceiveStream maxMessageSize p = (error.success, p).
Proof.
    unfold message.sendReceiveStream, message.asyncReceive, stream.asyncRead.
    rewrite frameOf_getBuffers.
    rewrite read_exactly_header by reflexivity.
    change (error.to_bool (closeable.completionError true error.error_code_default))
      with false.
    cbv iota. rewrite Z.eqb_refl. cbn [negb].
    unfold stream.numDataBytesFromBuffer. cbn [asio.contents].
    change (firstn (Z.to_nat internal.HEADER_SIZE)
                   (utils.toBigEndian 4 (Z.of_nat (length p))))
      with (utils.toBigEndian 4 (Z.of_nat (length p))).
    rewrite fromBigEndian_toBigEndian by lia.
    destruct (Z.of_nat (length p) =? 0) eqn:E.
    - apply Z.eqb_eq in E.
      assert (p = []) by (destruct p; [reflexivity | cbn in E; lia]).
      subst p. reflexivity.
    - rewrite read_exactly_payload by reflexivity.
      unfold stream.asyncRead_data_completion.
      change (error.to_bool (closeable.completionError true error.error_code_default))
        with false.
      cbv iota. rewrite Z.eqb_refl. cbn [negb].
      unfold message.asyncReceive_handler, message.stringDecoder.
      cbn [asio.contents fst].
      replace (utils.toBigEndian 4 (Z.of_nat (length p)) ++ p)
        with (utils.toBigEndian 4 (Z.of_nat (length p)) ++ p ++ [])
        by now rewrite app_nil_r.
      rewrite view_of_frame by reflexivity. reflexivity.
Qed.

End CodecFacts.

(** C5 (amended). A payload [p] with [len p <= maxMessageSize] and
    [len p < 2^32], sent to an endpoint whose buffer size
    [maxMessageSize + HEADER_SIZE] does not exceed the range of
    [std::size_t], is decoded to exactly [p], over a datagram and over
    a stream; [fromBigEndian<4, uint32>] inverts [toBigEndian<4>] below
    [2^32]; and the frame is the 4-byte big-endian length followed by
    the payload, [4 + len p] bytes in all. *)
Theorem frame_round_trip (maxMessageSize : Z) (p : list byte) :
  Z.of_nat (length p) <= maxMessageSize ->
  Z.of_nat (length p) < 2 ^ 32 ->
  maxMessageSize + internal.HEADER_SIZE < 2 ^ 64 ->
  message.sendReceiveDatagram maxMessageSize p = (error.success, p) /\
  message.sendReceiveStream maxMessageSize p = (error.success, p) /\
  (forall n, 0 <= n < 2 ^ 32 ->
     utils.fromBigEndian 4 32 (utils.toBigEndian 4 n) = n) /\
  internal.getBuffers (message.frameOf p)
    = utils.toBigEndian 4 (Z.of_nat (length p)) ++ p /\
  internal.getSize (message.frameOf p) = 4 + Z.of_nat (length p) /\
  Z.of_nat (length (internal.getBuffers (message.frameOf p)))
    = 4 + Z.of_nat (length p).
Proof.
  intros Hmax Hlen Hcap.
  split; [apply datagram_round_trip; assumption|].
  split; [apply stream_round_trip; assumption|].
  split; [exact fromBigEndian_toBigEndian|].
  split; [apply frameOf_getBuffers; assumption|].
  split; [apply frameOf_getSize; assumption|].
  apply frameOf_wire_length; assumption.
Qed.

Lemma frame_round_trip_witness :
  message.sendReceiveDatagram 512 [Byte.x41; Byte.x42; Byte.x43]
  = (error.success, [Byte.x41; Byte.x42; Byte.x43]).
Proof.
  apply (frame_round_trip 512 [Byte.x41; Byte.x42; Byte.x43]);
    [vm_compute; discriminate | reflexivity | reflexivity].
Defined.

(** C5 as stated fails where the buffer size wraps: a receiver
    configured with [maxMessageSize = 2^64 - 1] allocates
    [(2^64 - 1 + 4) mod 2^64 = 3] bytes, and the one-byte payload,
    within both bounds of the claim, is reported as [invalidFrame]. *)
Lemma frame_round_trip_buffer_wraps :
  Z.of_nat (length [Byte.x41]) <= 2 ^ 64 - 1 /\
  Z.of_nat (length [Byte.x41]) < 2 ^ 32 /\
  length (message.receiverBuffer (2 ^ 64 - 1)) = 3%nat /\
  message.sendReceiveDatagram (2 ^ 64 - 1) [Byte.x41] = (error.invalidFrame, []) /\
  message.sendReceiveStream (2 ^ 64 - 1) [Byte.x41] = (error.invalidFrame, []) /\
  message.sendReceiveDatagram (2 ^ 64 - 1) [Byte.x41] <> (error.success, [Byte.x41]).
Proof.
  split; [vm_compute; discriminate|].
  split; [reflexivity|].
  split; [vm_compute; reflexivity|].
  split; [vm_compute; reflexivity|].
  split; [vm_compute; reflexivity|].
  intros H. vm_compute in H. discriminate H.
Qed.

(** ** Stream.h, Socket.h: the completion of a framed write *)

Lemma write_completions_agree (frame : internal.Frame) (e : error.Error) (n : Z) :
  socket.asyncSendTo_completion frame e n = stream.asyncWrite_completion frame e n.
Proof. reflexivity. Qed.

(** C6 (amended). When fewer bytes than the frame's size were
    transferred, the handler of [stream::asyncWrite] and of
    [socket::asyncSendTo] receives [failedOperation]; otherwise it
    receives the error computed by the timed-operation wrapper, which is
    [success] exactly when the handle is still open and the transport
    reported no error. *)
Theorem framed_write_completion
        (frame : internal.Frame) (isOpen : bool) (boostCode : error.error_code)
        (numBytesTransferred : Z) :
  let error := closeable.completionError isOpen boostCode in
  (numBytesTransferred < internal.getSize frame ->
     stream.asyncWrite_completion frame error numBytesTransferred
       = error.failedOperation /\
     socket.asyncSendTo_completion frame error numBytesTransferred
       = error.failedOperation) /\
  (internal.getSize frame <= numBytesTransferred ->
     stream.asyncWrite_completion frame error numBytesTransferred = error /\
     socket.asyncSendTo_completion frame error numBytesTransferred = error /\
     (error = error.success <->
        isOpen = true /\ error.error_code_bool boostCode = false)).
Proof.
  intros error. split; intros Hn.
  - unfold stream.asyncWrite_completion, socket.asyncSendTo_completion.
    apply Z.ltb_lt in Hn. rewrite Hn. split; reflexivity.
  - unfold stream.asyncWrite_completion, socket.asyncSendTo_completion.
    apply Z.ltb_ge in Hn. rewrite Hn.
    split; [reflexivity | split; [reflexivity|]]. split.
    + intros He. subst error. unfold closeable.completionError in He.
      destruct isOpen; cbn in He; [|discriminate He].
      destruct (error.error_code_bool boostCode); [discriminate He | auto].
    + intros [-> Hb]. subst error. unfold closeable.completionError.
      cbn. rewrite Hb. reflexivity.
Qed.

Lemma framed_write_completion_witness :
  stream.asyncWrite_completion (message.frameOf [Byte.x41])
    (closeable.completionError true error.error_code_default) 3
  = error.failedOperation /\
  stream.asyncWrite_completion (message.frameOf [Byte.x41])
    (closeable.completionError true error.error_code_default) 5
  = error.success.
Proof.
  split.
  - refine (proj1 (proj1 (framed_write_completion (message.frameOf [Byte.x41]) true
                            error.error_code_default 3) _)).
    reflexivity.
  - refine (proj1 (proj2 (framed_write_completion (message.frameOf [Byte.x41]) true
                            error.error_code_default 5) _)).
    vm_compute. discriminate.
Defined.

(** C6 as stated fails: the whole frame of a one-byte payload (5 bytes)
    was transferred, yet the handle was closed before the completion
    ran; the handler receives [aborted], not [success]. *)
Lemma framed_write_full_transfer_not_success :
  let frame := message.frameOf [Byte.x41] in
  let error := closeable.completionError false error.error_code_default in
  internal.getSize frame = 5 /\
  stream.asyncWrite_completion frame error 5 = error.aborted /\
  socket.asyncSendTo_completion frame error 5 = error.aborted /\
  error.eqb (stream.asyncWrite_completion frame error 5) error.success = false.
Proof. repeat split. Qed.

(** ** AsyncOperationManager.h: properties *)

Section ManagerFacts.
Import manager.
Context {C : Type -> Type} `{PendingOperationContainer C}.
Context {Op Env : Type}.
Variable invoke : Op -> Env -> Env.
Variable cancelingOperation : Env -> Env.

Lemma startOperation_idle (op : Op) (w : World C Op Env) :
    running (mgr w) = false ->
    startOperation invoke cancelingOperation op w
    = {| mgr := {| pendingOperations := pendingOperations (mgr w);
                   running := true;
                   canceled := canceled (mgr w) |};
         env := invoke op (env w) |}.
Proof.
    intros Hr. unfold startOperation. rewrite Hr. reflexivity.
Qed.

Lemma startOperation_running (op : Op) (w : World C Op Env) :
    running (mgr w) = true ->
    startOperation invoke cancelingOperation op w
    = {| mgr := {| pendingOperations :=
                     pushPendingOperation op (pendingOperations (mgr w));
                   running := true;
                   canceled := canceled (mgr w) |};
         env := if shouldCancel (pendingOperations (mgr w))
                then cancelingOperation (env w) else env w |}.
Proof.
    intros Hr. unfold startOperation. rewrite Hr. cbn [negb].
    destruct (shouldCancel (pendingOperations (mgr w)));
      unfold setPending, onEnv; cbn; rewrite ?Hr; reflexivity.
Qed.

Lemma startOperation_canceled (op : Op) (w : World C Op Env) :
    canceled (mgr (startOperation invoke cancelingOperation op w))
    = canceled (mgr w).
Proof.
    destruct (running (mgr w)) eqn:Hr.
    - now rewrite startOperation_running.
    - now rewrite startOperation_idle.
Qed.

Lemma cancelOperation_canceled (w : World C Op Env) :
    canceled (mgr (cancelOperation cancelingOperation w)) = true.
Proof. reflexivity. Qed.

End ManagerFacts.

(** C1. [startOperation] on an idle manager sets [running] and invokes
    the operation at once, the pending container untouched; on a
    running manager it invokes [cancelingOperation] exactly when the
    container's [shouldCancel] holds, pushes the operation record, and
    leaves [running] set. *)
Theorem startOperation_spec
        {C : Type -> Type} `{manager.PendingOperationContainer C} {Op Env : Type}
        (invoke : Op -> Env -> Env) (cancelingOperation : Env -> Env)
        (op : Op) (w : manager.World C Op Env) :
  (manager.running (manager.mgr w) = false ->
     manager.startOperation invoke cancelingOperation op w
     = {| manager.mgr :=
            {| manager.pendingOperations := manager.pendingOperations (manager.mgr w);
               manager.running := true;
               manager.canceled := manager.canceled (manager.mgr w) |};
          manager.env := invoke op (manager.env w) |}) /\
  (manager.running (manager.mgr w) = true ->
     manager.startOperation invoke cancelingOperation op w
     = {| manager.mgr :=
            {| manager.pendingOperations :=
                 manager.pushPendingOperation op
                   (manager.pendingOperations (manager.mgr w));
               manager.running := true;
               manager.canceled := manager.canceled (manager.mgr w) |};
          manager.env :=
            if manager.shouldCancel (manager.pendingOperations (manager.mgr w))
            then cancelingOperation (manager.env w)
            else manager.env w |}).
Proof.
  split.
  - apply startOperation_idle.
  - apply startOperation_running.
Qed.

Lemma startOperation_spec_witness :
  let w := Timer.startTimeout 10 1%nat Timer.create in
  manager.running (manager.mgr w) = true /\
  Timer.startTimeout 20 2%nat w
  = {| manager.mgr :=
         {| manager.pendingOperations := Some (Timer.TimeoutOperation 20 2%nat);
            manager.running := true;
            manager.canceled := false |};
       manager.env := Timer.cancelOperation (manager.env w) |}.
Proof.
  split; [reflexivity|].
  refine (proj2 (startOperation_spec Timer.invoke Timer.cancelOperation
                   (Timer.TimeoutOperation 20 2%nat)
                   (Timer.startTimeout 10 1%nat Timer.create)) _).
  reflexivity.
Defined.

(** ** PendingOperationQueue: first in, first out *)

Section QueueFacts.
Import manager.
Context {Op Env : Type}.
Variable invoke : Op -> Env -> Env.
Variable cancelingOperation : Env -> Env.

Local Abbreviation World := (World PendingOperationQueue Op Env).

Lemma startOperations_running (ops : list Op) : forall w : World,
    running (mgr w) = true ->
    startOperations invoke cancelingOperation ops w
    = {| mgr := {| pendingOperations := pendingOperations (mgr w) ++ ops;
                   running := true;
                   canceled := canceled (mgr w) |};
         env := env w |}.
Proof.
    induction ops as [|op ops IH]; intros w Hr.
    - destruct w as [[q r c] e]; cbn in *. subst r. now rewrite app_nil_r.
    - unfold startOperations in *. cbn [fold_left].
      rewrite IH.
      + rewrite startOperation_running by exact Hr. cbn.
        now rewrite <- app_assoc.
      + now rewrite startOperation_running.
Qed.

Lemma finishOperation_queue (w : World) :
    finishOperation invoke w
    = match pendingOperations (mgr w) with
      | [] => {| mgr := {| pendingOperations := []; running := false;
                           canceled := false |};
                 env := env w |}
      | op :: rest => {| mgr := {| pendingOperations := rest;
                                   running := running (mgr w);
                                   canceled := false |};
                         env := invoke op (env w) |}
      end.
Proof.
    destruct w as [[q r c] e]. unfold finishOperation; cbn.
    destruct q; reflexivity.
Qed.

Lemma finishOperations_queue (k : nat) : forall w : World,
    running (mgr w) = true ->
    let q := pendingOperations (mgr w) in
    let wk := finishOperations invoke k w in
    env wk = fold_left (fun e op => invoke op e) (firstn k q) (env w) /\
    pendingOperations (mgr wk) = skipn k q /\
    running (mgr wk) = (k <=? length q)%nat.
Proof.
    induction k as [|k IH]; intros w Hr; cbn zeta.
    - cbn. auto.
    - cbn [finishOperations]. rewrite finishOperation_queue.
      destruct (pendingOperations (mgr w)) as [|op rest] eqn:Hq.
      + cbn [firstn skipn fold_left length Nat.leb].
        clear IH. induction k as [|k IHk]; [cbn; auto|].
        cbn [finishOperations]. rewrite finishOperation_queue. cbn. exact IHk.
      + specialize (IH {| mgr := {| pendingOperations := rest;
                                    running := running (mgr w);
                                    canceled := false |};
                          env := invoke op (env w) |} Hr).
        cbn in IH. cbn [firstn skipn fold_left length Nat.leb]. exact IH.
Qed.

End QueueFacts.

(** C2. On a manager with a [PendingOperationQueue], operations started
    while an operation is running are queued behind those already
    pending, and [k] successive calls of [finishOperation] invoke
    exactly the first [k] queued records, oldest first, and leave the
    remaining ones queued: every record is invoked once, at its
    position, and none after the queue is drained. *)
Theorem PendingOperationQueue_fifo
        {Op Env : Type} (invoke : Op -> Env -> Env) (cancelingOperation : Env -> Env)
        (w : manager.World manager.PendingOperationQueue Op Env)
        (ops : list Op) (k : nat) :
  manager.running (manager.mgr w) = true ->
  let queued := manager.pendingOperations (manager.mgr w) ++ ops in
  let w1 := manager.startOperations invoke cancelingOperation ops w in
  let wk := manager.finishOperations invoke k w1 in
  manager.pendingOperations (manager.mgr w1) = queued /\
  manager.env w1 = manager.env w /\
  manager.env wk
    = fold_left (fun e op => invoke op e) (firstn k queued) (manager.env w) /\
  manager.pendingOperations (manager.mgr wk) = skipn k queued /\
  manager.running (manager.mgr wk) = (k <=? length queued)%nat.
Proof.
  intros Hr queued w1 wk.
  assert (H1 : w1 = {| manager.mgr :=
                         {| manager.pendingOperations := queued;
                            manager.running := true;
                            manager.canceled := manager.canceled (manager.mgr w) |};
                       manager.env := manager.env w |})
    by (apply startOperations_running; exact Hr).
  split; [rewrite H1; reflexivity|].
  split; [rewrite H1; reflexivity|].
  pose proof (finishOperations_queue invoke k w1) as Hk.
  rewrite H1 in Hk. specialize (Hk eq_refl). cbn in Hk.
  subst wk. rewrite H1. exact Hk.
Qed.

Lemma PendingOperationQueue_fifo_witness :
  let invoke := fun (op : nat) (dispatched : list nat) => dispatched ++ [op] in
  let w := manager.startOperation invoke (fun e => e) 1%nat (manager.initial []) in
  let w1 := manager.startOperations invoke (fun e => e) [2; 3; 4]%nat w in
  manager.env (manager.finishOperations invoke 2 w1) = [1; 2; 3]%nat /\
  manager.pendingOperations (manager.mgr (manager.finishOperations invoke 2 w1))
  = [4]%nat.
Proof.
  intros invoke w w1.
  pose proof (PendingOperationQueue_fifo invoke (fun e => e) w [2; 3; 4]%nat 2
                eq_refl) as H.
  split; [exact (proj1 (proj2 (proj2 H))) | exact (proj1 (proj2 (proj2 (proj2 H))))].
Defined.

(** ** ServiceClient.h: a request that cannot be encoded *)

Section ClientEncoding.
Import manager.
Context {RequestMessage ResponseMessage : Type}.
Variable encodeRequest : RequestMessage -> option (list byte).
Variable noResponse : ResponseMessage.
Variable maxMessageSize : Z.
Variable user : HandlerId -> list (@ServiceClient.Event ResponseMessage)
                -> list (@ServiceClient.Call RequestMessage).

Local Abbreviation World :=
  (World PendingOperationQueue ServiceClient.Op (@ServiceClient.Env ResponseMessage)).
Local Abbreviation asyncCall :=
  (ServiceClient.asyncCall encodeRequest maxMessageSize).
Local Abbreviation runPosted :=
  (ServiceClient.runPosted encodeRequest noResponse maxMessageSize user).
Local Abbreviation invokeHandler :=
  (ServiceClient.invokeHandler encodeRequest maxMessageSize user).

Lemma asyncCall_encoding_fails request target timeout handler (w : World) :
  encodeRequest request = None ->
  asyncCall request target timeout handler w
  = {| mgr := mgr w;
       env := {| ServiceClient.now := ServiceClient.now (env w);
                 ServiceClient.socketOpen := ServiceClient.socketOpen (env w);
                 ServiceClient.outstanding := ServiceClient.outstanding (env w);
                 ServiceClient.posted := ServiceClient.posted (env w) ++ [handler];
                 ServiceClient.log := ServiceClient.log (env w) |} |}.
Proof.
  intros He. unfold ServiceClient.asyncCall, ServiceClient.encode.
  rewrite He. reflexivity.
Qed.

Lemma runPosted_after_encoding_failure request target timeout handler (w : World) :
  encodeRequest request = None ->
  ServiceClient.posted (env w) = [] ->
  runPosted (asyncCall request target timeout handler w)
  = invokeHandler handler error.encoding noResponse w.
Proof.
  intros He Hp. rewrite asyncCall_encoding_fails by exact He.
  destruct w as [m [n s o p l]]. cbn in Hp. subst p.
  reflexivity.
Qed.

(** C7. When the request cannot be encoded, [asyncCall] (either
    overload) leaves the manager as it was, submits nothing to the
    socket and invokes no handler: it only appends to the context's
    posted tasks the task that invokes the call handler with
    [error::encoding] and a default-constructed response, which runs
    when the context reaches it. *)
Theorem asyncCall_encoding_failure_is_posted
        (request : RequestMessage) (target : ServiceClient.Target)
        (timeout : Duration) (handler : HandlerId) (w : World) :
  encodeRequest request = None ->
  let w' := asyncCall request target timeout handler w in
  mgr w' = mgr w /\
  ServiceClient.log (env w') = ServiceClient.log (env w) /\
  ServiceClient.outstanding (env w') = ServiceClient.outstanding (env w) /\
  ServiceClient.socketOpen (env w') = ServiceClient.socketOpen (env w) /\
  ServiceClient.posted (env w') = ServiceClient.posted (env w) ++ [handler] /\
  (ServiceClient.posted (env w) = [] ->
   runPosted w' = invokeHandler handler error.encoding noResponse w).
Proof.
  intros He w'.
  assert (Hw : w' = asyncCall request target timeout handler w) by reflexivity.
  rewrite asyncCall_encoding_fails in Hw by exact He.
  rewrite Hw. cbn.
  repeat split.
  intros Hp. rewrite <- (asyncCall_encoding_fails request target timeout handler w He).
  apply runPosted_after_encoding_failure; assumption.
Qed.

End ClientEncoding.

Lemma asyncCall_encoding_failure_is_posted_witness :
  let encodeRequest := fun m : list byte =>
                         match m with [] => None | _ => Some m end in
  let w := ServiceClient.asyncCall encodeRequest 512 []
             (ServiceClient.ByHost [Byte.x61] 10001) 1000 7%nat
             (@ServiceClient.create (list byte)) in
  manager.mgr w = manager.mgr (@ServiceClient.create (list byte)) /\
  ServiceClient.posted (manager.env w) = [7%nat].
Proof.
  intros encodeRequest w.
  pose proof (asyncCall_encoding_failure_is_posted encodeRequest [] 512
                (fun _ _ => []) []
                (ServiceClient.ByHost [Byte.x61] 10001) 1000 7%nat
                (@ServiceClient.create (list byte)) eq_refl) as H.
  split; [exact (proj1 H) | exact (proj1 (proj2 (proj2 (proj2 (proj2 H)))))].
Defined.

(** ** DatagramReceiver.h: properties *)

Section ReceiverFacts.
Import manager.
Context {Message : Type}.
Variable decode : internal.ConstBuffer -> option Message.
Variable defaultMessage : Message.
Variable user : HandlerId -> list (@DatagramReceiver.Event Message)
                -> list DatagramReceiver.Call.

Local Abbreviation World :=
  (World PendingOperationReplacer DatagramReceiver.Op (@DatagramReceiver.Env Message)).
Local Abbreviation runCall := (@DatagramReceiver.runCall Message).
Local Abbreviation cancel := (@DatagramReceiver.cancel Message).
Local Abbreviation finish := (@DatagramReceiver.finish Message).
Local Abbreviation invocations := (@DatagramReceiver.invocations Message).
Local Abbreviation receiveCompleted :=
  (DatagramReceiver.receiveCompleted decode defaultMessage user).
Local Abbreviation receiveHandler := (DatagramReceiver.receiveHandler user).
Local Abbreviation invokeHandler := (DatagramReceiver.invokeHandler user).

Local Abbreviation receiver_extends := (@DatagramReceiver.extends Message).

Lemma receiver_extends_refl (w : World) : receiver_extends w w.
Proof.
  repeat split; auto. exists []. now rewrite app_nil_r.
Qed.

Lemma receiver_extends_trans (w1 w2 w3 : World) :
  receiver_extends w1 w2 -> receiver_extends w2 w3 -> receiver_extends w1 w3.
Proof.
  intros (Hc1 & (m1 & Ho1) & Hi1) (Hc2 & (m2 & Ho2) & Hi2).
  repeat split; auto.
  - exists (m1 ++ m2). now rewrite Ho2, Ho1, app_assoc.
  - now rewrite Hi2.
Qed.

Lemma receiver_invocations_started (w : World) (op : DatagramReceiver.Op) :
  invocations (onEnv (DatagramReceiver.asyncReceiveOperation op) w) = invocations w.
Proof.
  destruct w as [m [s b o l]].
  unfold DatagramReceiver.invocations, DatagramReceiver.asyncReceiveOperation,
    DatagramReceiver.setupSocket, onEnv; cbn.
  destruct s; cbn; rewrite filter_app; cbn; apply app_nil_r.
Qed.

Lemma receiver_runCall_extends (w : World) (c : DatagramReceiver.Call) :
  receiver_extends w (runCall w c).
Proof.
  destruct w as [[p r cd] [s b o l]].
  destruct c as [timeout handler|]; cbn.
  - unfold DatagramReceiver.asyncReceive, startOperation; cbn.
    destruct r; cbn.
    + repeat split; auto. exists []. now rewrite app_nil_r.
    + repeat split; auto.
      * destruct s; cbn; eexists; reflexivity.
      * unfold DatagramReceiver.invocations; cbn.
        destruct s; cbn; rewrite filter_app; cbn; apply app_nil_r.
  - repeat split; auto. exists []. now rewrite app_nil_r.
Qed.

Lemma receiver_runCalls_extends (calls : list DatagramReceiver.Call) :
  forall w : World, receiver_extends w (fold_left runCall calls w).
Proof.
  induction calls as [|c calls IH]; intros w; cbn [fold_left].
  - apply receiver_extends_refl.
  - eapply receiver_extends_trans; [apply receiver_runCall_extends | apply IH].
Qed.

Lemma receiver_finish_invocations (w : World) :
  invocations (finish w) = invocations w.
Proof.
  destruct w as [[p r cd] [s b o l]].
  unfold DatagramReceiver.finish, finishOperation; cbn.
  destruct p as [op|]; cbn; [|reflexivity].
  unfold DatagramReceiver.invocations; cbn.
  destruct s; cbn; rewrite filter_app; cbn; apply app_nil_r.
Qed.

Lemma receiver_destroy_invocations (n : FinishedOperationNotifier) (w : World) :
  invocations (destroy DatagramReceiver.asyncReceiveOperation n w) = invocations w.
Proof.
  unfold destroy. destruct (enabled n); [apply receiver_finish_invocations | reflexivity].
Qed.

(** Once [canceled] is set, the completion lambda returns before it
    reaches the handler. *)
Lemma receiveHandler_canceled st error message senderEndpoint (w : World) :
  isCanceled w = true ->
  receiveHandler st error message senderEndpoint w
  = destroy DatagramReceiver.asyncReceiveOperation
      (DatagramReceiver.finishedNotifier st) w.
Proof.
  intros Hc. unfold DatagramReceiver.receiveHandler. now rewrite Hc.
Qed.

Lemma receiveCompleted_canceled boostCode datagram senderEndpoint (w : World) :
  isCanceled w = true ->
  invocations (receiveCompleted boostCode datagram senderEndpoint w) = invocations w.
Proof.
  intros Hc. unfold DatagramReceiver.receiveCompleted.
  destruct (DatagramReceiver.outstanding (env w)) as [|st rest] eqn:Ho; [reflexivity|].
  destruct (message.asyncReceiveDatagram decode defaultMessage
              (DatagramReceiver.socketOpen (env w))
              (DatagramReceiver.buffer (env w)) boostCode datagram)
    as [[e m] b].
  rewrite receiveHandler_canceled by exact Hc.
  rewrite receiver_destroy_invocations. reflexivity.
Qed.

(** A receive in flight when [cancel()] is called: whatever is called
    on the receiver afterwards, the completion finds [canceled] set
    and drops the handler. *)
Lemma receiver_cancel_drops_handler
      (w : World) (calls : list DatagramReceiver.Call)
      boostCode datagram senderEndpoint :
  let w2 := fold_left runCall calls (cancel w) in
  isCanceled w2 = true /\
  (exists more, DatagramReceiver.outstanding (env w2)
                = DatagramReceiver.outstanding (env w) ++ more) /\
  invocations (receiveCompleted boostCode datagram senderEndpoint w2)
  = invocations w2.
Proof.
  intros w2.
  destruct (receiver_runCalls_extends calls (cancel w)) as (Hc & Ho & _).
  assert (Hcan : isCanceled w2 = true) by (apply Hc; reflexivity).
  split; [exact Hcan|]. split; [exact Ho|].
  apply receiveCompleted_canceled. exact Hcan.
Qed.

End ReceiverFacts.

(** ** DatagramSender.h: properties *)

Section SenderFacts.
Import manager.
Context {Message : Type}.
Variable encode : Message -> option (list byte).
Variable user : HandlerId -> list DatagramSender.Event
                -> list (@DatagramSender.Call Message).

Local Abbreviation World :=
  (World PendingOperationQueue DatagramSender.Op DatagramSender.Env).
Local Abbreviation runCall := (DatagramSender.runCall encode).
Local Abbreviation sendCompleted := (DatagramSender.sendCompleted encode user).
Local Abbreviation sendHandler := (DatagramSender.sendHandler encode user).
Local Abbreviation invokeHandler := (DatagramSender.invokeHandler encode user).

Lemma sender_extends_refl (w : World) : DatagramSender.extends w w.
Proof.
  repeat split; auto. exists []. now rewrite app_nil_r.
Qed.

Lemma sender_extends_trans (w1 w2 w3 : World) :
  DatagramSender.extends w1 w2 -> DatagramSender.extends w2 w3 ->
  DatagramSender.extends w1 w3.
Proof.
  intros (Hr1 & Hs1 & (m1 & Ho1) & Hi1) (Hr2 & Hs2 & (m2 & Ho2) & Hi2).
  repeat split; auto.
  - exists (m1 ++ m2). now rewrite Ho2, Ho1, app_assoc.
  - now rewrite Hi2.
Qed.

Lemma sender_runCall_extends (w : World) (c : DatagramSender.Call) :
  DatagramSender.extends w (runCall w c).
Proof.
  destruct w as [[p r cd] [s o ps l]].
  destruct c as [message endpoint timeout handler|]; cbn.
  - unfold DatagramSender.asyncSend.
    destruct (encode message) as [data|]; cbn.
    + unfold startOperation; cbn. destruct r; cbn.
      * repeat split; auto. exists []. now rewrite app_nil_r.
      * repeat split; auto; try discriminate.
        -- destruct s; cbn; eexists; reflexivity.
        -- unfold DatagramSender.invocations; cbn.
           destruct s; cbn; rewrite filter_app; cbn; apply app_nil_r.
    + repeat split; auto. exists []. now rewrite app_nil_r.
  - repeat split; auto. exists []. now rewrite app_nil_r.
Qed.

Lemma sender_runCalls_extends (calls : list DatagramSender.Call) :
  forall w : World, DatagramSender.extends w (fold_left runCall calls w).
Proof.
  induction calls as [|c calls IH]; intros w; cbn [fold_left].
  - apply sender_extends_refl.
  - eapply sender_extends_trans; [apply sender_runCall_extends | apply IH].
Qed.

Lemma sender_finish_invocations (w : World) :
  DatagramSender.invocations (DatagramSender.finish w) = DatagramSender.invocations w.
Proof.
  destruct w as [[p r cd] [s o ps l]].
  unfold DatagramSender.finish, finishOperation; cbn.
  destruct p as [|op p]; cbn; [reflexivity|].
  unfold DatagramSender.invocations; cbn.
  destruct s; cbn; rewrite filter_app; cbn; apply app_nil_r.
Qed.

Lemma sender_invokeHandler_invocations h e (w : World) :
  DatagramSender.invocations (invokeHandler h e w)
  = DatagramSender.invocations w ++ [DatagramSender.Invoked h e].
Proof.
  unfold DatagramSender.invokeHandler.
  match goal with
  | |- DatagramSender.invocations (fold_left _ ?cs ?w1) = _ =>
      destruct (sender_runCalls_extends cs w1) as (_ & _ & _ & Hi); rewrite Hi
  end.
  unfold DatagramSender.invocations; cbn. rewrite filter_app. reflexivity.
Qed.

(** The completion lambda of a send never consults [canceled]: it
    notifies the manager and invokes the handler. *)
Lemma sendHandler_invokes st e (w : World) :
  sendHandler st e w
  = invokeHandler (DatagramSender.handler st) e (DatagramSender.finish w).
Proof. reflexivity. Qed.

Lemma sendHandler_invocations st e (w : World) :
  DatagramSender.invocations (sendHandler st e w)
  = DatagramSender.invocations w
    ++ [DatagramSender.Invoked (DatagramSender.handler st) e].
Proof.
  rewrite sendHandler_invokes, sender_invokeHandler_invocations,
    sender_finish_invocations. reflexivity.
Qed.

Lemma sendCompleted_invocations boostCode n st rest (w : World) :
  DatagramSender.outstanding (env w) = st :: rest ->
  DatagramSender.invocations (sendCompleted boostCode n w)
  = DatagramSender.invocations w
    ++ [DatagramSender.Invoked (DatagramSender.handler st)
          (socket.asyncSendTo_completion
             (message.frameOf (DatagramSender.data st))
             (closeable.completionError (DatagramSender.socketOpen (env w))
                                        boostCode)
             n)].
Proof.
  intros Ho. unfold DatagramSender.sendCompleted. rewrite Ho.
  rewrite sendHandler_invocations. reflexivity.
Qed.

(** A send in flight when [cancel()] is called: the socket is closed,
    and the completion, whatever was called on the sender in between,
    invokes the handler, with [failedOperation] when fewer bytes than
    the frame were transferred and with [aborted] otherwise. *)
Lemma sender_cancel_still_invokes
      (w : World) st rest (calls : list DatagramSender.Call) boostCode n :
  running (mgr w) = true ->
  DatagramSender.outstanding (env w) = st :: rest ->
  let w2 := fold_left runCall calls (DatagramSender.cancel w) in
  isCanceled (DatagramSender.cancel w) = true /\
  DatagramSender.invocations (sendCompleted boostCode n w2)
  = DatagramSender.invocations w2
    ++ [DatagramSender.Invoked (DatagramSender.handler st)
          (if n <? internal.getSize (message.frameOf (DatagramSender.data st))
           then error.failedOperation else error.aborted)].
Proof.
  intros Hr Ho w2. split; [reflexivity|].
  destruct (sender_runCalls_extends calls (DatagramSender.cancel w))
    as (_ & Hs & (more & Hom) & _).
  assert (Hclosed : DatagramSender.socketOpen (env w2) = false)
    by (apply Hs; [exact Hr | reflexivity]).
  assert (Ho2 : DatagramSender.outstanding (env w2) = st :: (rest ++ more)).
  { subst w2. rewrite Hom. cbn. rewrite Ho. reflexivity. }
  rewrite (sendCompleted_invocations boostCode n st (rest ++ more) w2 Ho2).
  rewrite Hclosed. reflexivity.
Qed.

End SenderFacts.

(** ** ServiceClient.h: the stages of a call *)

Section ClientFacts.
Import manager.
Context {RequestMessage ResponseMessage : Type}.
Variable encodeRequest : RequestMessage -> option (list byte).
Variable decodeResponse : internal.ConstBuffer -> option ResponseMessage.
Variable noResponse : ResponseMessage.
Variable maxMessageSize : Z.
Variable user : HandlerId -> list (@ServiceClient.Event ResponseMessage)
                -> list (@ServiceClient.Call RequestMessage).

Local Abbreviation World :=
  (World PendingOperationQueue ServiceClient.Op (@ServiceClient.Env ResponseMessage)).
Local Abbreviation runCall := (ServiceClient.runCall encodeRequest maxMessageSize).
Local Abbreviation invokeHandler :=
  (ServiceClient.invokeHandler encodeRequest maxMessageSize user).
Local Abbreviation exitStage :=
  (ServiceClient.exitStage encodeRequest maxMessageSize user).
Local Abbreviation finish := (@ServiceClient.finish ResponseMessage maxMessageSize).
Local Abbreviation completed :=
  (ServiceClient.completed encodeRequest decodeResponse noResponse maxMessageSize user).
Local Abbreviation invocations := (@ServiceClient.invocations ResponseMessage).
Local Abbreviation cancel := (@ServiceClient.cancel ResponseMessage).

Lemma client_extends_refl (w : World) : ServiceClient.extends w w.
Proof.
  repeat split; auto. exists []. now rewrite app_nil_r.
Qed.

Lemma client_extends_trans (w1 w2 w3 : World) :
  ServiceClient.extends w1 w2 -> ServiceClient.extends w2 w3 ->
  ServiceClient.extends w1 w3.
Proof.
  intros (Hr1 & Hs1 & (m1 & Ho1) & Hi1) (Hr2 & Hs2 & (m2 & Ho2) & Hi2).
  repeat split; auto.
  - exists (m1 ++ m2). now rewrite Ho2, Ho1, app_assoc.
  - now rewrite Hi2.
Qed.

Lemma client_started_invocations (op : ServiceClient.Op) (w w' : World) :
  env w' = ServiceClient.asyncCallOperation maxMessageSize op (env w) ->
  invocations w' = invocations w.
Proof.
  intros He. unfold ServiceClient.invocations. rewrite He.
  destruct (env w) as [n s o ps l]. destruct op as [d t to h].
  unfold ServiceClient.asyncCallOperation; cbn.
  destruct t; cbn; rewrite filter_app; cbn; apply app_nil_r.
Qed.

Lemma client_started_outstanding (op : ServiceClient.Op) (e : @ServiceClient.Env ResponseMessage) :
  exists more,
    ServiceClient.outstanding (ServiceClient.asyncCallOperation maxMessageSize op e)
    = ServiceClient.outstanding e ++ more.
Proof.
  destruct e as [n s o ps l]. destruct op as [d t to h].
  unfold ServiceClient.asyncCallOperation; cbn.
  destruct t; cbn; eexists; reflexivity.
Qed.

Lemma client_runCall_extends (w : World) (c : ServiceClient.Call) :
  ServiceClient.extends w (runCall w c).
Proof.
  destruct w as [[p r cd] e].
  destruct c as [request target timeout handler|]; cbn.
  - unfold ServiceClient.asyncCall, ServiceClient.encode.
    destruct (encodeRequest request) as [data|]; cbn.
    + unfold startOperation; cbn. destruct r; cbn.
      * repeat split; auto. exists []. now rewrite app_nil_r.
      * repeat split; auto; try discriminate.
        -- apply client_started_outstanding.
        -- eapply client_started_invocations. reflexivity.
    + destruct e; repeat split; auto. exists []. now rewrite app_nil_r.
  - destruct e; repeat split; auto. exists []. now rewrite app_nil_r.
Qed.

Lemma client_runCalls_extends (calls : list ServiceClient.Call) :
  forall w : World, ServiceClient.extends w (fold_left runCall calls w).
Proof.
  induction calls as [|c calls IH]; intros w; cbn [fold_left].
  - apply client_extends_refl.
  - eapply client_extends_trans; [apply client_runCall_extends | apply IH].
Qed.

Lemma client_finish_invocations (w : World) :
  invocations (finish w) = invocations w.
Proof.
  destruct w as [[p r cd] e].
  unfold ServiceClient.finish, finishOperation; cbn.
  destruct p as [|op p]; cbn; [reflexivity|].
  eapply client_started_invocations. reflexivity.
Qed.

Lemma client_invokeHandler_invocations h e r (w : World) :
  invocations (invokeHandler h e r w)
  = invocations w ++ [ServiceClient.Invoked h e r].
Proof.
  unfold ServiceClient.invokeHandler.
  match goal with
  | |- ServiceClient.invocations (fold_left _ ?cs ?w1) = _ =>
      destruct (client_runCalls_extends cs w1) as (_ & _ & _ & Hi); rewrite Hi
  end.
  destruct w as [m [n s o ps l]].
  unfold ServiceClient.invocations; cbn. rewrite filter_app. reflexivity.
Qed.

(** Every exit of a stage closes the socket, notifies the manager and
    then invokes the handler; none consults [canceled]. *)
Lemma exitStage_invokes st e r (w : World) :
  exitStage st e r w
  = invokeHandler (ServiceClient.handler st) e r
      (finish (onEnv (ServiceClient.setSocket false) w)).
Proof. reflexivity. Qed.

Lemma exitStage_invocations st e r (w : World) :
  invocations (exitStage st e r w)
  = invocations w ++ [ServiceClient.Invoked (ServiceClient.handler st) e r].
Proof.
  rewrite exitStage_invokes, client_invokeHandler_invocations,
    client_finish_invocations.
  destruct w as [m [n s o ps l]]. reflexivity.
Qed.

Lemma asyncRead_closed (sb : asio.streambuf) (wire : list byte) :
  fst (fst (stream.asyncRead false sb wire)) = error.aborted.
Proof.
  unfold stream.asyncRead.
  destruct (asio.read_exactly internal.HEADER_SIZE sb wire) as [[[sb1 wire1] ec1] n1].
  reflexivity.
Qed.

Lemma asyncReceive_closed (sb : asio.streambuf) (wire : list byte) :
  error.to_bool
    (fst (fst (message.asyncReceive decodeResponse noResponse false sb wire)))
  = true.
Proof.
  unfold message.asyncReceive.
  pose proof (asyncRead_closed sb wire) as H.
  destruct (stream.asyncRead false sb wire) as [[e cb] sb']. cbn in H. subst e.
  unfold message.asyncReceive_handler.
  destruct (decodeResponse cb); reflexivity.
Qed.

(** A stage completing on a closed socket exits the call: the handler
    is invoked, with an error. *)
Lemma completed_closed_invocations stage st rest c (w : World) :
  ServiceClient.outstanding (env w) = (stage, st) :: rest ->
  ServiceClient.socketOpen (env w) = false ->
  ServiceClient.onSocket stage c = true ->
  exists e r,
    error.to_bool e = true /\
    invocations (completed c w)
    = invocations w ++ [ServiceClient.Invoked (ServiceClient.handler st) e r].
Proof.
  intros Ho Hs Hm.
  destruct w as [m [n s o ps l]]. cbn in Ho, Hs. subst o s.
  unfold ServiceClient.completed; cbn [env ServiceClient.outstanding].
  destruct stage, c; try discriminate Hm; cbn [ServiceClient.socketOpen].
  - exists error.aborted, noResponse. split; [reflexivity|].
    change (closeable.completionError false boostCode) with error.aborted.
    unfold ServiceClient.connectHandler. cbn [error.to_bool error.aborted error.mk
      error.asionetCode error.codes.aborted Z.eqb negb].
    rewrite exitStage_invocations. reflexivity.
  - change (closeable.completionError false boostCode) with error.aborted.
    unfold stream.asyncWrite_completion.
    destruct (numBytesTransferred <? _).
    + exists error.failedOperation, noResponse. split; [reflexivity|].
      unfold ServiceClient.writeHandler. cbn [error.to_bool error.failedOperation
        error.mk error.asionetCode error.codes.failedOperation Z.eqb negb].
      rewrite exitStage_invocations. reflexivity.
    + exists error.aborted, noResponse. split; [reflexivity|].
      unfold ServiceClient.writeHandler. cbn [error.to_bool error.aborted error.mk
        error.asionetCode error.codes.aborted Z.eqb negb].
      rewrite exitStage_invocations. reflexivity.
  - pose proof (asyncReceive_closed (ServiceClient.buffer st) wire) as He.
    destruct (message.asyncReceive decodeResponse noResponse false
                (ServiceClient.buffer st) wire) as [[e r] sb].
    exists e, r. split; [exact He|].
    unfold ServiceClient.readHandler.
    rewrite exitStage_invocations. reflexivity.
Qed.

(** A call in flight when [cancel()] is called, at a stage that acts
    on the socket: the completion invokes the handler with an error,
    whatever was called on the client in between. *)
Lemma client_cancel_still_invokes
      (w : World) stage st rest (calls : list ServiceClient.Call) c :
  running (mgr w) = true ->
  ServiceClient.outstanding (env w) = (stage, st) :: rest ->
  ServiceClient.onSocket stage c = true ->
  let w2 := fold_left runCall calls (cancel w) in
  isCanceled (cancel w) = true /\
  exists e r,
    error.to_bool e = true /\
    invocations (completed c w2)
    = invocations w2 ++ [ServiceClient.Invoked (ServiceClient.handler st) e r].
Proof.
  intros Hr Ho Hm w2. split; [reflexivity|].
  destruct (client_runCalls_extends calls (cancel w))
    as (_ & Hs & (more & Hom) & _).
  assert (Hclosed : ServiceClient.socketOpen (env w2) = false).
  { apply Hs; [exact Hr|]. destruct w as [mm [n s o ps l]]. reflexivity. }
  assert (Ho2 : ServiceClient.outstanding (env w2) = (stage, st) :: (rest ++ more)).
  { subst w2. rewrite Hom. destruct w as [mm [n s o ps l]]. cbn in Ho |- *.
    rewrite Ho. reflexivity. }
  exact (completed_closed_invocations stage st (rest ++ more) c w2 Ho2 Hclosed Hm).
Qed.

End ClientFacts.

(** ** Cancellation and late completions *)

Section Cancellation.
Import manager.
Context {Datagram SentMessage RequestMessage ResponseMessage : Type}.
Variable decode : internal.ConstBuffer -> option Datagram.
Variable defaultMessage : Datagram.
Variable receiverUser : HandlerId -> list (@DatagramReceiver.Event Datagram)
                        -> list DatagramReceiver.Call.
Variable encode : SentMessage -> option (list byte).
Variable senderUser : HandlerId -> list DatagramSender.Event
                      -> list (@DatagramSender.Call SentMessage).
Variable encodeRequest : RequestMessage -> option (list byte).
Variable decodeResponse : internal.ConstBuffer -> option ResponseMessage.
Variable noResponse : ResponseMessage.
Variable maxMessageSize : Z.
Variable clientUser : HandlerId -> list (@ServiceClient.Event ResponseMessage)
                      -> list (@ServiceClient.Call RequestMessage).

(** C4 (amended). An operation is in flight when [cancel()] is called
    on its owner, and its completion arrives afterwards, other calls
    on the owner possibly in between. For a datagram receive the
    completion finds [canceled] set and the user's handler is not
    invoked. For a datagram send and for a service call (at a stage
    acting on the socket) the completion path does not consult
    [canceled]: the user's handler is invoked, once, with an error
    ([failedOperation] or [aborted] for the send). *)
Theorem cancel_then_late_completion :
  (forall (w : World PendingOperationReplacer DatagramReceiver.Op
                     (@DatagramReceiver.Env Datagram))
          (calls : list DatagramReceiver.Call) boostCode datagram senderEndpoint,
      let w2 := fold_left (@DatagramReceiver.runCall Datagram) calls
                          (DatagramReceiver.cancel w) in
      isCanceled w2 = true /\
      (exists more, DatagramReceiver.outstanding (env w2)
                    = DatagramReceiver.outstanding (env w) ++ more) /\
      DatagramReceiver.invocations
        (DatagramReceiver.receiveCompleted decode defaultMessage receiverUser
           boostCode datagram senderEndpoint w2)
      = DatagramReceiver.invocations w2) /\
  (forall (w : World PendingOperationQueue DatagramSender.Op DatagramSender.Env)
          st rest (calls : list DatagramSender.Call) boostCode n,
      running (mgr w) = true ->
      DatagramSender.outstanding (env w) = st :: rest ->
      let w2 := fold_left (DatagramSender.runCall encode) calls
                          (DatagramSender.cancel w) in
      isCanceled (DatagramSender.cancel w) = true /\
      DatagramSender.invocations
        (DatagramSender.sendCompleted encode senderUser boostCode n w2)
      = DatagramSender.invocations w2
        ++ [DatagramSender.Invoked (DatagramSender.handler st)
              (if n <? internal.getSize (message.frameOf (DatagramSender.data st))
               then error.failedOperation else error.aborted)]) /\
  (forall (w : World PendingOperationQueue ServiceClient.Op
                     (@ServiceClient.Env ResponseMessage))
          stage st rest (calls : list ServiceClient.Call) c,
      running (mgr w) = true ->
      ServiceClient.outstanding (env w) = (stage, st) :: rest ->
      ServiceClient.onSocket stage c = true ->
      let w2 := fold_left (ServiceClient.runCall encodeRequest maxMessageSize)
                          calls (ServiceClient.cancel w) in
      isCanceled (ServiceClient.cancel w) = true /\
      exists e r,
        error.to_bool e = true /\
        ServiceClient.invocations
          (ServiceClient.completed encodeRequest decodeResponse noResponse
             maxMessageSize clientUser c w2)
        = ServiceClient.invocations w2
          ++ [ServiceClient.Invoked (ServiceClient.handler st) e r]).
Proof.
  split; [|split].
  - intros w calls boostCode datagram senderEndpoint.
    apply receiver_cancel_drops_handler.
  - intros w st rest calls boostCode n Hr Ho.
    apply sender_cancel_still_invokes with (rest := rest); assumption.
  - intros w stage st rest calls c Hr Ho Hm.
    apply client_cancel_still_invokes with (stage := stage) (rest := rest);
      assumption.
Qed.

End Cancellation.

Lemma cancel_then_late_completion_witness :
  let encode := fun m : list byte => Some m in
  let senderUser := fun (_ : HandlerId) (_ : list DatagramSender.Event) =>
                      @nil (@DatagramSender.Call (list byte)) in
  let receiverUser := fun (_ : HandlerId)
                          (_ : list (@DatagramReceiver.Event (list byte))) =>
                        @nil DatagramReceiver.Call in
  let s := DatagramSender.asyncSend encode [Byte.x41] (2130706433, 10000) 1000
             7%nat DatagramSender.create in
  let r := DatagramReceiver.asyncReceive 1000 3%nat
             (@DatagramReceiver.create (list byte) 512) in
  DatagramSender.invocations
    (DatagramSender.sendCompleted encode senderUser operation_aborted 0
       (DatagramSender.cancel s))
  = [DatagramSender.Invoked 7%nat error.failedOperation] /\
  DatagramReceiver.invocations
    (DatagramReceiver.receiveCompleted message.stringDecoder [] receiverUser
       operation_aborted [] (0, 0) (DatagramReceiver.cancel r))
  = [].
Proof.
  intros encode senderUser receiverUser s r.
  pose proof (@cancel_then_late_completion (list byte) (list byte) (list byte)
                (list byte) message.stringDecoder [] receiverUser
                encode senderUser encode message.stringDecoder [] 512
                (fun _ _ => [])) as H.
  split.
  - exact (proj2 (proj1 (proj2 H) s _ [] [] operation_aborted 0 eq_refl eq_refl)).
  - exact (proj2 (proj2 (proj1 H r [] operation_aborted [] (0, 0)))).
Defined.

(** C4 as stated fails for a send and for a service call. A send is
    in flight, [cancel()] is called, and the completion arrives with
    [operation_aborted] and no byte transferred: the send handler is
    invoked, with [failedOperation]. A call is connecting, [cancel()]
    is called, and the connect completes with [operation_aborted]: the
    call handler is invoked, with [aborted]. In both, [canceled] was
    set when the completion ran. *)
Lemma cancel_does_not_silence_send_and_call :
  let encode := fun m : list byte => Some m in
  let senderUser := fun (_ : HandlerId) (_ : list DatagramSender.Event) =>
                      @nil (@DatagramSender.Call (list byte)) in
  let s0 := DatagramSender.asyncSend encode [Byte.x41] (2130706433, 10000) 1000
              7%nat DatagramSender.create in
  let s1 := DatagramSender.cancel s0 in
  let s2 := DatagramSender.sendCompleted encode senderUser operation_aborted 0 s1 in
  let clientUser := fun (_ : HandlerId) (_ : list (@ServiceClient.Event (list byte))) =>
                      @nil (@ServiceClient.Call (list byte)) in
  let c0 := ServiceClient.asyncCall encode 512 [Byte.x41]
              (ServiceClient.ByEndpoints [(2130706433, 10001)]) 1000 9%nat
              (@ServiceClient.create (list byte)) in
  let c1 := ServiceClient.cancel c0 in
  let c2 := ServiceClient.completed encode message.stringDecoder [] 512 clientUser
              (ServiceClient.ConnectDone operation_aborted) c1 in
  (length (DatagramSender.outstanding (manager.env s0)) = 1%nat /\
   manager.isCanceled s1 = true /\
   DatagramSender.invocations s1 = [] /\
   DatagramSender.invocations s2
   = [DatagramSender.Invoked 7%nat error.failedOperation]) /\
  (length (ServiceClient.outstanding (manager.env c0)) = 1%nat /\
   manager.isCanceled c1 = true /\
   ServiceClient.invocations c1 = [] /\
   ServiceClient.invocations c2
   = [ServiceClient.Invoked 9%nat error.aborted []]).
Proof.
  vm_compute. repeat split.
Qed.

(** ** Timer.h: properties *)

Section TimerFacts.
Import manager.
Variable user : HandlerId -> list Timer.Event -> list Timer.Call.

Local Abbreviation World := (World PendingOperationReplacer Timer.Op Timer.Env).

Lemma timer_extends_refl (w : World) : Timer.extends w w.
Proof. repeat split; auto. Qed.

Lemma timer_extends_trans (w1 w2 w3 : World) :
  Timer.extends w1 w2 -> Timer.extends w2 w3 -> Timer.extends w1 w3.
Proof.
  intros (Hc1 & Hr1 & Hs1 & Hi1) (Hc2 & Hr2 & Hs2 & Hi2).
  split; [auto | split; [| split; [auto | now rewrite Hi2]]].
  intros Hr. destruct (Hr1 Hr) as [Hr' He]. destruct (Hr2 Hr') as [Hr'' He'].
  split; [exact Hr'' | now rewrite He'].
Qed.

Lemma settled_abort k st (e : Timer.Env) m m' :
  Timer.settled k st {| mgr := m; env := e |} ->
  Timer.settled k st {| mgr := m'; env := Timer.timer_cancel e |}.
Proof.
  intros (s & rest & Hw & Hs). cbn in Hw.
  unfold Timer.settled; cbn. rewrite Hw; cbn.
  do 2 eexists. split; [reflexivity|].
  destruct s; cbn; congruence.
Qed.

Lemma settled_invoke k st (op : Timer.Op) (e : Timer.Env) m m' :
  Timer.settled k st {| mgr := m; env := e |} ->
  Timer.settled k st {| mgr := m'; env := Timer.invoke op e |}.
Proof.
  intros (s & rest & Hw & Hs). cbn in Hw.
  destruct e as [n x ws l]. cbn in Hw. subst ws.
  unfold Timer.settled.
  destruct op as [d h | d h]; cbn;
    (do 2 eexists; split; [reflexivity|]; destruct s; cbn; congruence).
Qed.

Lemma invocations_invoke (op : Timer.Op) (w w' : World) :
  env w' = Timer.invoke op (env w) ->
  Timer.invocations w' = Timer.invocations w.
Proof.
  intros He. unfold Timer.invocations. rewrite He.
  destruct (env w) as [n x ws l].
  destruct op; cbn; rewrite filter_app; cbn; apply app_nil_r.
Qed.

Lemma timer_startOperation_extends (op : Timer.Op) (w : World) :
  Timer.extends w (startOperation Timer.invoke Timer.cancelOperation op w).
Proof.
  destruct w as [[p r cd] e].
  unfold startOperation; cbn. destruct r; cbn.
  - split; [auto | split; [auto | split; [| reflexivity]]].
    intros k st Hs. eapply settled_abort. exact Hs.
  - split; [auto | split; [discriminate | split]].
    + intros k st Hs. eapply settled_invoke. exact Hs.
    + eapply invocations_invoke. reflexivity.
Qed.

Lemma timer_cancel_extends (w : World) : Timer.extends w (Timer.cancel w).
Proof.
  destruct w as [[p r cd] e].
  split; [auto | split; [auto | split; [| reflexivity]]].
  intros k st Hs. eapply settled_abort. exact Hs.
Qed.

Lemma timer_runCall_extends (w : World) (c : Timer.Call) :
  Timer.extends w (Timer.runCall w c).
Proof.
  destruct c; cbn.
  - apply timer_startOperation_extends.
  - apply timer_startOperation_extends.
  - apply timer_cancel_extends.
Qed.

Lemma timer_advance_extends (t : TimePoint) (w : World) :
  Timer.extends w (Timer.advance t w).
Proof.
  destruct w as [[p r cd] [n x ws l]].
  split; [auto | split; [auto | split; [| reflexivity]]].
  intros k st (s & rest & Hw & Hs). cbn in Hw. subst ws.
  unfold Timer.settled; cbn.
  do 2 eexists. split; [reflexivity|].
  destruct s; cbn; congruence.
Qed.

Lemma timer_step_extends (w : World) (s : Timer.Step) :
  Timer.extends w (Timer.step w s).
Proof.
  destruct s; [apply timer_runCall_extends | apply timer_advance_extends].
Qed.

Lemma timer_steps_extends (steps : list Timer.Step) :
  forall w : World, Timer.extends w (fold_left Timer.step steps w).
Proof.
  induction steps as [|s steps IH]; intros w; cbn [fold_left].
  - apply timer_extends_refl.
  - eapply timer_extends_trans; [apply timer_step_extends | apply IH].
Qed.

Lemma timer_runCalls_extends (calls : list Timer.Call) :
  forall w : World, Timer.extends w (fold_left Timer.runCall calls w).
Proof.
  induction calls as [|c calls IH]; intros w; cbn [fold_left].
  - apply timer_extends_refl.
  - eapply timer_extends_trans; [apply timer_runCall_extends | apply IH].
Qed.

Lemma timer_finish_invocations (w : World) :
  Timer.invocations (Timer.finish w) = Timer.invocations w.
Proof.
  destruct w as [[p r cd] e].
  unfold Timer.finish, finishOperation; cbn.
  destruct p as [op|]; cbn; [|reflexivity].
  eapply invocations_invoke. reflexivity.
Qed.

Lemma timer_destroy_invocations n (w : World) :
  Timer.invocations (destroy Timer.invoke n w) = Timer.invocations w.
Proof.
  unfold destroy. destruct (enabled n); [apply timer_finish_invocations | reflexivity].
Qed.

Lemma timer_invokeHandler_extends h (w : World) :
  running (mgr w) = true ->
  running (mgr (Timer.invokeHandler user h w)) = true /\
  Timer.expires_at (env (Timer.invokeHandler user h w)) = Timer.expires_at (env w) /\
  Timer.invocations (Timer.invokeHandler user h w)
  = Timer.invocations w ++ [Timer.Invoked h].
Proof.
  intros Hr. unfold Timer.invokeHandler.
  match goal with
  | |- context [fold_left _ ?cs ?w1] =>
      destruct (timer_runCalls_extends cs w1) as (_ & Hrun & _ & Hi);
      destruct (Hrun Hr) as [Hr' He]
  end.
  split; [exact Hr'|]. split; [exact He|].
  rewrite Hi. destruct w as [m [n x ws l]].
  unfold Timer.invocations; cbn. rewrite filter_app. reflexivity.
Qed.

(** Delivering a completed wait runs its lambda in the world without
    that wait. *)
Lemma deliver_settled k st (w : World) s rest :
  Timer.waits (env w) = {| Timer.kind := k; Timer.state := st; Timer.status := s |} :: rest ->
  s <> Timer.Pending ->
  Timer.deliver user w
  = match k with
    | Timer.TimeoutWait => Timer.timeoutLambda user st
    | _ => Timer.periodicLambda user st
    end (match s with Timer.Aborted => true | _ => false end) (Timer.dropHead w).
Proof.
  intros Hw Hs. unfold Timer.deliver, Timer.dropHead. rewrite Hw. cbn.
  destruct s; [contradiction | |]; destruct k; reflexivity.
Qed.

End TimerFacts.

(** ** Timer.h: one wait at a time *)

Section TimerInvariant.
Import manager.
Variable user : HandlerId -> list Timer.Event -> list Timer.Call.

Local Abbreviation World := (World PendingOperationReplacer Timer.Op Timer.Env).

Lemma inFlight_runCall (w : World) (c : Timer.Call) :
  Timer.inFlight w -> Timer.inFlight (Timer.runCall w c).
Proof.
  destruct w as [[p r cd] [n x ws l]]. intros [Hp Hw]. cbn in Hp, Hw.
  assert (Hstart : forall op,
             Timer.inFlight
               (startOperation Timer.invoke Timer.cancelOperation op
                  {| mgr := {| pendingOperations := p; running := r; canceled := cd |};
                     env := {| Timer.now := n; Timer.expires_at := x;
                               Timer.waits := ws; Timer.log := l |} |})).
  { intros op. unfold startOperation; cbn. destruct r; cbn.
    - split; [reflexivity|]. cbn.
      destruct Hw as [-> | [[y ->] _]]; [left; reflexivity|].
      right. split; [eexists; reflexivity | reflexivity].
    - assert (ws = []) as -> by (destruct Hw as [? | [_ ?]]; [assumption | discriminate]).
      split; [reflexivity|]. right.
      destruct op; cbn; (split; [eexists; reflexivity | reflexivity]). }
  destruct c; cbn; try apply Hstart.
  split; cbn; [congruence|].
  destruct Hw as [-> | [[y ->] Hr]]; [left; reflexivity|].
  right. split; [eexists; reflexivity | exact Hr].
Qed.

Lemma inFlight_runCalls (calls : list Timer.Call) :
  forall w : World, Timer.inFlight w -> Timer.inFlight (fold_left Timer.runCall calls w).
Proof.
  induction calls as [|c calls IH]; intros w Hw; cbn [fold_left]; [exact Hw|].
  apply IH, inFlight_runCall, Hw.
Qed.

(** While the lambda of a periodic chain runs, no wait is outstanding;
    the handler's calls leave it so. *)
Lemma between_waits_runCall (w : World) (c : Timer.Call) :
  running (mgr w) = true -> Timer.waits (env w) = [] ->
  running (mgr (Timer.runCall w c)) = true /\
  Timer.waits (env (Timer.runCall w c)) = [].
Proof.
  destruct w as [[p r cd] [n x ws l]]. cbn. intros -> ->.
  destruct c; cbn; auto.
Qed.

Lemma between_waits_runCalls (calls : list Timer.Call) :
  forall w : World,
    running (mgr w) = true -> Timer.waits (env w) = [] ->
    running (mgr (fold_left Timer.runCall calls w)) = true /\
    Timer.waits (env (fold_left Timer.runCall calls w)) = [].
Proof.
  induction calls as [|c calls IH]; intros w Hr Hw; cbn [fold_left]; [auto|].
  destruct (between_waits_runCall w c Hr Hw) as [Hr' Hw']. apply IH; assumption.
Qed.

Lemma inFlight_advance (t : TimePoint) (w : World) :
  Timer.inFlight w -> Timer.inFlight (Timer.advance t w).
Proof.
  destruct w as [[p r cd] [n x ws l]]. intros [Hp Hw]. cbn in Hp, Hw.
  split; cbn; [exact Hp|].
  destruct Hw as [-> | [[y ->] Hr]]; [left; reflexivity|].
  right. split; [eexists; reflexivity | exact Hr].
Qed.

Lemma inFlight_finish (w : World) :
  (pendingOperations (mgr w) <> None -> running (mgr w) = true) ->
  Timer.waits (env w) = [] ->
  Timer.inFlight (Timer.finish w).
Proof.
  destruct w as [[p r cd] [n x ws l]]. cbn. intros Hp ->.
  unfold Timer.finish, finishOperation; cbn.
  destruct p as [op|]; cbn.
  - rewrite Hp by discriminate.
    split; cbn; [reflexivity|]. right.
    destruct op; cbn; (split; [eexists; reflexivity | reflexivity]).
  - split; cbn; [congruence | left; reflexivity].
Qed.

Lemma inFlight_destroy n (w : World) :
  running (mgr w) = true ->
  Timer.waits (env w) = [] ->
  Timer.inFlight (destroy Timer.invoke n w).
Proof.
  intros Hr Hw. unfold destroy. destruct (enabled n).
  - apply inFlight_finish; auto.
  - split; [auto | left; exact Hw].
Qed.

Lemma inFlight_invokeHandler h (w : World) :
  Timer.inFlight w -> Timer.inFlight (Timer.invokeHandler user h w).
Proof.
  intros Hw. unfold Timer.invokeHandler. apply inFlight_runCalls.
  destruct w as [[p r cd] [n x ws l]]. exact Hw.
Qed.

Lemma between_waits_invokeHandler h (w : World) :
  running (mgr w) = true -> Timer.waits (env w) = [] ->
  running (mgr (Timer.invokeHandler user h w)) = true /\
  Timer.waits (env (Timer.invokeHandler user h w)) = [].
Proof.
  intros Hr Hw. unfold Timer.invokeHandler. apply between_waits_runCalls.
  - destruct w as [[p r cd] [n x ws l]]. exact Hr.
  - destruct w as [[p r cd] [n x ws l]]. exact Hw.
Qed.

Lemma inFlight_timeoutLambda st error (w : World) :
  running (mgr w) = true -> Timer.waits (env w) = [] ->
  Timer.inFlight (Timer.timeoutLambda user st error w).
Proof.
  intros Hr Hw. unfold Timer.timeoutLambda.
  destruct (error || isCanceled w).
  - apply inFlight_destroy; assumption.
  - cbn. apply inFlight_invokeHandler.
    change (finishOperation Timer.invoke w) with (Timer.finish w).
    apply inFlight_finish; auto.
Qed.

Lemma inFlight_periodicLambda st error (w : World) :
  running (mgr w) = true -> Timer.waits (env w) = [] ->
  Timer.inFlight (Timer.periodicLambda user st error w).
Proof.
  intros Hr Hw. unfold Timer.periodicLambda.
  destruct (error || isCanceled w).
  - apply inFlight_destroy; assumption.
  - destruct (between_waits_invokeHandler (Timer.handler st) w Hr Hw) as [Hr' Hw'].
    unfold Timer.nextPeriod.
    destruct (isCanceled (Timer.invokeHandler user (Timer.handler st) w)).
    + apply inFlight_destroy; assumption.
    + split; cbn; [intros _; exact Hr'|].
      right. rewrite Hw'. cbn. split; [eexists; reflexivity | exact Hr'].
Qed.

Lemma inFlight_deliver (w : World) :
  Timer.inFlight w -> Timer.inFlight (Timer.deliver user w).
Proof.
  intros Hin. pose proof Hin as [Hp Hw].
  unfold Timer.deliver.
  destruct (Timer.waits (env w)) as [|wt rest] eqn:Hws; [exact Hin|].
  destruct Hw as [Hnil | [[y Hy] Hr]]; [discriminate|].
  injection Hy as -> ->.
  destruct (Timer.status y); [exact Hin | |];
    destruct (Timer.kind y);
    (apply inFlight_timeoutLambda || apply inFlight_periodicLambda);
    destruct w as [[p r cd] [n x ws l]]; auto.
Qed.

(** In every world a timer can get to, an outstanding wait means the
    manager is [running]. *)
Lemma timer_reachable_inFlight (w : World) :
  Timer.reachable user w -> Timer.inFlight w.
Proof.
  intros [inputs ->].
  assert (H : forall w0 : World, Timer.inFlight w0 ->
                Timer.inFlight (fold_left (Timer.react user) inputs w0)).
  { induction inputs as [|i inputs IH]; intros w0 H0; cbn [fold_left]; [exact H0|].
    apply IH. destruct i as [[c|t]|]; cbn.
    - apply inFlight_runCall, H0.
    - apply inFlight_advance, H0.
    - apply inFlight_deliver, H0. }
  apply H. split; cbn; [congruence | left; reflexivity].
Qed.

Lemma timer_reachable_running (w : World) wt rest :
  Timer.reachable user w ->
  Timer.waits (env w) = wt :: rest ->
  running (mgr w) = true /\ rest = [].
Proof.
  intros Hr Hw. destruct (timer_reachable_inFlight w Hr) as [_ [Hnil | [[y Hy] Hrun]]].
  - rewrite Hw in Hnil. discriminate.
  - rewrite Hw in Hy. injection Hy as -> ->. auto.
Qed.

End TimerInvariant.

Section PeriodicTimer.
Import manager.
Variable user : HandlerId -> list Timer.Event -> list Timer.Call.

Local Abbreviation World := (World PendingOperationReplacer Timer.Op Timer.Env).

Lemma startPeriodicTimeout_idle interval h (w : World) :
  running (mgr w) = false ->
  let w1 := Timer.startPeriodicTimeout interval h w in
  Timer.expires_at (env w1) = Timer.now (env w) + interval /\
  exists pre,
    Timer.waits (env w1)
    = pre ++ [{| Timer.kind := Timer.PeriodicWait;
                 Timer.state := {| Timer.handler := h; Timer.duration := interval;
                                   Timer.notifier := newNotifier |};
                 Timer.status := Timer.Pending |}].
Proof.
  intros Hr. destruct w as [[p r cd] [n x ws l]]. cbn in Hr. subst r.
  cbn. split; [reflexivity|]. eexists. reflexivity.
Qed.

Lemma periodicLambda_fires st (w : World) :
  isCanceled w = false ->
  Timer.periodicLambda user st false w
  = Timer.nextPeriod st (Timer.invokeHandler user (Timer.handler st) w).
Proof.
  intros Hc. unfold Timer.periodicLambda. rewrite Hc. reflexivity.
Qed.

Lemma nextPeriod_rearms st (w : World) :
  isCanceled w = false ->
  mgr (Timer.nextPeriod st w) = mgr w /\
  Timer.expires_at (env (Timer.nextPeriod st w))
  = Timer.expires_at (env w) + Timer.duration st /\
  Timer.invocations (Timer.nextPeriod st w) = Timer.invocations w /\
  exists pre,
    Timer.waits (env (Timer.nextPeriod st w))
    = pre ++ [{| Timer.kind := Timer.NextPeriodWait; Timer.state := st;
                 Timer.status := Timer.Pending |}].
Proof.
  intros Hc. unfold Timer.nextPeriod. rewrite Hc.
  destruct w as [m [n x ws l]]. cbn.
  repeat split. eexists. reflexivity.
Qed.

Lemma nextPeriod_canceled st (w : World) :
  isCanceled w = true ->
  Timer.nextPeriod st w = destroy Timer.invoke (Timer.notifier st) w.
Proof.
  intros Hc. unfold Timer.nextPeriod. now rewrite Hc.
Qed.

Lemma periodicLambda_stops st error (w : World) :
  isCanceled w = true ->
  Timer.periodicLambda user st error w
  = destroy Timer.invoke (Timer.notifier st) w.
Proof.
  intros Hc. unfold Timer.periodicLambda. rewrite Hc, orb_true_r. reflexivity.
Qed.

Lemma dropHead_invocations (w : World) :
  Timer.invocations (Timer.dropHead w) = Timer.invocations w.
Proof. reflexivity. Qed.

(** One firing of a periodic chain. *)
Lemma periodic_firing k st rest (w : World) :
  k = Timer.PeriodicWait \/ k = Timer.NextPeriodWait ->
  Timer.waits (env w)
  = {| Timer.kind := k; Timer.state := st; Timer.status := Timer.Expired |} :: rest ->
  running (mgr w) = true ->
  canceled (mgr w) = false ->
  let fired := Timer.invokeHandler user (Timer.handler st) (Timer.dropHead w) in
  Timer.invocations fired = Timer.invocations w ++ [Timer.Invoked (Timer.handler st)] /\
  (isCanceled fired = false ->
   (exists pre,
      Timer.waits (env (Timer.deliver user w))
      = pre ++ [{| Timer.kind := Timer.NextPeriodWait; Timer.state := st;
                   Timer.status := Timer.Pending |}]) /\
   forall steps,
     Timer.expires_at (env (fold_left Timer.step steps (Timer.deliver user w)))
     = Timer.expires_at (env w) + Timer.duration st) /\
  (isCanceled fired = true ->
   Timer.deliver user w = destroy Timer.invoke (Timer.notifier st) fired).
Proof.
  intros Hk Hw Hr Hc fired.
  assert (Hd : Timer.deliver user w
               = Timer.nextPeriod st fired).
  { rewrite (deliver_settled user k st w Timer.Expired rest Hw) by discriminate.
    destruct Hk; subst k; apply periodicLambda_fires; exact Hc. }
  destruct (timer_invokeHandler_extends user (Timer.handler st) (Timer.dropHead w) Hr)
    as (Hr' & He' & Hi').
  split; [exact Hi'|]. split.
  - intros Hcf.
    destruct (nextPeriod_rearms st fired Hcf) as (Hm & He & _ & Hwaits).
    split; [rewrite Hd; exact Hwaits|].
    intros steps.
    destruct (timer_steps_extends steps (Timer.deliver user w)) as (_ & Hrun & _ & _).
    rewrite Hd in Hrun |- *.
    destruct Hrun as [_ Hx]; [rewrite Hm; exact Hr'|].
    rewrite Hx, He. subst fired. rewrite He'. reflexivity.
  - intros Hcf. rewrite Hd. apply nextPeriod_canceled. exact Hcf.
Qed.

(** After [cancel()], the chain's outstanding wait completes without
    reaching the handler. *)
Lemma periodic_cancel k st s rest (w : World) (steps : list Timer.Step) :
  k = Timer.PeriodicWait \/ k = Timer.NextPeriodWait ->
  Timer.waits (env w)
  = {| Timer.kind := k; Timer.state := st; Timer.status := s |} :: rest ->
  let w2 := fold_left Timer.step steps (Timer.cancel w) in
  isCanceled w2 = true /\
  Timer.deliver user w2
  = destroy Timer.invoke (Timer.notifier st) (Timer.dropHead w2) /\
  Timer.invocations (Timer.deliver user w2) = Timer.invocations w2.
Proof.
  intros Hk Hw w2.
  destruct (timer_steps_extends steps (Timer.cancel w)) as (Hc & _ & Hs & _).
  assert (Hcan : isCanceled w2 = true) by (apply Hc; reflexivity).
  assert (Hset : Timer.settled k st w2).
  { apply Hs. destruct w as [m [n x ws l]]. cbn in Hw. subst ws.
    unfold Timer.settled; cbn. do 2 eexists. split; [reflexivity|].
    destruct s; cbn; congruence. }
  destruct Hset as (s2 & rest2 & Hw2 & Hs2).
  assert (Hd : Timer.deliver user w2
               = destroy Timer.invoke (Timer.notifier st) (Timer.dropHead w2)).
  { rewrite (deliver_settled user k st w2 s2 rest2 Hw2 Hs2).
    destruct Hk; subst k; apply periodicLambda_stops; exact Hcan. }
  split; [exact Hcan|]. split; [exact Hd|].
  rewrite Hd, timer_destroy_invocations. reflexivity.
Qed.

(** C8. A periodic timer started on an idle [Timer] first expires at
    [now + interval]. In every state a timer can reach, each firing of
    a periodic chain (its wait has expired, and nothing was cancelled)
    invokes the handler and, unless the handler cancelled, re-arms the
    timer at the previous expiry plus [interval], whatever the current
    time; that expiry stands until the next completion. After
    [cancel()], from outside or from the handler itself, the chain's
    wait completes without invoking the handler and without re-arming:
    only the chain's state is released. *)
Theorem periodic_timer_deadlines_and_cancel :
  (forall interval h (w : World),
      running (mgr w) = false ->
      Timer.expires_at (env (Timer.startPeriodicTimeout interval h w))
      = Timer.now (env w) + interval) /\
  (forall k st rest (w : World),
      Timer.reachable user w ->
      k = Timer.PeriodicWait \/ k = Timer.NextPeriodWait ->
      Timer.waits (env w)
      = {| Timer.kind := k; Timer.state := st; Timer.status := Timer.Expired |}
          :: rest ->
      canceled (mgr w) = false ->
      let fired := Timer.invokeHandler user (Timer.handler st) (Timer.dropHead w) in
      Timer.invocations fired
      = Timer.invocations w ++ [Timer.Invoked (Timer.handler st)] /\
      (isCanceled fired = false ->
       (exists pre,
          Timer.waits (env (Timer.deliver user w))
          = pre ++ [{| Timer.kind := Timer.NextPeriodWait; Timer.state := st;
                       Timer.status := Timer.Pending |}]) /\
       forall steps,
         Timer.expires_at (env (fold_left Timer.step steps (Timer.deliver user w)))
         = Timer.expires_at (env w) + Timer.duration st) /\
      (isCanceled fired = true ->
       Timer.deliver user w = destroy Timer.invoke (Timer.notifier st) fired)) /\
  (forall k st s rest (w : World) (steps : list Timer.Step),
      k = Timer.PeriodicWait \/ k = Timer.NextPeriodWait ->
      Timer.waits (env w)
      = {| Timer.kind := k; Timer.state := st; Timer.status := s |} :: rest ->
      let w2 := fold_left Timer.step steps (Timer.cancel w) in
      isCanceled w2 = true /\
      Timer.deliver user w2
      = destroy Timer.invoke (Timer.notifier st) (Timer.dropHead w2) /\
      Timer.invocations (Timer.deliver user w2) = Timer.invocations w2).
Proof.
  split; [|split].
  - intros interval h w Hr.
    exact (proj1 (startPeriodicTimeout_idle interval h w Hr)).
  - intros k st rest w Hreach Hk Hw Hc.
    destruct (timer_reachable_running user w _ rest Hreach Hw) as [Hr _].
    apply periodic_firing with (k := k) (rest := rest); assumption.
  - intros k st s rest w steps Hk Hw.
    apply periodic_cancel with (k := k) (s := s) (rest := rest); assumption.
Qed.

End PeriodicTimer.

Lemma periodic_timer_deadlines_and_cancel_witness :
  let user := fun (_ : HandlerId) (_ : list Timer.Event) => @nil Timer.Call in
  let w := Timer.advance 13 (Timer.startPeriodicTimeout 10 1%nat Timer.create) in
  Timer.expires_at (manager.env w) = 10 /\
  Timer.now (manager.env w) = 13 /\
  Timer.expires_at
    (manager.env (fold_left Timer.step [Timer.StepAdvance 17] (Timer.deliver user w)))
  = 10 + 10.
Proof.
  intros user w.
  split; [reflexivity|]. split; [reflexivity|].
  refine (proj2 (proj1 (proj2 (proj1 (proj2 (periodic_timer_deadlines_and_cancel user))
            Timer.PeriodicWait
            {| Timer.handler := 1%nat; Timer.duration := 10;
               Timer.notifier := manager.newNotifier |}
            [] w _ (or_introl eq_refl) eq_refl eq_refl)) eq_refl)
            [Timer.StepAdvance 17]).
  exists [Timer.Do (Timer.StepCall (Timer.CallStartPeriodicTimeout 10 1%nat));
          Timer.Do (Timer.StepAdvance 13)].
  reflexivity.
Defined.

(** ** The notifier runs before the handler *)

Section FinishFacts.
Import manager.
Context {C : Type -> Type} `{PendingOperationContainer C}.
Context {Op Env : Type}.
Variable invoke : Op -> Env -> Env.

Lemma finishOperation_idle (w : World C Op Env) :
  hasPendingOperation (pendingOperations (mgr w)) = false ->
  finishOperation invoke w
  = {| mgr := {| pendingOperations := pendingOperations (mgr w);
                 running := false; canceled := false |};
       env := env w |}.
Proof.
  intros Hp. unfold finishOperation; cbn. rewrite Hp. reflexivity.
Qed.

Lemma finishOperation_dispatch (w : World C Op Env) (next : Op) :
  hasPendingOperation (pendingOperations (mgr w)) = true ->
  getPendingOperation (pendingOperations (mgr w)) = Some next ->
  finishOperation invoke w
  = {| mgr := {| pendingOperations := popPendingOperation (pendingOperations (mgr w));
                 running := running (mgr w); canceled := false |};
       env := invoke next (env w) |}.
Proof.
  intros Hp Hg. unfold finishOperation; cbn. rewrite Hp, Hg. reflexivity.
Qed.

End FinishFacts.

Section ReceiverOrder.
Import manager.
Context {Message : Type}.
Variable user : HandlerId -> list (@DatagramReceiver.Event Message)
                -> list DatagramReceiver.Call.

Local Abbreviation World :=
  (World PendingOperationReplacer DatagramReceiver.Op (@DatagramReceiver.Env Message)).
Local Abbreviation Invoked := (@DatagramReceiver.Invoked Message).

Lemma receiveHandler_order st e m ep (w : World) :
  isCanceled w = false ->
  DatagramReceiver.receiveHandler user st e m ep w
  = DatagramReceiver.invokeHandler user (DatagramReceiver.handler st) e m ep
      (DatagramReceiver.finish w).
Proof.
  intros Hc. unfold DatagramReceiver.receiveHandler. rewrite Hc. reflexivity.
Qed.

Lemma receiveHandler_restart_idle st e m ep (w : World) timeout h2 more :
  isCanceled w = false ->
  pendingOperations (mgr w) = None ->
  user (DatagramReceiver.handler st)
       (DatagramReceiver.log (env w) ++ [Invoked (DatagramReceiver.handler st) e m ep])
  = DatagramReceiver.CallAsyncReceive timeout h2 :: more ->
  DatagramReceiver.receiveHandler user st e m ep w
  = fold_left (@DatagramReceiver.runCall Message) more
      {| mgr := {| pendingOperations := None; running := true; canceled := false |};
         env := DatagramReceiver.asyncReceiveOperation
                  {| DatagramReceiver.opTimeout := timeout;
                     DatagramReceiver.opHandler := h2 |}
                  (DatagramReceiver.addLog
                     (Invoked (DatagramReceiver.handler st) e m ep) (env w)) |}.
Proof.
  intros Hc Hp Hu. rewrite receiveHandler_order by exact Hc.
  destruct w as [[p r cd] ev]. cbn in Hp. subst p.
  unfold DatagramReceiver.invokeHandler, DatagramReceiver.finish, finishOperation.
  cbn. cbn in Hu. rewrite Hu. reflexivity.
Qed.

Lemma receiveHandler_restart_busy st e m ep (w : World) next timeout h2 more :
  isCanceled w = false ->
  pendingOperations (mgr w) = Some next ->
  running (mgr w) = true ->
  let started := DatagramReceiver.asyncReceiveOperation next (env w) in
  user (DatagramReceiver.handler st)
       (DatagramReceiver.log started ++ [Invoked (DatagramReceiver.handler st) e m ep])
  = DatagramReceiver.CallAsyncReceive timeout h2 :: more ->
  DatagramReceiver.receiveHandler user st e m ep w
  = fold_left (@DatagramReceiver.runCall Message) more
      {| mgr := {| pendingOperations :=
                     Some {| DatagramReceiver.opTimeout := timeout;
                             DatagramReceiver.opHandler := h2 |};
                   running := true; canceled := false |};
         env := DatagramReceiver.cancelOperation
                  (DatagramReceiver.addLog
                     (Invoked (DatagramReceiver.handler st) e m ep) started) |}.
Proof.
  intros Hc Hp Hr started Hu. rewrite receiveHandler_order by exact Hc.
  destruct w as [[p r cd] ev]. cbn in Hp, Hr. subst p r.
  unfold DatagramReceiver.invokeHandler, DatagramReceiver.finish, finishOperation.
  cbn. subst started. cbn in Hu. rewrite Hu. reflexivity.
Qed.

End ReceiverOrder.

Section SenderOrder.
Import manager.
Context {Message : Type}.
Variable encode : Message -> option (list byte).
Variable user : HandlerId -> list DatagramSender.Event
                -> list (@DatagramSender.Call Message).

Local Abbreviation World :=
  (World PendingOperationQueue DatagramSender.Op DatagramSender.Env).

Lemma sendHandler_restart_idle st e (w : World) message endpoint timeout h2 data more :
  pendingOperations (mgr w) = [] ->
  user (DatagramSender.handler st)
       (DatagramSender.log (env w)
        ++ [DatagramSender.Invoked (DatagramSender.handler st) e])
  = DatagramSender.CallAsyncSend message endpoint timeout h2 :: more ->
  encode message = Some data ->
  DatagramSender.sendHandler encode user st e w
  = fold_left (DatagramSender.runCall encode) more
      {| mgr := {| pendingOperations := []; running := true; canceled := false |};
         env := DatagramSender.asyncSendOperation
                  {| DatagramSender.opData := data;
                     DatagramSender.opEndpoint := endpoint;
                     DatagramSender.opTimeout := timeout;
                     DatagramSender.opHandler := h2 |}
                  (DatagramSender.addLog
                     (DatagramSender.Invoked (DatagramSender.handler st) e)
                     (env w)) |}.
Proof.
  intros Hp Hu He. rewrite sendHandler_invokes.
  destruct w as [[p r cd] ev]. cbn in Hp. subst p.
  unfold DatagramSender.invokeHandler, DatagramSender.finish, finishOperation.
  cbn. cbn in Hu. rewrite Hu. cbn.
  unfold DatagramSender.asyncSend. rewrite He. reflexivity.
Qed.

Lemma sendHandler_restart_busy st e (w : World) next rest
      message endpoint timeout h2 data more :
  pendingOperations (mgr w) = next :: rest ->
  running (mgr w) = true ->
  let started := DatagramSender.asyncSendOperation next (env w) in
  user (DatagramSender.handler st)
       (DatagramSender.log started
        ++ [DatagramSender.Invoked (DatagramSender.handler st) e])
  = DatagramSender.CallAsyncSend message endpoint timeout h2 :: more ->
  encode message = Some data ->
  DatagramSender.sendHandler encode user st e w
  = fold_left (DatagramSender.runCall encode) more
      {| mgr := {| pendingOperations :=
                     rest ++ [{| DatagramSender.opData := data;
                                 DatagramSender.opEndpoint := endpoint;
                                 DatagramSender.opTimeout := timeout;
                                 DatagramSender.opHandler := h2 |}];
                   running := true; canceled := false |};
         env := DatagramSender.addLog
                  (DatagramSender.Invoked (DatagramSender.handler st) e)
                  started |}.
Proof.
  intros Hp Hr started Hu He. rewrite sendHandler_invokes.
  destruct w as [[p r cd] ev]. cbn in Hp, Hr. subst p r.
  unfold DatagramSender.invokeHandler, DatagramSender.finish, finishOperation.
  cbn. subst started. cbn in Hu. rewrite Hu. cbn.
  unfold DatagramSender.asyncSend. rewrite He. reflexivity.
Qed.

End SenderOrder.

Section ClientOrder.
Import manager.
Context {RequestMessage ResponseMessage : Type}.
Variable encodeRequest : RequestMessage -> option (list byte).
Variable noResponse : ResponseMessage.
Variable maxMessageSize : Z.
Variable user : HandlerId -> list (@ServiceClient.Event ResponseMessage)
                -> list (@ServiceClient.Call RequestMessage).

Local Abbreviation World :=
  (World PendingOperationQueue ServiceClient.Op (@ServiceClient.Env ResponseMessage)).
Local Abbreviation exitStage :=
  (ServiceClient.exitStage encodeRequest maxMessageSize user).
Local Abbreviation runCall := (ServiceClient.runCall encodeRequest maxMessageSize).

(** The three exits of a call are the same exit. *)
Lemma client_exits st e r (w : World) :
  (error.to_bool e = true ->
   ServiceClient.connectHandler encodeRequest noResponse maxMessageSize user st e w
   = exitStage st e noResponse w) /\
  (error.to_bool e = true ->
   ServiceClient.writeHandler encodeRequest noResponse maxMessageSize user st e w
   = exitStage st e noResponse w) /\
  ServiceClient.readHandler encodeRequest maxMessageSize user st e r w
  = exitStage st e r w.
Proof.
  unfold ServiceClient.connectHandler, ServiceClient.writeHandler,
    ServiceClient.readHandler.
  repeat split; intros He; rewrite He; reflexivity.
Qed.

Lemma exitStage_restart_idle st e r (w : World) request target timeout h2 data more :
  pendingOperations (mgr w) = [] ->
  user (ServiceClient.handler st)
       (ServiceClient.log (env w)
        ++ [ServiceClient.Invoked (ServiceClient.handler st) e r])
  = ServiceClient.CallAsyncCall request target timeout h2 :: more ->
  encodeRequest request = Some data ->
  exitStage st e r w
  = fold_left runCall more
      {| mgr := {| pendingOperations := []; running := true; canceled := false |};
         env := ServiceClient.asyncCallOperation maxMessageSize
                  {| ServiceClient.opSendData := data;
                     ServiceClient.opTarget := target;
                     ServiceClient.opTimeout := timeout;
                     ServiceClient.opHandler := h2 |}
                  (ServiceClient.addLog
                     (ServiceClient.Invoked (ServiceClient.handler st) e r)
                     (ServiceClient.setSocket false (env w))) |}.
Proof.
  intros Hp Hu He. rewrite exitStage_invokes.
  destruct w as [[p rn cd] [n s o ps l]]. cbn in Hp. subst p.
  unfold ServiceClient.invokeHandler, ServiceClient.finish, finishOperation.
  cbn. cbn in Hu. rewrite Hu. cbn.
  unfold ServiceClient.asyncCall, ServiceClient.encode. rewrite He. reflexivity.
Qed.

Lemma exitStage_restart_busy st e r (w : World) next rest
      request target timeout h2 data more :
  pendingOperations (mgr w) = next :: rest ->
  running (mgr w) = true ->
  let started := ServiceClient.asyncCallOperation maxMessageSize next
                   (ServiceClient.setSocket false (env w)) in
  user (ServiceClient.handler st)
       (ServiceClient.log started
        ++ [ServiceClient.Invoked (ServiceClient.handler st) e r])
  = ServiceClient.CallAsyncCall request target timeout h2 :: more ->
  encodeRequest request = Some data ->
  exitStage st e r w
  = fold_left runCall more
      {| mgr := {| pendingOperations :=
                     rest ++ [{| ServiceClient.opSendData := data;
                                 ServiceClient.opTarget := target;
                                 ServiceClient.opTimeout := timeout;
                                 ServiceClient.opHandler := h2 |}];
                   running := true; canceled := false |};
         env := ServiceClient.addLog
                  (ServiceClient.Invoked (ServiceClient.handler st) e r)
                  started |}.
Proof.
  intros Hp Hr started Hu He. rewrite exitStage_invokes.
  destruct w as [[p rn cd] [n s o ps l]]. cbn in Hp, Hr. subst p rn.
  unfold ServiceClient.invokeHandler, ServiceClient.finish, finishOperation.
  cbn. subst started. cbn in Hu. rewrite Hu. cbn.
  unfold ServiceClient.asyncCall, ServiceClient.encode. rewrite He. reflexivity.
Qed.

End ClientOrder.

Section TimerOrder.
Import manager.
Variable user : HandlerId -> list Timer.Event -> list Timer.Call.

Local Abbreviation World := (World PendingOperationReplacer Timer.Op Timer.Env).

Lemma timeoutLambda_order st (w : World) :
  isCanceled w = false ->
  Timer.timeoutLambda user st false w
  = Timer.invokeHandler user (Timer.handler st) (Timer.finish w).
Proof.
  intros Hc. unfold Timer.timeoutLambda. rewrite Hc. reflexivity.
Qed.

Lemma timeoutLambda_restart_idle st (w : World) duration h2 more :
  isCanceled w = false ->
  pendingOperations (mgr w) = None ->
  user (Timer.handler st)
       (Timer.log (env w) ++ [Timer.Invoked (Timer.handler st)])
  = Timer.CallStartTimeout duration h2 :: more ->
  Timer.timeoutLambda user st false w
  = fold_left Timer.runCall more
      {| mgr := {| pendingOperations := None; running := true; canceled := false |};
         env := Timer.startTimeoutOperation duration h2
                  (Timer.addLog (Timer.Invoked (Timer.handler st)) (env w)) |}.
Proof.
  intros Hc Hp Hu. rewrite timeoutLambda_order by exact Hc.
  destruct w as [[p r cd] [n x ws l]]. cbn in Hp. subst p.
  unfold Timer.invokeHandler, Timer.finish, finishOperation.
  cbn. cbn in Hu. rewrite Hu. reflexivity.
Qed.

Lemma timeoutLambda_restart_busy st (w : World) next duration h2 more :
  isCanceled w = false ->
  pendingOperations (mgr w) = Some next ->
  running (mgr w) = true ->
  let started := Timer.invoke next (env w) in
  user (Timer.handler st)
       (Timer.log started ++ [Timer.Invoked (Timer.handler st)])
  = Timer.CallStartTimeout duration h2 :: more ->
  Timer.timeoutLambda user st false w
  = fold_left Timer.runCall more
      {| mgr := {| pendingOperations := Some (Timer.TimeoutOperation duration h2);
                   running := true; canceled := false |};
         env := Timer.cancelOperation
                  (Timer.addLog (Timer.Invoked (Timer.handler st)) started) |}.
Proof.
  intros Hc Hp Hr started Hu. rewrite timeoutLambda_order by exact Hc.
  destruct w as [[p r cd] [n x ws l]]. cbn in Hp, Hr. subst p r.
  unfold Timer.invokeHandler, Timer.finish, finishOperation.
  cbn [mgr env pendingOperations running canceled setCanceled setRunning
       setPending onEnv hasPendingOperation getPendingOperation
       popPendingOperation replacer negb].
  subst started. cbn [env] in Hu.
  replace (Timer.log (Timer.addLog (Timer.Invoked (Timer.handler st))
                        (Timer.invoke next
                           {| Timer.now := n; Timer.expires_at := x;
                              Timer.waits := ws; Timer.log := l |})))
    with (Timer.log (Timer.invoke next
                       {| Timer.now := n; Timer.expires_at := x;
                          Timer.waits := ws; Timer.log := l |})
          ++ [Timer.Invoked (Timer.handler st)]) by reflexivity.
  rewrite Hu. reflexivity.
Qed.

End TimerOrder.

Section CompletionOrder.
Import manager.
Context {Datagram SentMessage RequestMessage ResponseMessage : Type}.
Variable timerUser : HandlerId -> list Timer.Event -> list Timer.Call.
Variable receiverUser : HandlerId -> list (@DatagramReceiver.Event Datagram)
                        -> list DatagramReceiver.Call.
Variable encode : SentMessage -> option (list byte).
Variable senderUser : HandlerId -> list DatagramSender.Event
                      -> list (@DatagramSender.Call SentMessage).
Variable encodeRequest : RequestMessage -> option (list byte).
Variable noResponse : ResponseMessage.
Variable maxMessageSize : Z.
Variable clientUser : HandlerId -> list (@ServiceClient.Event ResponseMessage)
                      -> list (@ServiceClient.Call RequestMessage).

Local Abbreviation TimerWorld := (World PendingOperationReplacer Timer.Op Timer.Env).
Local Abbreviation ReceiverWorld :=
  (World PendingOperationReplacer DatagramReceiver.Op (@DatagramReceiver.Env Datagram)).
Local Abbreviation SenderWorld :=
  (World PendingOperationQueue DatagramSender.Op DatagramSender.Env).
Local Abbreviation ClientWorld :=
  (World PendingOperationQueue ServiceClient.Op (@ServiceClient.Env ResponseMessage)).

(** C9 (amended). On each completion path that invokes a user handler
    (the expiry of a one-shot timer, a datagram receive, a datagram
    send, and every exit of a service call) the handler is invoked in
    the world [finishOperation] has produced: the notifier runs first,
    and a pending operation, if any, has been started by then. A
    handler that begins by starting a new operation on the same object
    starts it directly when no operation was pending at the
    completion; when one was pending, that one is the operation
    started, and the handler's operation is put in the pending
    container (after [cancelingOperation] under the replacer policy). *)
Theorem handler_runs_after_finishOperation :
  (* one-shot timer *)
  ((forall st (w : TimerWorld),
       isCanceled w = false ->
       Timer.timeoutLambda timerUser st false w
       = Timer.invokeHandler timerUser (Timer.handler st) (Timer.finish w)) /\
   (forall st (w : TimerWorld) duration h2 more,
       isCanceled w = false ->
       pendingOperations (mgr w) = None ->
       timerUser (Timer.handler st)
                 (Timer.log (env w) ++ [Timer.Invoked (Timer.handler st)])
       = Timer.CallStartTimeout duration h2 :: more ->
       Timer.timeoutLambda timerUser st false w
       = fold_left Timer.runCall more
           {| mgr := {| pendingOperations := None; running := true;
                        canceled := false |};
              env := Timer.startTimeoutOperation duration h2
                       (Timer.addLog (Timer.Invoked (Timer.handler st)) (env w)) |}) /\
   (forall st (w : TimerWorld) next duration h2 more,
       isCanceled w = false ->
       pendingOperations (mgr w) = Some next ->
       running (mgr w) = true ->
       let started := Timer.invoke next (env w) in
       timerUser (Timer.handler st)
                 (Timer.log started ++ [Timer.Invoked (Timer.handler st)])
       = Timer.CallStartTimeout duration h2 :: more ->
       Timer.timeoutLambda timerUser st false w
       = fold_left Timer.runCall more
           {| mgr := {| pendingOperations :=
                          Some (Timer.TimeoutOperation duration h2);
                        running := true; canceled := false |};
              env := Timer.cancelOperation
                       (Timer.addLog (Timer.Invoked (Timer.handler st)) started) |})) /\
  (* datagram receive *)
  ((forall st e m ep (w : ReceiverWorld),
       isCanceled w = false ->
       DatagramReceiver.receiveHandler receiverUser st e m ep w
       = DatagramReceiver.invokeHandler receiverUser (DatagramReceiver.handler st)
           e m ep (DatagramReceiver.finish w)) /\
   (forall st e m ep (w : ReceiverWorld) timeout h2 more,
       isCanceled w = false ->
       pendingOperations (mgr w) = None ->
       receiverUser (DatagramReceiver.handler st)
         (DatagramReceiver.log (env w)
          ++ [DatagramReceiver.Invoked (DatagramReceiver.handler st) e m ep])
       = DatagramReceiver.CallAsyncReceive timeout h2 :: more ->
       DatagramReceiver.receiveHandler receiverUser st e m ep w
       = fold_left (@DatagramReceiver.runCall Datagram) more
           {| mgr := {| pendingOperations := None; running := true;
                        canceled := false |};
              env := DatagramReceiver.asyncReceiveOperation
                       {| DatagramReceiver.opTimeout := timeout;
                          DatagramReceiver.opHandler := h2 |}
                       (DatagramReceiver.addLog
                          (DatagramReceiver.Invoked (DatagramReceiver.handler st) e m ep)
                          (env w)) |}) /\
   (forall st e m ep (w : ReceiverWorld) next timeout h2 more,
       isCanceled w = false ->
       pendingOperations (mgr w) = Some next ->
       running (mgr w) = true ->
       let started := DatagramReceiver.asyncReceiveOperation next (env w) in
       receiverUser (DatagramReceiver.handler st)
         (DatagramReceiver.log started
          ++ [DatagramReceiver.Invoked (DatagramReceiver.handler st) e m ep])
       = DatagramReceiver.CallAsyncReceive timeout h2 :: more ->
       DatagramReceiver.receiveHandler receiverUser st e m ep w
       = fold_left (@DatagramReceiver.runCall Datagram) more
           {| mgr := {| pendingOperations :=
                          Some {| DatagramReceiver.opTimeout := timeout;
                                  DatagramReceiver.opHandler := h2 |};
                        running := true; canceled := false |};
              env := DatagramReceiver.cancelOperation
                       (DatagramReceiver.addLog
                          (DatagramReceiver.Invoked (DatagramReceiver.handler st) e m ep)
                          started) |})) /\
  (* datagram send *)
  ((forall st e (w : SenderWorld),
       DatagramSender.sendHandler encode senderUser st e w
       = DatagramSender.invokeHandler encode senderUser (DatagramSender.handler st) e
           (DatagramSender.finish w)) /\
   (forall st e (w : SenderWorld) message endpoint timeout h2 data more,
       pendingOperations (mgr w) = [] ->
       senderUser (DatagramSender.handler st)
         (DatagramSender.log (env w)
          ++ [DatagramSender.Invoked (DatagramSender.handler st) e])
       = DatagramSender.CallAsyncSend message endpoint timeout h2 :: more ->
       encode message = Some data ->
       DatagramSender.sendHandler encode senderUser st e w
       = fold_left (DatagramSender.runCall encode) more
           {| mgr := {| pendingOperations := []; running := true;
                        canceled := false |};
              env := DatagramSender.asyncSendOperation
                       {| DatagramSender.opData := data;
                          DatagramSender.opEndpoint := endpoint;
                          DatagramSender.opTimeout := timeout;
                          DatagramSender.opHandler := h2 |}
                       (DatagramSender.addLog
                          (DatagramSender.Invoked (DatagramSender.handler st) e)
                          (env w)) |}) /\
   (forall st e (w : SenderWorld) next rest message endpoint timeout h2 data more,
       pendingOperations (mgr w) = next :: rest ->
       running (mgr w) = true ->
       let started := DatagramSender.asyncSendOperation next (env w) in
       senderUser (DatagramSender.handler st)
         (DatagramSender.log started
          ++ [DatagramSender.Invoked (DatagramSender.handler st) e])
       = DatagramSender.CallAsyncSend message endpoint timeout h2 :: more ->
       encode message = Some data ->
       DatagramSender.sendHandler encode senderUser st e w
       = fold_left (DatagramSender.runCall encode) more
           {| mgr := {| pendingOperations :=
                          rest ++ [{| DatagramSender.opData := data;
                                      DatagramSender.opEndpoint := endpoint;
                                      DatagramSender.opTimeout := timeout;
                                      DatagramSender.opHandler := h2 |}];
                        running := true; canceled := false |};
              env := DatagramSender.addLog
                       (DatagramSender.Invoked (DatagramSender.handler st) e)
                       started |})) /\
  (* service call: the exits of connectHandler, writeHandler and the
     read lambda *)
  ((forall st e r (w : ClientWorld),
       (error.to_bool e = true ->
        ServiceClient.connectHandler encodeRequest noResponse maxMessageSize
          clientUser st e w
        = ServiceClient.exitStage encodeRequest maxMessageSize clientUser
            st e noResponse w) /\
       (error.to_bool e = true ->
        ServiceClient.writeHandler encodeRequest noResponse maxMessageSize
          clientUser st e w
        = ServiceClient.exitStage encodeRequest maxMessageSize clientUser
            st e noResponse w) /\
       ServiceClient.readHandler encodeRequest maxMessageSize clientUser st e r w
       = ServiceClient.exitStage encodeRequest maxMessageSize clientUser st e r w) /\
   (forall st e r (w : ClientWorld),
       ServiceClient.exitStage encodeRequest maxMessageSize clientUser st e r w
       = ServiceClient.invokeHandler encodeRequest maxMessageSize clientUser
           (ServiceClient.handler st) e r
           (ServiceClient.finish maxMessageSize
              (onEnv (ServiceClient.setSocket false) w))) /\
   (forall st e r (w : ClientWorld) request target timeout h2 data more,
       pendingOperations (mgr w) = [] ->
       clientUser (ServiceClient.handler st)
         (ServiceClient.log (env w)
          ++ [ServiceClient.Invoked (ServiceClient.handler st) e r])
       = ServiceClient.CallAsyncCall request target timeout h2 :: more ->
       encodeRequest request = Some data ->
       ServiceClient.exitStage encodeRequest maxMessageSize clientUser st e r w
       = fold_left (ServiceClient.runCall encodeRequest maxMessageSize) more
           {| mgr := {| pendingOperations := []; running := true;
                        canceled := false |};
              env := ServiceClient.asyncCallOperation maxMessageSize
                       {| ServiceClient.opSendData := data;
                          ServiceClient.opTarget := target;
                          ServiceClient.opTimeout := timeout;
                          ServiceClient.opHandler := h2 |}
                       (ServiceClient.addLog
                          (ServiceClient.Invoked (ServiceClient.handler st) e r)
                          (ServiceClient.setSocket false (env w))) |}) /\
   (forall st e r (w : ClientWorld) next rest request target timeout h2 data more,
       pendingOperations (mgr w) = next :: rest ->
       running (mgr w) = true ->
       let started := ServiceClient.asyncCallOperation maxMessageSize next
                        (ServiceClient.setSocket false (env w)) in
       clientUser (ServiceClient.handler st)
         (ServiceClient.log started
          ++ [ServiceClient.Invoked (ServiceClient.handler st) e r])
       = ServiceClient.CallAsyncCall request target timeout h2 :: more ->
       encodeRequest request = Some data ->
       ServiceClient.exitStage encodeRequest maxMessageSize clientUser st e r w
       = fold_left (ServiceClient.runCall encodeRequest maxMessageSize) more
           {| mgr := {| pendingOperations :=
                          rest ++ [{| ServiceClient.opSendData := data;
                                      ServiceClient.opTarget := target;
                                      ServiceClient.opTimeout := timeout;
                                      ServiceClient.opHandler := h2 |}];
                        running := true; canceled := false |};
              env := ServiceClient.addLog
                       (ServiceClient.Invoked (ServiceClient.handler st) e r)
                       started |})).
Proof.
  split; [|split; [|split]].
  - split; [|split].
    + intros; apply timeoutLambda_order; assumption.
    + intros; apply timeoutLambda_restart_idle; assumption.
    + intros; apply timeoutLambda_restart_busy; assumption.
  - split; [|split].
    + intros; apply receiveHandler_order; assumption.
    + intros; apply receiveHandler_restart_idle; assumption.
    + intros; apply receiveHandler_restart_busy; assumption.
  - split; [|split].
    + intros; apply sendHandler_invokes.
    + intros; eapply sendHandler_restart_idle; eassumption.
    + intros; eapply sendHandler_restart_busy; eassumption.
  - split; [|split; [|split]].
    + intros; apply client_exits.
    + intros; apply exitStage_invokes.
    + intros; eapply exitStage_restart_idle; eassumption.
    + intros; eapply exitStage_restart_busy; eassumption.
Qed.

End CompletionOrder.

Lemma handler_runs_after_finishOperation_witness :
  let user := fun (h : HandlerId) (_ : list (@DatagramReceiver.Event (list byte))) =>
                [DatagramReceiver.CallAsyncReceive 1000 h] in
  let st := {| DatagramReceiver.handler := 3%nat;
               DatagramReceiver.finishedNotifier := manager.newNotifier |} in
  let w := DatagramReceiver.asyncReceive 1000 3%nat
             (@DatagramReceiver.create (list byte) 512) in
  DatagramReceiver.receiveHandler user st error.success [Byte.x41] (2130706433, 4000) w
  = {| manager.mgr := {| manager.pendingOperations := None;
                         manager.running := true;
                         manager.canceled := false |};
       manager.env :=
         DatagramReceiver.asyncReceiveOperation
           {| DatagramReceiver.opTimeout := 1000; DatagramReceiver.opHandler := 3%nat |}
           (DatagramReceiver.addLog
              (DatagramReceiver.Invoked 3%nat error.success [Byte.x41]
                                        (2130706433, 4000))
              (manager.env w)) |}.
Proof.
  intros user st w.
  refine (proj1 (proj2 (proj1 (proj2
            (@handler_runs_after_finishOperation
               (list byte) (list byte) (list byte) (list byte)
               (fun _ _ => []) user (fun m => Some m) (fun _ _ => [])
               (fun m => Some m) [] 512 (fun _ _ => [])))))
            st error.success [Byte.x41] (2130706433, 4000) w 1000 3%nat []
            eq_refl eq_refl eq_refl).
Defined.

(** C9 as stated fails when an operation is pending at the completion.
    Two sends were submitted, so the second is queued; the first
    completes and its handler (7) at once submits a third. The
    notifier has started the second send before the handler ran, and
    the third is not started: it waits in the pending queue. *)
Lemma handler_start_is_queued_behind_pending :
  let encode := fun m : list byte => Some m in
  let user := fun (h : HandlerId) (_ : list DatagramSender.Event) =>
                match h with
                | 7%nat => [DatagramSender.CallAsyncSend [Byte.x43]
                              (2130706433, 10000) 1000 8%nat]
                | _ => []
                end in
  let w0 := DatagramSender.asyncSend encode [Byte.x41] (2130706433, 10000) 1000
              7%nat DatagramSender.create in
  let w1 := DatagramSender.asyncSend encode [Byte.x42] (2130706433, 10000) 1000
              9%nat w0 in
  let w2 := DatagramSender.sendCompleted encode user error.error_code_default 5 w1 in
  DatagramSender.log (manager.env w2)
  = [DatagramSender.Started [Byte.x41] (2130706433, 10000) 1000 7%nat;
     DatagramSender.Started [Byte.x42] (2130706433, 10000) 1000 9%nat;
     DatagramSender.Invoked 7%nat error.success] /\
  map DatagramSender.data (DatagramSender.outstanding (manager.env w2))
  = [[Byte.x42]] /\
  map DatagramSender.opData (manager.pendingOperations (manager.mgr w2))
  = [[Byte.x43]].
Proof.
  vm_compute. repeat split.
Qed.

(** ** The repository's tests, replayed on the model *)

(** [ConstVectorBuffer]: a window of three bytes at offset four. *)
Example test_ConstVectorBuffer :
  internal.bytes
    {| internal.buffer := [Byte.x00; Byte.x01; Byte.x02; Byte.x03;
                           Byte.x41; Byte.x42; Byte.x43; Byte.x44; Byte.x09];
       internal.numBytes := 3; internal.offset := 4 |}
  = [Byte.x41; Byte.x42; Byte.x43].
Proof. reflexivity. Qed.

(** [ClientTimeout]: the server answers too late; the deadline of the
    read closes the socket and the call handler receives [aborted]. *)
Example test_ClientTimeout :
  let encode := fun m : list byte => Some m in
  let user := fun (_ : HandlerId) (_ : list (@ServiceClient.Event (list byte))) =>
                @nil (@ServiceClient.Call (list byte)) in
  let completed := ServiceClient.completed encode message.stringDecoder [] 512 user in
  let w0 := ServiceClient.asyncCall encode 512 [Byte.x02]
              (ServiceClient.ByHost [Byte.x6c] 10001) 10 1%nat
              (@ServiceClient.create (list byte)) in
  let w1 := completed (ServiceClient.ResolveDone error.error_code_default
                         [(2130706433, 10001)]) w0 in
  let w2 := completed (ServiceClient.ConnectDone error.error_code_default) w1 in
  let w3 := completed (ServiceClient.WriteDone error.error_code_default 5) w2 in
  let w4 := ServiceClient.timedOut (ServiceClient.advance 10 w3) in
  let w5 := completed (ServiceClient.ReadDone []) w4 in
  ServiceClient.invocations w4 = [] /\
  ServiceClient.invocations w5 = [ServiceClient.Invoked 1%nat error.aborted []] /\
  manager.running (manager.mgr w5) = false.
Proof. vm_compute. repeat split. Qed.

(** [BasicService]: the response read from the stream reaches the
    handler with [success]. *)
Example test_BasicService :
  let encode := fun m : list byte => Some m in
  let user := fun (_ : HandlerId) (_ : list (@ServiceClient.Event (list byte))) =>
                @nil (@ServiceClient.Call (list byte)) in
  let completed := ServiceClient.completed encode message.stringDecoder [] 512 user in
  let w0 := ServiceClient.asyncCall encode 512 [Byte.x02]
              (ServiceClient.ByHost [Byte.x6c] 10001) 1000 1%nat
              (@ServiceClient.create (list byte)) in
  let w1 := completed (ServiceClient.ResolveDone error.error_code_default
                         [(2130706433, 10001)]) w0 in
  let w2 := completed (ServiceClient.ConnectDone error.error_code_default) w1 in
  let w3 := completed (ServiceClient.WriteDone error.error_code_default 5) w2 in
  let w4 := completed (ServiceClient.ReadDone
                         (internal.getBuffers (message.frameOf [Byte.x01; Byte.x2a])))
                      w3 in
  ServiceClient.invocations w4
  = [ServiceClient.Invoked 1%nat error.success [Byte.x01; Byte.x2a]].
Proof. vm_compute. reflexivity. Qed.

(** [PeriodicTimeout]: the handler counts five firings and cancels the
    timer from its sixth invocation; the deadlines are 10, 20, 30, ...
    although every completion is delivered late, and nothing fires
    after the cancel. *)
Example test_PeriodicTimeout :
  let user := fun (_ : HandlerId) (history : list Timer.Event) =>
                if (6 <? length history)%nat then [Timer.CallCancel] else [] in
  let fire := fun t w => Timer.deliver user (Timer.advance t w) in
  let w0 := Timer.startPeriodicTimeout 10 1%nat Timer.create in
  let w1 := fire 13 w0 in
  let w2 := fire 21 w1 in
  let w3 := fire 32 w2 in
  let w4 := fire 43 w3 in
  let w5 := fire 50 w4 in
  let w6 := fire 61 w5 in
  let w7 := fire 90 w6 in
  map (fun w => Timer.expires_at (manager.env w)) [w0; w1; w2; w3; w4; w5; w6; w7]
  = [10; 20; 30; 40; 50; 60; 60; 60] /\
  length (Timer.invocations w6) = 6%nat /\
  length (Timer.invocations w7) = 6%nat /\
  Timer.waits (manager.env w6) = [] /\
  manager.running (manager.mgr w6) = false.
Proof. vm_compute. repeat split. Qed.

(** [QueuedDatagramSending]: sends submitted back to back are started
    one at a time, in the order of submission. *)
Example test_QueuedDatagramSending :
  let encode := fun m : list byte => Some m in
  let user := fun (_ : HandlerId) (_ : list DatagramSender.Event) =>
                @nil (@DatagramSender.Call (list byte)) in
  let send := fun b w => DatagramSender.asyncSend encode [b] (2130706433, 10000)
                           1000 0%nat w in
  let done := DatagramSender.sendCompleted encode user error.error_code_default 5 in
  let w := done (done (done
             (send Byte.x02 (send Byte.x01 (send Byte.x00 DatagramSender.create))))) in
  DatagramSender.log (manager.env w)
  = [DatagramSender.Started [Byte.x00] (2130706433, 10000) 1000 0%nat;
     DatagramSender.Started [Byte.x01] (2130706433, 10000) 1000 0%nat;
     DatagramSender.Invoked 0%nat error.success;
     DatagramSender.Started [Byte.x02] (2130706433, 10000) 1000 0%nat;
     DatagramSender.Invoked 0%nat error.success;
     DatagramSender.Invoked 0%nat error.success].
Proof. vm_compute. reflexivity. Qed.

(** [MaxMessageSizeDatagramReceiver]: a payload larger than the
    receiver's [maxMessageSize] is reported as [invalidFrame]. *)
Example test_MaxMessageSizeDatagramReceiver :
  message.sendReceiveDatagram 2 [Byte.x41; Byte.x42; Byte.x43]
  = (error.invalidFrame, []).
Proof. vm_compute. reflexivity. Qed.

(** ** Utils.h: big-endian conversion at any width *)

Section BigEndianFacts.

Lemma split_top_byte (src : Z) (k : Z) :
  0 <= src -> 0 <= k ->
  src mod 2 ^ (k + 8) = (src / 2 ^ k) mod 256 * 2 ^ k + src mod 2 ^ k.
Proof.
  intros Hs Hk.
  rewrite Z.pow_add_r by lia. change (2 ^ 8) with 256.
  rewrite Z.rem_mul_r by (try apply Z.pow_nonzero; lia). lia.
Qed.

Lemma toBigEndian_loop_length (n : nat) : forall bits src,
  length (utils.toBigEndian_loop n bits src) = n.
Proof.
  induction n as [|n IH]; intros bits src; cbn; [reflexivity | now rewrite IH].
Qed.

Lemma fromBigEndian_loop_range (w : Z) (n : nat) : forall i bits bytes result,
  0 < w -> 0 <= result < 2 ^ w ->
  0 <= utils.fromBigEndian_loop w n i bits bytes result < 2 ^ w.
Proof.
  induction n as [|n IH]; intros i bits bytes result Hw Hr; cbn; [exact Hr|].
  apply IH; [exact Hw|]. unfold utils.wrap. apply Z.mod_pos_bound.
  apply Z.pow_pos_nonneg; lia.
Qed.

Lemma fromBigEndian_loop_toBigEndian_loop (w : Z) (src : Z) (k : nat) :
  forall pre post result,
    0 <= src ->
    0 <= result ->
    result + 2 ^ (8 * Z.of_nat k) <= 2 ^ w ->
    utils.fromBigEndian_loop w k (length pre) (8 * Z.of_nat k)
      (pre ++ utils.toBigEndian_loop k (8 * Z.of_nat k) src ++ post) result
    = result + src mod 2 ^ (8 * Z.of_nat k).
Proof.
  induction k as [|k IH]; intros pre post result Hs Hr Hb.
  - cbn. rewrite Z.mod_1_r. lia.
  - cbn [utils.fromBigEndian_loop utils.toBigEndian_loop].
    replace (8 * Z.of_nat (S k) - 8) with (8 * Z.of_nat k) by lia.
    set (s := 8 * Z.of_nat k) in *.
    assert (Hs0 : 0 <= s) by (subst s; lia).
    assert (Hp : 0 < 2 ^ s) by (apply Z.pow_pos_nonneg; lia).
    assert (Hstep : 2 ^ (8 * Z.of_nat (S k)) = 256 * 2 ^ s).
    { replace (8 * Z.of_nat (S k)) with (s + 8) by (subst s; lia).
      rewrite Z.pow_add_r by lia. change (2 ^ 8) with 256. lia. }
    set (b := Z.land (Z.shiftr src s) 255).
    assert (Hb256 : b = (src / 2 ^ s) mod 256).
    { subst b. change 255 with (Z.ones 8). rewrite Z.land_ones by lia.
      rewrite Z.shiftr_div_pow2 by lia. reflexivity. }
    assert (Hbr : 0 <= b < 256) by (rewrite Hb256; apply Z.mod_pos_bound; lia).
    rewrite app_nth2 by lia. rewrite Nat.sub_diag. cbn [app nth].
    rewrite byte.unsigned_of_Z. unfold byte.wrap, utils.uint8, utils.wrap.
    change (2 ^ 8) with 256.
    rewrite (Z.mod_small b 256) by lia. rewrite (Z.mod_small b 256) by lia.
    assert (H2w : 256 * 2 ^ s <= 2 ^ w) by lia.
    rewrite (Z.mod_small b (2 ^ w)) by lia.
    rewrite Z.shiftl_mul_pow2 by lia.
    rewrite (Z.mod_small (b * 2 ^ s) (2 ^ w)) by nia.
    rewrite (Z.mod_small (result + b * 2 ^ s) (2 ^ w)) by nia.
    change (byte.of_Z b :: utils.toBigEndian_loop k s src ++ post)
      with ([byte.of_Z b] ++ utils.toBigEndian_loop k s src ++ post).
    rewrite app_assoc.
    replace (S (length pre)) with (length (pre ++ [byte.of_Z b]))
      by (rewrite length_app; cbn; lia).
    rewrite IH by nia.
    replace (8 * Z.of_nat (S k)) with (s + 8) by (subst s; lia).
    rewrite (split_top_byte src s) by lia.
    rewrite <- Hb256. lia.
Qed.

End BigEndianFacts.

(** X1. For any number of bytes [numBytes] that fits the integer type
    ([8 * numBytes <= w]), reading back what [toBigEndian] wrote gives
    the value modulo [2^(8 * numBytes)]: the bytes are the low
    [numBytes] bytes of the value, most significant first, and exactly
    [numBytes] bytes are written. *)
Theorem fromBigEndian_toBigEndian_any_width (numBytes : nat) (w : Z) (src : Z) :
  0 <= src ->
  8 * Z.of_nat numBytes <= w ->
  length (utils.toBigEndian numBytes src) = numBytes /\
  utils.fromBigEndian numBytes w (utils.toBigEndian numBytes src)
  = src mod 2 ^ (8 * Z.of_nat numBytes).
Proof.
  intros Hs Hw. split.
  - apply toBigEndian_loop_length.
  - unfold utils.fromBigEndian, utils.toBigEndian.
    replace (Z.of_nat numBytes * 8) with (8 * Z.of_nat numBytes) by lia.
    pose proof (fromBigEndian_loop_toBigEndian_loop w src numBytes [] [] 0) as H.
    cbn [length app] in H. rewrite app_nil_r in H.
    rewrite H; try lia.
    rewrite Z.add_0_l. apply Z.pow_le_mono_r; lia.
Qed.

Lemma fromBigEndian_toBigEndian_any_width_witness :
  utils.fromBigEndian 2 16 (utils.toBigEndian 2 74565) = 74565 mod 2 ^ 16.
Proof.
  apply (fromBigEndian_toBigEndian_any_width 2 16 74565); vm_compute; discriminate.
Defined.

(** ** Frame.h, Socket.h, Stream.h: headers and windows *)

Section HeaderFacts.

Lemma fromBigEndian_4_value (b0 b1 b2 b3 : byte) (rest : list byte) :
  utils.fromBigEndian 4 32 (b0 :: b1 :: b2 :: b3 :: rest)
  = byte.unsigned b0 * 16777216 + byte.unsigned b1 * 65536
    + byte.unsigned b2 * 256 + byte.unsigned b3.
Proof.
  pose proof (byte.unsigned_range b0) as H0.
  pose proof (byte.unsigned_range b1) as H1.
  pose proof (byte.unsigned_range b2) as H2.
  pose proof (byte.unsigned_range b3) as H3.
  change (2 ^ 8) with 256 in *.
  unfold utils.fromBigEndian.
  cbn [utils.fromBigEndian_loop nth Z.of_nat Pos.of_succ_nat Pos.succ Z.mul
       Pos.mul Z.sub Z.add Z.opp Z.pos_sub Pos.pred_double Pos.add].
  unfold utils.wrap.
  rewrite !Z.shiftl_mul_pow2 by lia.
  change (2 ^ 32) with 4294967296. change (2 ^ 24) with 16777216.
  change (2 ^ 16) with 65536. change (2 ^ 8) with 256. change (2 ^ 0) with 1.
  rewrite (Z.mod_small (byte.unsigned b0)) by lia.
  rewrite (Z.mod_small (byte.unsigned b1)) by lia.
  rewrite (Z.mod_small (byte.unsigned b2)) by lia.
  rewrite (Z.mod_small (byte.unsigned b3)) by lia.
  rewrite (Z.mod_small (byte.unsigned b0 * 16777216)) by lia.
  rewrite (Z.mod_small (byte.unsigned b1 * 65536)) by lia.
  rewrite (Z.mod_small (byte.unsigned b2 * 256)) by lia.
  rewrite (Z.mod_small (byte.unsigned b3 * 1)) by lia.
  rewrite (Z.mod_small (0 + byte.unsigned b0 * 16777216)) by lia.
  rewrite (Z.mod_small (0 + byte.unsigned b0 * 16777216 + byte.unsigned b1 * 65536))
    by lia.
  rewrite (Z.mod_small (0 + byte.unsigned b0 * 16777216 + byte.unsigned b1 * 65536
                        + byte.unsigned b2 * 256)) by lia.
  rewrite Z.mod_small by lia. lia.
Qed.

Lemma fromBigEndian_4_range (bytes : list byte) :
  0 <= utils.fromBigEndian 4 32 bytes < 2 ^ 32.
Proof.
  unfold utils.fromBigEndian. apply fromBigEndian_loop_range; [lia|].
  change (2 ^ 32) with 4294967296. lia.
Qed.

Lemma toBigEndian_4_bytes (b0 b1 b2 b3 : byte) :
  utils.toBigEndian 4
    (byte.unsigned b0 * 16777216 + byte.unsigned b1 * 65536
     + byte.unsigned b2 * 256 + byte.unsigned b3)
  = [b0; b1; b2; b3].
Proof.
  pose proof (byte.unsigned_range b0) as H0.
  pose proof (byte.unsigned_range b1) as H1.
  pose proof (byte.unsigned_range b2) as H2.
  pose proof (byte.unsigned_range b3) as H3.
  change (2 ^ 8) with 256 in *.
  remember (byte.unsigned b0 * 16777216 + byte.unsigned b1 * 65536
            + byte.unsigned b2 * 256 + byte.unsigned b3) as n eqn:Hn.
  assert (Hb : forall (z : Z) (b : byte), z = byte.unsigned b -> byte.of_Z z = b).
  { intros z b ->. apply byte.of_Z_unsigned. }
  unfold utils.toBigEndian.
  change (Z.of_nat 4 * 8) with 32.
  cbn [utils.toBigEndian_loop].
  change (32 - 8) with 24. change (24 - 8) with 16.
  change (16 - 8) with 8. change (8 - 8) with 0.
  unfold utils.uint8, utils.wrap.
  change 255 with (Z.ones 8).
  rewrite !Z.land_ones by lia. rewrite !Z.shiftr_div_pow2 by lia.
  change (2 ^ 24) with 16777216. change (2 ^ 16) with 65536.
  change (2 ^ 8) with 256. change (2 ^ 0) with 1.
  f_equal; [apply Hb; Z.div_mod_to_equations; lia|].
  f_equal; [apply Hb; Z.div_mod_to_equations; lia|].
  f_equal; [apply Hb; Z.div_mod_to_equations; lia|].
  f_equal; apply Hb; Z.div_mod_to_equations; lia.
Qed.

End HeaderFacts.

(** X2. Any four header bytes parse to a length below [2^32], and
    writing that length with [toBigEndian<4>] reproduces the four bytes:
    the header encoding loses nothing, and two different headers never
    announce the same length. *)
Theorem toBigEndian_fromBigEndian_header (header : list byte) :
  length header = 4%nat ->
  0 <= utils.fromBigEndian 4 32 header < 2 ^ 32 /\
  utils.toBigEndian 4 (utils.fromBigEndian 4 32 header) = header /\
  (forall header' : list byte,
      length header' = 4%nat ->
      utils.fromBigEndian 4 32 header' = utils.fromBigEndian 4 32 header ->
      header' = header).
Proof.
  intros Hl.
  assert (Hback : forall h : list byte, length h = 4%nat ->
             utils.toBigEndian 4 (utils.fromBigEndian 4 32 h) = h).
  { intros h Hh. destruct h as [|b0 [|b1 [|b2 [|b3 [|b4 t]]]]]; try discriminate Hh.
    rewrite fromBigEndian_4_value. apply toBigEndian_4_bytes. }
  split; [apply fromBigEndian_4_range|]. split; [apply Hback; exact Hl|].
  intros h' Hl' Heq.
  rewrite <- (Hback h' Hl'), <- (Hback header Hl), Heq. reflexivity.
Qed.

Lemma toBigEndian_fromBigEndian_header_witness :
  utils.toBigEndian 4
    (utils.fromBigEndian 4 32 [Byte.xff; Byte.x00; Byte.x80; Byte.x7f])
  = [Byte.xff; Byte.x00; Byte.x80; Byte.x7f].
Proof.
  exact (proj1 (proj2 (toBigEndian_fromBigEndian_header
                         [Byte.xff; Byte.x00; Byte.x80; Byte.x7f] eq_refl))).
Defined.

(** X3. The frame built for a payload announces the payload's length
    modulo [2^32] (the constructor's parameter is a [std::uint32_t])
    and carries exactly that many leading bytes of the payload. Below
    [2^32] that is the whole payload; from [2^32] on, the frame is a
    well-formed frame of a proper prefix, and no error is raised. *)
Theorem frame_announces_length_mod_2_32 (p : list byte) :
  Z.of_nat (length p) < 2 ^ 64 ->
  let n := Z.of_nat (length p) mod 2 ^ 32 in
  internal.numDataBytes (message.frameOf p) = n /\
  internal.getBuffers (message.frameOf p)
  = utils.toBigEndian 4 n ++ firstn (Z.to_nat n) p /\
  internal.getSize (message.frameOf p) = 4 + n /\
  Z.of_nat (length (internal.getBuffers (message.frameOf p))) = 4 + n.
Proof.
  intros Hl n.
  assert (Hn : internal.numDataBytes (message.frameOf p) = n).
  { unfold message.frameOf, internal.mkFrame; cbn [internal.numDataBytes].
    unfold utils.size_t, utils.uint32, utils.wrap.
    rewrite (Z.mod_small (Z.of_nat (length p)) (2 ^ 64)) by lia. reflexivity. }
  assert (Hr : 0 <= n < 2 ^ 32) by (apply Z.mod_pos_bound; lia).
  assert (Hle : n <= Z.of_nat (length p)) by (apply Z.mod_le; lia).
  split; [exact Hn|].
  assert (Hb : internal.getBuffers (message.frameOf p)
               = utils.toBigEndian 4 n ++ firstn (Z.to_nat n) p).
  { unfold internal.getBuffers. rewrite Hn.
    unfold message.frameOf, internal.mkFrame; cbn [internal.header internal.data].
    f_equal. f_equal. exact Hn. }
  split; [exact Hb|]. split.
  - unfold internal.getSize. rewrite Hn. unfold utils.size_t, utils.wrap.
    apply Z.mod_small. change (2 ^ 32) with 4294967296 in Hr.
    change (2 ^ 64) with 18446744073709551616. lia.
  - rewrite Hb, length_app, length_firstn.
    change (length (utils.toBigEndian 4 n)) with 4%nat. lia.
Qed.

Lemma frame_announces_length_mod_2_32_witness :
  internal.getSize (message.frameOf [Byte.x41; Byte.x42]) = 4 + 2 mod 2 ^ 32.
Proof.
  refine (proj1 (proj2 (proj2
            (frame_announces_length_mod_2_32 [Byte.x41; Byte.x42] _)))).
  reflexivity.
Defined.

(** ** Socket.h, Stream.h: what a receive hands to the decoder *)

Section ReceiveFacts.

Lemma receive_from_length (v d : list byte) :
  length (fst (asio.receive_from v d)) = length v /\
  snd (asio.receive_from v d) = Z.of_nat (Nat.min (length v) (length d)).
Proof.
  unfold asio.receive_from; cbn [fst snd]. split; [|reflexivity].
  rewrite length_app, length_firstn, length_skipn. lia.
Qed.

Lemma numDataBytesFromBuffer_Some (buffer : list byte) (n numDataBytes : Z) :
  socket.numDataBytesFromBuffer buffer n = Some numDataBytes ->
  numDataBytes = utils.fromBigEndian 4 32 buffer /\
  0 <= numDataBytes /\ 4 + numDataBytes <= n.
Proof.
  unfold socket.numDataBytesFromBuffer.
  pose proof (fromBigEndian_4_range buffer) as Hr.
  change (2 ^ 32) with 4294967296 in Hr.
  destruct (n <? 4) eqn:E1; [discriminate|].
  destruct (n <? utils.size_t (4 + utils.fromBigEndian 4 32 buffer)) eqn:E2;
    [discriminate|].
  intros H; injection H as <-.
  apply Z.ltb_ge in E2. unfold utils.size_t, utils.wrap in E2.
  rewrite Z.mod_small in E2
    by (change (2 ^ 64) with 18446744073709551616; lia).
  repeat split; lia.
Qed.

Lemma window_of_prefix (d rest : list byte) (n k : nat) :
  (4 + k <= n)%nat -> (n <= length d)%nat ->
  firstn k (skipn 4 (firstn n d ++ rest)) = firstn k (skipn 4 d).
Proof.
  intros Hk Hn.
  rewrite skipn_app, firstn_app.
  rewrite length_skipn, length_firstn.
  replace (k - (Nat.min n (length d) - 4))%nat with 0%nat by lia.
  cbn [firstn]. rewrite app_nil_r.
  rewrite <- (firstn_skipn n d) at 2.
  rewrite skipn_app, firstn_app, length_skipn, length_firstn.
  replace (k - (Nat.min n (length d) - 4))%nat with 0%nat by lia.
  cbn [firstn]. now rewrite app_nil_r.
Qed.

End ReceiveFacts.

(** X4. Whatever datagram arrives in whatever buffer, the window that
    [asyncReceiveFrom] hands to its handler lies inside the bytes just
    transferred: the constructor check of [ConstVectorBuffer] holds,
    and the bytes the decoder sees are bytes of this datagram, never
    what an earlier datagram left in the buffer. *)
Theorem receive_window_within_datagram
        (buffer datagram : list byte) (error : error.Error) :
  let received := asio.receive_from buffer datagram in
  let window :=
    snd (socket.asyncReceiveFrom_completion (fst received) error (snd received)) in
  0 <= internal.offset window /\
  0 <= internal.numBytes window /\
  internal.offset window + internal.numBytes window <= snd received /\
  snd received <= Z.of_nat (length (internal.buffer window)) /\
  internal.bytes window
  = firstn (Z.to_nat (internal.numBytes window))
           (skipn (Z.to_nat (internal.offset window)) datagram).
Proof.
  intros received window.
  destruct (receive_from_length buffer datagram) as [Hlen Hn].
  fold received in Hlen, Hn.
  assert (Hbuf : internal.buffer window = fst received).
  { subst window. unfold socket.asyncReceiveFrom_completion.
    destruct (error.to_bool error); [reflexivity|].
    destruct (socket.numDataBytesFromBuffer (fst received) (snd received));
      reflexivity. }
  assert (Hle : snd received <= Z.of_nat (length (internal.buffer window)))
    by (rewrite Hbuf, Hlen, Hn; lia).
  subst window. unfold socket.asyncReceiveFrom_completion in *.
  destruct (error.to_bool error).
  { cbn [snd internal.offset internal.numBytes internal.bytes] in *.
    repeat split; try lia; try exact Hle; try reflexivity. }
  destruct (socket.numDataBytesFromBuffer (fst received) (snd received))
    as [numDataBytes|] eqn:E.
  2:{ cbn [snd internal.offset internal.numBytes] in *.
      repeat split; try lia; try exact Hle; try reflexivity. }
  apply numDataBytesFromBuffer_Some in E. destruct E as (_ & H0 & H4).
  cbn [snd internal.offset internal.numBytes internal.buffer] in *.
  unfold internal.HEADER_SIZE.
  repeat split; try lia.
  unfold internal.bytes; cbn [internal.offset internal.numBytes internal.buffer].
  change (Z.to_nat internal.HEADER_SIZE) with 4%nat. change (Z.to_nat 4) with 4%nat.
  subst received. unfold asio.receive_from in *. cbn [fst snd] in *.
  apply window_of_prefix; lia.
Qed.

Section Oversize.
Context {Message : Type}.
Variable decode : internal.ConstBuffer -> option Message.
Variable defaultMessage : Message.
Variable maxMessageSize : Z.
Variable p : list byte.
Hypothesis Hmax0 : 0 <= maxMessageSize.
Hypothesis Hcap : maxMessageSize + internal.HEADER_SIZE < 2 ^ 64.
Hypothesis Hlen : Z.of_nat (length p) < 2 ^ 32.

Lemma header_length (n : Z) : length (utils.toBigEndian 4 n) = 4%nat.
Proof. reflexivity. Qed.

Lemma frame_wire :
  internal.getBuffers (message.frameOf p)
  = utils.toBigEndian 4 (Z.of_nat (length p)) ++ p.
Proof. apply frameOf_getBuffers. exact Hlen. Qed.

Lemma capacity_value :
  utils.size_t (maxMessageSize + internal.HEADER_SIZE) = maxMessageSize + 4.
Proof.
  unfold utils.size_t, utils.wrap, internal.HEADER_SIZE in *.
  apply Z.mod_small. lia.
Qed.

Hypothesis Hover : maxMessageSize < Z.of_nat (length p).

Lemma oversize_datagram :
  exists window : internal.ConstBuffer,
    internal.numBytes window = 0 /\
    fst (message.asyncReceiveDatagram decode defaultMessage true
           (message.receiverBuffer maxMessageSize) error.error_code_default
           (internal.getBuffers (message.frameOf p)))
    = match decode window with
      | Some m => (error.invalidFrame, m)
      | None => (error.decoding, defaultMessage)
      end.
Proof.
  unfold message.asyncReceiveDatagram.
  set (wire := internal.getBuffers (message.frameOf p)).
  assert (Hwire : wire = utils.toBigEndian 4 (Z.of_nat (length p)) ++ p)
    by apply frame_wire.
  assert (Hwl : length wire = (4 + length p)%nat)
    by (rewrite Hwire, length_app; reflexivity).
  destruct (asio.receive_from (message.receiverBuffer maxMessageSize) wire)
    as [buf n] eqn:E.
  assert (Hn : n = maxMessageSize + 4).
  { pose proof (receive_from_length (message.receiverBuffer maxMessageSize)
                  wire) as [_ H].
    rewrite E in H. cbn [snd] in H. rewrite H.
    unfold message.receiverBuffer. rewrite repeat_length, capacity_value, Hwl.
    lia. }
  assert (Hb : utils.fromBigEndian 4 32 buf = Z.of_nat (length p)).
  { assert (Hbuf : buf = fst (asio.receive_from
                                (message.receiverBuffer maxMessageSize) wire))
      by (rewrite E; reflexivity).
    rewrite Hbuf. unfold asio.receive_from. cbn [fst].
    unfold message.receiverBuffer. rewrite repeat_length, capacity_value, Hwl.
    replace (Nat.min (Z.to_nat (maxMessageSize + 4)) (4 + length p))
      with (4 + Z.to_nat maxMessageSize)%nat by lia.
    rewrite Hwire, firstn_app, header_length.
    rewrite firstn_all2 by (rewrite header_length; lia).
    rewrite <- app_assoc.
    rewrite fromBigEndian_4_app by reflexivity.
    apply fromBigEndian_toBigEndian. lia. }
  unfold socket.asyncReceiveFrom_completion.
  change (error.to_bool (closeable.completionError true error.error_code_default))
    with false. cbv iota.
  assert (Hnone : socket.numDataBytesFromBuffer buf n = None).
  { unfold socket.numDataBytesFromBuffer. rewrite Hb, Hn.
    replace (maxMessageSize + 4 <? 4) with false
      by (symmetry; apply Z.ltb_ge; lia).
    unfold utils.size_t, utils.wrap.
    rewrite Z.mod_small
      by (change (2 ^ 32) with 4294967296 in Hlen;
          change (2 ^ 64) with 18446744073709551616; lia).
    replace (maxMessageSize + 4 <? 4 + Z.of_nat (length p)) with true
      by (symmetry; apply Z.ltb_lt; lia).
    reflexivity. }
  rewrite Hnone.
  eexists. split; [|cbn [fst]; unfold message.asyncReceiveDatagram_handler;
                    reflexivity].
  reflexivity.
Qed.

Lemma oversize_stream :
  exists window : internal.ConstBuffer,
    internal.numBytes window = 0 /\
    message.asyncReceive decode defaultMessage true
      (message.serviceBuffer maxMessageSize)
      (internal.getBuffers (message.frameOf p))
    = (match decode window with
       | Some m => (error.invalidFrame, m)
       | None => (error.decoding, defaultMessage)
       end,
       message.serviceBuffer maxMessageSize).
Proof.
  unfold message.asyncReceive, stream.asyncRead.
  rewrite frame_wire.
  assert (H1 : asio.read_exactly internal.HEADER_SIZE
                 (message.serviceBuffer maxMessageSize)
                 (utils.toBigEndian 4 (Z.of_nat (length p)) ++ p)
               = ({| asio.contents := utils.toBigEndian 4 (Z.of_nat (length p));
                     asio.max_size := maxMessageSize + 4 |},
                  p, error.error_code_default, 4)).
  { unfold asio.read_exactly, message.serviceBuffer.
    cbn [asio.contents asio.max_size length].
    rewrite capacity_value. unfold internal.HEADER_SIZE.
    replace (Z.to_nat (Z.min 4 (Z.max 0 (maxMessageSize + 4 - Z.of_nat 0))))
      with (length (utils.toBigEndian 4 (Z.of_nat (length p))))
      by (rewrite header_length; lia).
    rewrite firstn_app, firstn_all, Nat.sub_diag, skipn_app, skipn_all, Nat.sub_diag.
    cbn [firstn skipn app]. rewrite app_nil_r.
    replace (length (utils.toBigEndian 4 (Z.of_nat (length p)) ++ p)
             <? length (utils.toBigEndian 4 (Z.of_nat (length p))))%nat
      with false by (symmetry; apply Nat.ltb_ge; rewrite length_app; lia).
    rewrite header_length. reflexivity. }
  rewrite H1.
  change (error.to_bool (closeable.completionError true error.error_code_default))
    with false.
  cbv iota. rewrite Z.eqb_refl. cbn [negb].
  unfold stream.numDataBytesFromBuffer. cbn [asio.contents].
  change (firstn (Z.to_nat internal.HEADER_SIZE)
                 (utils.toBigEndian 4 (Z.of_nat (length p))))
    with (utils.toBigEndian 4 (Z.of_nat (length p))).
  rewrite fromBigEndian_toBigEndian by lia.
  replace (Z.of_nat (length p) =? 0) with false
    by (symmetry; apply Z.eqb_neq; lia).
  assert (H2 : asio.read_exactly (Z.of_nat (length p))
                 {| asio.contents := utils.toBigEndian 4 (Z.of_nat (length p));
                    asio.max_size := maxMessageSize + 4 |} p
               = ({| asio.contents := utils.toBigEndian 4 (Z.of_nat (length p))
                                      ++ firstn (Z.to_nat maxMessageSize) p;
                     asio.max_size := maxMessageSize + 4 |},
                  skipn (Z.to_nat maxMessageSize) p,
                  error.error_code_default, maxMessageSize)).
  { unfold asio.read_exactly. cbn [asio.contents asio.max_size].
    rewrite header_length.
    replace (Z.to_nat (Z.min (Z.of_nat (length p))
                             (Z.max 0 (maxMessageSize + 4 - Z.of_nat 4))))
      with (Z.to_nat maxMessageSize) by lia.
    replace (length p <? Z.to_nat maxMessageSize)%nat with false
      by (symmetry; apply Nat.ltb_ge; lia).
    rewrite length_firstn.
    replace (Z.of_nat (Nat.min (Z.to_nat maxMessageSize) (length p)))
      with maxMessageSize by lia.
    reflexivity. }
  rewrite H2.
  unfold stream.asyncRead_data_completion.
  change (error.to_bool (closeable.completionError true error.error_code_default))
    with false.
  cbv iota.
  replace (maxMessageSize =? Z.of_nat (length p)) with false
    by (symmetry; apply Z.eqb_neq; lia).
  cbn [negb].
  eexists. split; [|unfold message.asyncReceive_handler; f_equal].
  - reflexivity.
  - unfold asio.consume, message.serviceBuffer.
    cbn [asio.contents asio.max_size]. rewrite capacity_value. f_equal.
    apply skipn_all2. rewrite length_app, header_length, length_firstn.
    unfold internal.HEADER_SIZE. lia.
Qed.

End Oversize.

(** X5. A datagram whose payload is longer than the receiver's
    [maxMessageSize] is cut to the receive buffer by the socket; the
    length check of [numDataBytesFromBuffer] then fails, so the
    decoder is run on an empty window and the handler gets
    [invalidFrame] with the decoder's result for it, or [decoding]
    with the default message when the decoder rejects the empty
    window. A string receiver reports [invalidFrame] and the empty
    string. *)
Theorem oversize_datagram_is_invalidFrame
        {Message : Type} (decode : internal.ConstBuffer -> option Message)
        (defaultMessage : Message) (maxMessageSize : Z) (p : list byte) :
  0 <= maxMessageSize ->
  maxMessageSize + internal.HEADER_SIZE < 2 ^ 64 ->
  maxMessageSize < Z.of_nat (length p) < 2 ^ 32 ->
  (exists window : internal.ConstBuffer,
      internal.numBytes window = 0 /\
      fst (message.asyncReceiveDatagram decode defaultMessage true
             (message.receiverBuffer maxMessageSize) error.error_code_default
             (internal.getBuffers (message.frameOf p)))
      = match decode window with
        | Some m => (error.invalidFrame, m)
        | None => (error.decoding, defaultMessage)
        end) /\
  message.sendReceiveDatagram maxMessageSize p = (error.invalidFrame, []).
Proof.
  intros H0 Hcap [Hover Hlen]. split.
  - apply oversize_datagram; assumption.
  - unfold message.sendReceiveDatagram.
    destruct (oversize_datagram message.stringDecoder [] maxMessageSize p
                H0 Hcap Hlen Hover) as (window & Hw & ->).
    unfold message.stringDecoder, internal.bytes. rewrite Hw. reflexivity.
Qed.

Lemma oversize_datagram_is_invalidFrame_witness :
  message.sendReceiveDatagram 2 [Byte.x41; Byte.x42; Byte.x43]
  = (error.invalidFrame, []).
Proof.
  refine (proj2 (oversize_datagram_is_invalidFrame message.stringDecoder []
                   2 [Byte.x41; Byte.x42; Byte.x43] _ _ _)).
  - vm_compute; discriminate.
  - vm_compute; reflexivity.
  - split; vm_compute; reflexivity.
Defined.

(** X6. A framed message on a stream whose payload is longer than the
    reader's [maxMessageSize] fills the stream buffer before the
    announced count arrives; the payload read then completes short
    and without a transport error, the handler gets [invalidFrame]
    (or [decoding] when the decoder rejects the empty window), and
    everything read is consumed, so the buffer is empty again. *)
Theorem oversize_stream_is_invalidFrame
        {Message : Type} (decode : internal.ConstBuffer -> option Message)
        (defaultMessage : Message) (maxMessageSize : Z) (p : list byte) :
  0 <= maxMessageSize ->
  maxMessageSize + internal.HEADER_SIZE < 2 ^ 64 ->
  maxMessageSize < Z.of_nat (length p) < 2 ^ 32 ->
  (exists window : internal.ConstBuffer,
      internal.numBytes window = 0 /\
      message.asyncReceive decode defaultMessage true
        (message.serviceBuffer maxMessageSize)
        (internal.getBuffers (message.frameOf p))
      = (match decode window with
         | Some m => (error.invalidFrame, m)
         | None => (error.decoding, defaultMessage)
         end,
         message.serviceBuffer maxMessageSize)) /\
  message.sendReceiveStream maxMessageSize p = (error.invalidFrame, []).
Proof.
  intros H0 Hcap [Hover Hlen]. split.
  - apply oversize_stream; assumption.
  - unfold message.sendReceiveStream.
    destruct (oversize_stream message.stringDecoder [] maxMessageSize p
                H0 Hcap Hlen Hover) as (window & Hw & ->).
    unfold message.stringDecoder, internal.bytes. rewrite Hw. reflexivity.
Qed.

Lemma oversize_stream_is_invalidFrame_witness :
  message.sendReceiveStream 2 [Byte.x41; Byte.x42; Byte.x43]
  = (error.invalidFrame, []).
Proof.
  refine (proj2 (oversize_stream_is_invalidFrame message.stringDecoder []
                   2 [Byte.x41; Byte.x42; Byte.x43] _ _ _)).
  - vm_compute; discriminate.
  - vm_compute; reflexivity.
  - split; vm_compute; reflexivity.
Defined.

(** ** Stream.h: the stream buffer across a read *)

(** X7. [asyncRead] consumes exactly what it read. Started on an empty
    stream buffer it leaves the buffer empty in every outcome (closed
    stream, transport error, short header, empty payload, short
    payload, complete frame), so the next read of the same buffer
    finds its header at the front again. *)
Theorem asyncRead_leaves_buffer_empty
        (isOpen : bool) (sb : asio.streambuf) (wire : list byte) :
  asio.contents sb = [] ->
  asio.contents (snd (stream.asyncRead isOpen sb wire)) = [] /\
  asio.max_size (snd (stream.asyncRead isOpen sb wire)) = asio.max_size sb.
Proof.
  intros Hempty.
  unfold stream.asyncRead, asio.read_exactly.
  rewrite Hempty. cbn [asio.contents asio.max_size app length].
  set (got1 := firstn (Z.to_nat (Z.min internal.HEADER_SIZE
                                   (Z.max 0 (asio.max_size sb - Z.of_nat 0)))) wire).
  assert (Hc1 : asio.consume (Z.of_nat (length got1))
                  {| asio.contents := got1; asio.max_size := asio.max_size sb |}
                = {| asio.contents := []; asio.max_size := asio.max_size sb |}).
  { unfold asio.consume. cbn [asio.contents asio.max_size]. f_equal.
    apply skipn_all2. lia. }
  destruct (error.to_bool (closeable.completionError isOpen _)).
  { cbn [snd]. rewrite Hc1. split; reflexivity. }
  destruct (Z.of_nat (length got1) =? internal.HEADER_SIZE) eqn:E1; cbn [negb].
  2:{ cbn [snd]. rewrite Hc1. split; reflexivity. }
  destruct (stream.numDataBytesFromBuffer _ =? 0).
  { cbn [snd]. rewrite Hc1. split; reflexivity. }
  apply Z.eqb_eq in E1.
  unfold stream.asyncRead_data_completion.
  match goal with
  | |- context [firstn ?k (skipn ?j wire)] => set (got2 := firstn k (skipn j wire))
  end.
  assert (Hc2 : asio.consume (internal.HEADER_SIZE + Z.of_nat (length got2))
                  {| asio.contents := got1 ++ got2;
                     asio.max_size := asio.max_size sb |}
                = {| asio.contents := []; asio.max_size := asio.max_size sb |}).
  { unfold asio.consume. cbn [asio.contents asio.max_size]. f_equal.
    apply skipn_all2. rewrite length_app. unfold internal.HEADER_SIZE in *. lia. }
  destruct (error.to_bool (closeable.completionError isOpen _)).
  { cbn [snd]. rewrite Hc2. split; reflexivity. }
  destruct (negb _); cbn [snd]; rewrite Hc2; split; reflexivity.
Qed.

Lemma asyncRead_leaves_buffer_empty_witness :
  asio.contents
    (snd (stream.asyncRead true (message.serviceBuffer 8)
            [Byte.x00; Byte.x00; Byte.x00; Byte.x02; Byte.x41])) = [].
Proof.
  refine (proj1 (asyncRead_leaves_buffer_empty true (message.serviceBuffer 8)
                   [Byte.x00; Byte.x00; Byte.x00; Byte.x02; Byte.x41] _)).
  reflexivity.
Defined.

(** X8. A peer that closes the stream before the whole frame has
    arrived: for a payload within [maxMessageSize], any proper prefix
    of the frame (cut inside the header or inside the payload) makes
    [asyncRead] report [failedOperation] carrying the transport's
    end-of-file code; a cut frame is never delivered as a shorter
    message. *)
Theorem truncated_frame_is_failedOperation
        (maxMessageSize : Z) (p : list byte) (k : nat) :
  Z.of_nat (length p) <= maxMessageSize ->
  maxMessageSize + internal.HEADER_SIZE < 2 ^ 64 ->
  Z.of_nat (length p) < 2 ^ 32 ->
  (k < 4 + length p)%nat ->
  fst (fst (stream.asyncRead true (message.serviceBuffer maxMessageSize)
              (firstn k (internal.getBuffers (message.frameOf p)))))
  = {| error.asionetCode := error.codes.failedOperation;
       error.boostCode := asio.eof |}.
Proof.
  intros Hmax Hcap Hlen Hk.
  rewrite (frameOf_getBuffers p Hlen).
  set (h := utils.toBigEndian 4 (Z.of_nat (length p))).
  assert (Hh : length h = 4%nat) by reflexivity.
  assert (Hsz : utils.size_t (maxMessageSize + internal.HEADER_SIZE)
                = maxMessageSize + 4).
  { unfold utils.size_t, utils.wrap, internal.HEADER_SIZE in *.
    apply Z.mod_small. lia. }
  unfold stream.asyncRead, asio.read_exactly, message.serviceBuffer.
  cbn [asio.contents asio.max_size app length]. rewrite Hsz.
  unfold internal.HEADER_SIZE.
  replace (Z.to_nat (Z.min 4 (Z.max 0 (maxMessageSize + 4 - Z.of_nat 0))))
    with 4%nat by lia.
  assert (Hwl : length (firstn k (h ++ p)) = k)
    by (rewrite length_firstn, length_app, Hh; lia).
  rewrite Hwl.
  destruct (k <? 4)%nat eqn:Ek.
  { reflexivity. }
  apply Nat.ltb_ge in Ek.
  change (error.to_bool (closeable.completionError true error.error_code_default))
    with false. cbv iota.
  assert (Hg : firstn 4 (firstn k (h ++ p)) = h).
  { rewrite firstn_firstn. replace (Nat.min 4 k) with 4%nat by lia.
    rewrite firstn_app, Hh. replace (4 - 4)%nat with 0%nat by lia.
    rewrite firstn_O, app_nil_r. apply firstn_all2. lia. }
  rewrite Hg, Hh. change (Z.of_nat 4 =? 4) with true. cbn [negb].
  unfold stream.numDataBytesFromBuffer. cbn [asio.contents].
  assert (Hnd : utils.fromBigEndian 4 32
                  (firstn (Z.to_nat internal.HEADER_SIZE) h)
                = Z.of_nat (length p))
    by (apply fromBigEndian_toBigEndian; lia).
  rewrite !Hnd.
  replace (Z.of_nat (length p) =? 0) with false
    by (symmetry; apply Z.eqb_neq; lia).
  replace (Z.to_nat (Z.min (Z.of_nat (length p))
                           (Z.max 0 (maxMessageSize + 4 - Z.of_nat 4))))
    with (length p) by lia.
  assert (Hrest : length (skipn 4 (firstn k (h ++ p))) = (k - 4)%nat)
    by (rewrite length_skipn, Hwl; reflexivity).
  rewrite Hrest.
  replace (k - 4 <? length p)%nat with true
    by (symmetry; apply Nat.ltb_lt; lia).
  reflexivity.
Qed.

Lemma truncated_frame_is_failedOperation_witness :
  fst (fst (stream.asyncRead true (message.serviceBuffer 8)
              (firstn 5 (internal.getBuffers
                           (message.frameOf [Byte.x41; Byte.x42])))))
  = {| error.asionetCode := error.codes.failedOperation;
       error.boostCode := asio.eof |}.
Proof.
  apply (truncated_frame_is_failedOperation 8 [Byte.x41; Byte.x42] 5).
  - vm_compute; discriminate.
  - vm_compute; reflexivity.
  - vm_compute; reflexivity.
  - cbn; lia.
Defined.

(** ** AsyncOperationManager.h: cancelling, and the replacer policy *)

Section CancelFacts.
Import manager.
Context {Op Env : Type}.
Variable invoke : Op -> Env -> Env.
Variable cancelingOperation : Env -> Env.

Lemma finishOperations_queue_drained (k : nat) (e : Env) :
  finishOperations invoke k
    ({| mgr := {| pendingOperations := @nil Op; running := false;
                  canceled := false |};
        env := e |} : World PendingOperationQueue Op Env)
  = {| mgr := {| pendingOperations := []; running := false; canceled := false |};
       env := e |}.
Proof.
  induction k as [|k IH]; [reflexivity|].
  cbn [finishOperations]. rewrite finishOperation_queue. cbn. exact IH.
Qed.

Lemma finishOperations_replacer_drained (k : nat) (e : Env) :
  finishOperations invoke k
    ({| mgr := {| pendingOperations := @None Op; running := false;
                  canceled := false |};
        env := e |} : World PendingOperationReplacer Op Env)
  = {| mgr := {| pendingOperations := None; running := false; canceled := false |};
       env := e |}.
Proof.
  induction k as [|k IH]; [reflexivity|].
  cbn [finishOperations]. exact IH.
Qed.

(** Under the replacer policy each start on a running manager runs
    the canceling operation and overwrites the pending record. *)
Lemma startOperations_replacer (ops : list Op) :
  forall w : World PendingOperationReplacer Op Env,
    running (mgr w) = true ->
    startOperations invoke cancelingOperation ops w
    = {| mgr := {| pendingOperations :=
                     match rev ops with
                     | [] => pendingOperations (mgr w)
                     | newest :: _ => Some newest
                     end;
                   running := true;
                   canceled := canceled (mgr w) |};
         env := Nat.iter (length ops) cancelingOperation (env w) |}.
Proof.
  induction ops as [|op ops IH]; intros w Hr.
  - destruct w as [[q r c] e]; cbn in *. subst r. reflexivity.
  - unfold startOperations in *. cbn [fold_left].
    rewrite IH by (destruct w as [[q r c] e]; cbn in *; subst r; reflexivity).
    destruct w as [[q r c] e]; cbn in Hr; subst r.
    cbn [startOperation mgr env running canceled pendingOperations negb
         shouldCancel replacer onEnv setPending pushPendingOperation length rev].
    f_equal.
    + f_equal. destruct (rev ops) as [|x xs] eqn:E; cbn [app]; reflexivity.
    + cbn [Nat.iter nat_rect]. symmetry. apply Nat.iter_succ_r.
Qed.

End CancelFacts.

(** X9. [cancelOperation] discards every pending operation, under
    both container policies: whatever the manager held, after a
    cancel any number of [finishOperation] calls (at least one)
    invokes no operation at all. The owner's state has only seen the
    canceling operation, and the manager is back in its initial
    state, [canceled] cleared. *)
Theorem cancelOperation_discards_pending
        {Op Env : Type} (invoke : Op -> Env -> Env) (cancelingOperation : Env -> Env)
        (k : nat) :
  (forall w : manager.World manager.PendingOperationQueue Op Env,
      manager.finishOperations invoke (S k)
        (manager.cancelOperation cancelingOperation w)
      = manager.initial (cancelingOperation (manager.env w))) /\
  (forall w : manager.World manager.PendingOperationReplacer Op Env,
      manager.finishOperations invoke (S k)
        (manager.cancelOperation cancelingOperation w)
      = manager.initial (cancelingOperation (manager.env w))).
Proof.
  split; intros [[q r c] e]; cbn [manager.finishOperations].
  - rewrite finishOperation_queue. cbn.
    apply finishOperations_queue_drained.
  - cbn. apply finishOperations_replacer_drained.
Qed.

(** X10. Under the replacer policy, of the operations started while
    one is running only the most recent is kept: the canceling
    operation runs once per such start, the next [finishOperation]
    invokes the most recent record and nothing else, and the one
    after that finds nothing pending and stops the manager. *)
Theorem PendingOperationReplacer_keeps_newest
        {Op Env : Type} (invoke : Op -> Env -> Env) (cancelingOperation : Env -> Env)
        (w : manager.World manager.PendingOperationReplacer Op Env)
        (ops : list Op) (newest : Op) :
  manager.running (manager.mgr w) = true ->
  let w1 := manager.startOperations invoke cancelingOperation (ops ++ [newest]) w in
  let canceledEnv := Nat.iter (S (length ops)) cancelingOperation (manager.env w) in
  manager.pendingOperations (manager.mgr w1) = Some newest /\
  manager.env w1 = canceledEnv /\
  manager.finishOperation invoke w1
  = {| manager.mgr := {| manager.pendingOperations := None;
                         manager.running := true;
                         manager.canceled := false |};
       manager.env := invoke newest canceledEnv |} /\
  manager.finishOperations invoke 2 w1
  = manager.initial (invoke newest canceledEnv).
Proof.
  intros Hr w1 canceledEnv.
  assert (H1 : w1 = {| manager.mgr :=
                         {| manager.pendingOperations := Some newest;
                            manager.running := true;
                            manager.canceled := manager.canceled (manager.mgr w) |};
                       manager.env := canceledEnv |}).
  { subst w1 canceledEnv. rewrite startOperations_replacer by exact Hr.
    rewrite rev_app_distr, length_app. cbn [rev app length].
    replace (length ops + 1)%nat with (S (length ops)) by lia. reflexivity. }
  rewrite H1. repeat split.
Qed.

Lemma PendingOperationReplacer_keeps_newest_witness :
  let invoke := fun (op : nat) (trace : list nat) => trace ++ [op] in
  let cancelingOperation := fun trace : list nat => trace ++ [0%nat] in
  let w := manager.startOperation invoke cancelingOperation 1%nat
             (manager.initial []) in
  manager.env (manager.finishOperations invoke 2
                 (manager.startOperations invoke cancelingOperation
                    [2; 3; 4]%nat w))
  = [1; 0; 0; 0; 4]%nat.
Proof.
  intros invoke cancelingOperation w.
  pose proof (PendingOperationReplacer_keeps_newest invoke cancelingOperation w
                [2; 3]%nat 4%nat eq_refl) as H.
  cbv zeta in H. destruct H as (_ & _ & _ & H).
  change ([2; 3] ++ [4])%nat with [2; 3; 4]%nat in H.
  rewrite H. reflexivity.
Defined.

(** ** Timer.h: the one-shot timeout *)

Section TimerOneShot.
Import manager.
Variable user : HandlerId -> list Timer.Event -> list Timer.Call.

Local Abbreviation World := (World PendingOperationReplacer Timer.Op Timer.Env).

Lemma timer_invokeHandler_invocations h (w : World) :
  Timer.invocations (Timer.invokeHandler user h w)
  = Timer.invocations w ++ [Timer.Invoked h].
Proof.
  unfold Timer.invokeHandler.
  match goal with
  | |- context [fold_left _ ?cs ?w1] =>
      destruct (timer_runCalls_extends cs w1) as (_ & _ & _ & Hi)
  end.
  rewrite Hi. destruct w as [m [n x ws l]].
  unfold Timer.invocations; cbn. rewrite filter_app. reflexivity.
Qed.

Lemma invocations_started (m m' : Manager PendingOperationReplacer Timer.Op)
      n n' x x' ws ws' l ev :
  (match ev with Timer.Invoked _ => false | _ => true end) = true ->
  Timer.invocations
    ({| mgr := m; env := {| Timer.now := n; Timer.expires_at := x;
                            Timer.waits := ws; Timer.log := l ++ [ev] |} |} : World)
  = Timer.invocations
      ({| mgr := m'; env := {| Timer.now := n'; Timer.expires_at := x';
                               Timer.waits := ws'; Timer.log := l |} |} : World).
Proof.
  intros Hev. unfold Timer.invocations; cbn. rewrite filter_app. cbn.
  destruct ev; [|discriminate]. apply app_nil_r.
Qed.

(** The world in which a one-shot timeout started on an idle timer
    is waiting, at clock reading [nowTime]. *)
Lemma startTimeout_idle d h (w : World) :
  running (mgr w) = false ->
  Timer.waits (env w) = [] ->
  Timer.startTimeout d h w
  = {| mgr := {| pendingOperations := pendingOperations (mgr w);
                 running := true; canceled := canceled (mgr w) |};
       env := {| Timer.now := Timer.now (env w);
                 Timer.expires_at := Timer.now (env w) + d;
                 Timer.waits :=
                   [{| Timer.kind := Timer.TimeoutWait;
                       Timer.state := {| Timer.handler := h; Timer.duration := d;
                                         Timer.notifier := newNotifier |};
                       Timer.status := Timer.Pending |}];
                 Timer.log := Timer.log (env w) ++ [Timer.Started false d h] |} |}.
Proof.
  intros Hr Hw. destruct w as [[p r cd] [n x ws l]]. cbn in Hr, Hw. subst r ws.
  reflexivity.
Qed.

Lemma startPeriodicTimeout_idle_world d h (w : World) :
  running (mgr w) = false ->
  Timer.waits (env w) = [] ->
  Timer.startPeriodicTimeout d h w
  = {| mgr := {| pendingOperations := pendingOperations (mgr w);
                 running := true; canceled := canceled (mgr w) |};
       env := {| Timer.now := Timer.now (env w);
                 Timer.expires_at := Timer.now (env w) + d;
                 Timer.waits :=
                   [{| Timer.kind := Timer.PeriodicWait;
                       Timer.state := {| Timer.handler := h; Timer.duration := d;
                                         Timer.notifier := newNotifier |};
                       Timer.status := Timer.Pending |}];
                 Timer.log := Timer.log (env w) ++ [Timer.Started true d h] |} |}.
Proof.
  intros Hr Hw. destruct w as [[p r cd] [n x ws l]]. cbn in Hr, Hw. subst r ws.
  reflexivity.
Qed.

(** One pending wait under [advance]. *)
Lemma advance_single t m n x k st l :
  Timer.advance t
    ({| mgr := m;
        env := {| Timer.now := n; Timer.expires_at := x;
                  Timer.waits := [{| Timer.kind := k; Timer.state := st;
                                     Timer.status := Timer.Pending |}];
                  Timer.log := l |} |} : World)
  = {| mgr := m;
       env := {| Timer.now := Z.max n t; Timer.expires_at := x;
                 Timer.waits :=
                   [{| Timer.kind := k; Timer.state := st;
                       Timer.status := if x <=? Z.max n t
                                       then Timer.Expired else Timer.Pending |}];
                 Timer.log := l |} |}.
Proof. reflexivity. Qed.

Lemma one_shot_before d h t (w : World) :
  running (mgr w) = false ->
  Timer.waits (env w) = [] ->
  0 < d -> t < Timer.now (env w) + d ->
  Timer.deliver user (Timer.advance t (Timer.startTimeout d h w))
  = Timer.advance t (Timer.startTimeout d h w).
Proof.
  intros Hr Hw Hd Ht. rewrite startTimeout_idle by assumption.
  rewrite advance_single.
  replace (Timer.now (env w) + d <=? Z.max (Timer.now (env w)) t) with false
    by (symmetry; apply Z.leb_gt; lia).
  reflexivity.
Qed.

Lemma one_shot_at d h t (w : World) :
  mgr w = {| pendingOperations := None; running := false; canceled := false |} ->
  Timer.waits (env w) = [] ->
  Timer.now (env w) + d <= t ->
  Timer.deliver user (Timer.advance t (Timer.startTimeout d h w))
  = Timer.invokeHandler user h
      {| mgr := mgr w;
         env := {| Timer.now := Z.max (Timer.now (env w)) t;
                   Timer.expires_at := Timer.now (env w) + d;
                   Timer.waits := [];
                   Timer.log := Timer.log (env w) ++ [Timer.Started false d h] |} |}.
Proof.
  intros Hm Hw Ht.
  rewrite startTimeout_idle by (try rewrite Hm; auto).
  rewrite advance_single.
  replace (Timer.now (env w) + d <=? Z.max (Timer.now (env w)) t) with true
    by (symmetry; apply Z.leb_le; lia).
  destruct w as [m [n x ws l]]. cbn in Hm, Hw. subst m ws.
  cbn [mgr env Timer.now Timer.log pendingOperations canceled running].
  unfold Timer.deliver.
  cbn [env mgr Timer.waits Timer.status Timer.kind Timer.state Timer.now
       Timer.expires_at Timer.log].
  unfold Timer.timeoutLambda, isCanceled.
  cbn [mgr canceled orb Timer.notifier Timer.handler].
  unfold notify, finishOperation.
  cbn [setCanceled setRunning mgr env pendingOperations running canceled
       hasPendingOperation replacer negb].
  unfold destroy. cbn [enabled]. reflexivity.
Qed.

End TimerOneShot.

(** X11. A one-shot timeout started on an idle timer does nothing
    before its deadline [now + duration], and the first completion
    delivered at or after the deadline invokes its handler, once: the
    handler runs with the manager idle again and the wait gone, and
    the history of invocations grows by exactly this one. *)
Theorem one_shot_timeout_fires_once_at_deadline
        (user : HandlerId -> list Timer.Event -> list Timer.Call)
        (w : manager.World manager.PendingOperationReplacer Timer.Op Timer.Env)
        (d : Duration) (h : HandlerId) (t : TimePoint) :
  manager.mgr w = {| manager.pendingOperations := None;
                     manager.running := false; manager.canceled := false |} ->
  Timer.waits (manager.env w) = [] ->
  let w1 := Timer.startTimeout d h w in
  let deadline := Timer.now (manager.env w) + d in
  (0 < d -> t < deadline ->
   Timer.deliver user (Timer.advance t w1) = Timer.advance t w1) /\
  (deadline <= t ->
   let w2 := Timer.deliver user (Timer.advance t w1) in
   w2 = Timer.invokeHandler user h
          {| manager.mgr := manager.mgr w;
             manager.env :=
               {| Timer.now := Z.max (Timer.now (manager.env w)) t;
                  Timer.expires_at := deadline;
                  Timer.waits := [];
                  Timer.log := Timer.log (manager.env w)
                               ++ [Timer.Started false d h] |} |} /\
   Timer.invocations w2 = Timer.invocations w ++ [Timer.Invoked h]).
Proof.
  intros Hm Hw w1 deadline. split.
  - intros Hd Ht. apply one_shot_before; try assumption. rewrite Hm. reflexivity.
  - intros Ht w2.
    assert (H2 : w2 = Timer.invokeHandler user h
          {| manager.mgr := manager.mgr w;
             manager.env :=
               {| Timer.now := Z.max (Timer.now (manager.env w)) t;
                  Timer.expires_at := deadline;
                  Timer.waits := [];
                  Timer.log := Timer.log (manager.env w)
                               ++ [Timer.Started false d h] |} |})
      by (apply one_shot_at; assumption).
    split; [exact H2|]. rewrite H2, timer_invokeHandler_invocations.
    f_equal. destruct w as [m [n x ws l]].
    apply invocations_started. reflexivity.
Qed.

Lemma one_shot_timeout_fires_once_at_deadline_witness :
  Timer.invocations
    (Timer.deliver (fun _ _ => [])
       (Timer.advance 7 (Timer.startTimeout 5 1%nat Timer.create)))
  = [Timer.Invoked 1%nat].
Proof.
  refine (proj2 (proj2 (one_shot_timeout_fires_once_at_deadline
                          (fun _ _ => []) Timer.create 5 1%nat 7 eq_refl eq_refl)
                   _)).
  vm_compute; discriminate.
Defined.

(** ** Timer.h: cancelling and replacing a timeout *)

Section TimerReplace.
Import manager.
Variable user : HandlerId -> list Timer.Event -> list Timer.Call.

Local Abbreviation World := (World PendingOperationReplacer Timer.Op Timer.Env).

Lemma leb_deadline (x n t : Z) : x <= t -> (x <=? Z.max n t) = true.
Proof. intros H. apply Z.leb_le. lia. Qed.

Lemma leb_not_yet (n d t : Z) : 0 < d -> t < n + d -> (n + d <=? Z.max n t) = false.
Proof. intros H1 H2. apply Z.leb_gt. lia. Qed.

(** A timer on which [cancel()] was called while nothing was running:
    the next timeout, one-shot or periodic, is dropped at its
    deadline. *)
Lemma canceled_idle_swallows (periodic : bool) d h t (w : World) :
  running (mgr w) = false ->
  pendingOperations (mgr w) = None ->
  Timer.waits (env w) = [] ->
  Timer.now (env w) + d <= t ->
  Timer.deliver user
    (Timer.advance t
       ((if periodic then Timer.startPeriodicTimeout else Timer.startTimeout)
          d h (Timer.cancel w)))
  = {| mgr := {| pendingOperations := None; running := false; canceled := false |};
       env := {| Timer.now := Z.max (Timer.now (env w)) t;
                 Timer.expires_at := Timer.now (env w) + d;
                 Timer.waits := [];
                 Timer.log := Timer.log (env w) ++ [Timer.Started periodic d h] |} |}.
Proof.
  intros Hr Hp Hw Ht.
  destruct w as [[p r cd] [n x ws l]]. cbn in Hr, Hp, Hw, Ht. subst p r ws.
  cbn [env Timer.now Timer.log].
  assert (Hs : (if periodic then Timer.startPeriodicTimeout else Timer.startTimeout)
                 d h (Timer.cancel
                        ({| mgr := {| pendingOperations := None; running := false;
                                      canceled := cd |};
                            env := {| Timer.now := n; Timer.expires_at := x;
                                      Timer.waits := []; Timer.log := l |} |}
                         : World))
               = {| mgr := {| pendingOperations := None; running := true;
                              canceled := true |};
                    env := {| Timer.now := n; Timer.expires_at := n + d;
                              Timer.waits :=
                                [{| Timer.kind := if periodic then Timer.PeriodicWait
                                                  else Timer.TimeoutWait;
                                    Timer.state :=
                                      {| Timer.handler := h; Timer.duration := d;
                                         Timer.notifier := newNotifier |};
                                    Timer.status := Timer.Pending |}];
                              Timer.log := l ++ [Timer.Started periodic d h] |} |})
    by (destruct periodic; reflexivity).
  rewrite Hs, advance_single, (leb_deadline _ _ _ Ht).
  destruct periodic; reflexivity.
Qed.

(** Replacing a timeout that has not expired yet: the old wait is
    aborted, and its lambda, once delivered, starts the new one. *)
Lemma replace_pending_timeout d1 h1 d2 h2 t1 (w : World) :
  mgr w = {| pendingOperations := None; running := false; canceled := false |} ->
  Timer.waits (env w) = [] ->
  0 < d1 -> t1 < Timer.now (env w) + d1 ->
  Timer.deliver user
    (Timer.startTimeout d2 h2
       (Timer.advance t1 (Timer.startTimeout d1 h1 w)))
  = {| mgr := {| pendingOperations := None; running := true; canceled := false |};
       env := {| Timer.now := Z.max (Timer.now (env w)) t1;
                 Timer.expires_at := Z.max (Timer.now (env w)) t1 + d2;
                 Timer.waits :=
                   [{| Timer.kind := Timer.TimeoutWait;
                       Timer.state := {| Timer.handler := h2; Timer.duration := d2;
                                         Timer.notifier := newNotifier |};
                       Timer.status := Timer.Pending |}];
                 Timer.log := (Timer.log (env w) ++ [Timer.Started false d1 h1])
                              ++ [Timer.Started false d2 h2] |} |}.
Proof.
  intros Hm Hw Hd Ht.
  rewrite (startTimeout_idle d1 h1 w) by (try rewrite Hm; auto).
  rewrite advance_single, (leb_not_yet _ _ _ Hd Ht).
  destruct w as [m [n x ws l]]. cbn in Hm, Hw. subst m ws. reflexivity.
Qed.

(** Replacing a timeout whose wait has already expired: the wait is
    past cancelling, and its lambda starts the new timeout and then
    still invokes the old handler. *)
Lemma replace_expired_timeout d1 h1 d2 h2 t1 (w : World) :
  mgr w = {| pendingOperations := None; running := false; canceled := false |} ->
  Timer.waits (env w) = [] ->
  Timer.now (env w) + d1 <= t1 ->
  Timer.deliver user
    (Timer.startTimeout d2 h2
       (Timer.advance t1 (Timer.startTimeout d1 h1 w)))
  = Timer.invokeHandler user h1
      {| mgr := {| pendingOperations := None; running := true; canceled := false |};
         env := {| Timer.now := Z.max (Timer.now (env w)) t1;
                   Timer.expires_at := Z.max (Timer.now (env w)) t1 + d2;
                   Timer.waits :=
                     [{| Timer.kind := Timer.TimeoutWait;
                         Timer.state := {| Timer.handler := h2; Timer.duration := d2;
                                           Timer.notifier := newNotifier |};
                         Timer.status := Timer.Pending |}];
                   Timer.log := (Timer.log (env w) ++ [Timer.Started false d1 h1])
                                ++ [Timer.Started false d2 h2] |} |}.
Proof.
  intros Hm Hw Ht.
  rewrite (startTimeout_idle d1 h1 w) by (try rewrite Hm; auto).
  rewrite advance_single, (leb_deadline _ _ _ Ht).
  destruct w as [m [n x ws l]]. cbn in Hm, Hw. subst m ws. reflexivity.
Qed.

(** A running one-shot timeout reaching its deadline. *)
Lemma running_timeout_fires st t n x l :
  x <= t ->
  Timer.deliver user
    (Timer.advance t
       ({| mgr := {| pendingOperations := None; running := true;
                     canceled := false |};
           env := {| Timer.now := n; Timer.expires_at := x;
                     Timer.waits := [{| Timer.kind := Timer.TimeoutWait;
                                        Timer.state := st;
                                        Timer.status := Timer.Pending |}];
                     Timer.log := l |} |} : World))
  = Timer.invokeHandler user (Timer.handler st)
      {| mgr := {| pendingOperations := None; running := false; canceled := false |};
         env := {| Timer.now := Z.max n t; Timer.expires_at := x;
                   Timer.waits := []; Timer.log := l |} |}.
Proof.
  intros Ht. rewrite advance_single, (leb_deadline _ _ _ Ht).
  destruct st as [h d [en]].
  unfold Timer.deliver.
  cbn [env mgr Timer.waits Timer.status Timer.kind Timer.state Timer.now
       Timer.expires_at Timer.log].
  unfold Timer.timeoutLambda, isCanceled.
  cbn [mgr canceled orb Timer.notifier Timer.handler].
  unfold notify, finishOperation.
  cbn [setCanceled setRunning mgr env pendingOperations running canceled
       hasPendingOperation replacer negb].
  unfold destroy. cbn [enabled]. reflexivity.
Qed.

End TimerReplace.

(** X12. [cancel()] on a timer with nothing running leaves the
    manager's [canceled] flag set, and nothing clears it until an
    operation finishes. The next timeout started on that timer, one-shot
    or periodic, therefore never invokes its handler: at its deadline
    the lambda sees the stale flag and returns, which ends the
    operation (and a periodic chain) and clears the flag. *)
Theorem cancel_on_idle_timer_swallows_next_timeout
        (user : HandlerId -> list Timer.Event -> list Timer.Call)
        (w : manager.World manager.PendingOperationReplacer Timer.Op Timer.Env)
        (periodic : bool) (d : Duration) (h : HandlerId) (t : TimePoint) :
  manager.running (manager.mgr w) = false ->
  manager.pendingOperations (manager.mgr w) = None ->
  Timer.waits (manager.env w) = [] ->
  Timer.now (manager.env w) + d <= t ->
  let start := if periodic then Timer.startPeriodicTimeout else Timer.startTimeout in
  let w1 := start d h (Timer.cancel w) in
  let w2 := Timer.deliver user (Timer.advance t w1) in
  manager.canceled (manager.mgr w1) = true /\
  Timer.invocations w2 = Timer.invocations w /\
  Timer.waits (manager.env w2) = [] /\
  manager.mgr w2 = {| manager.pendingOperations := None;
                      manager.running := false; manager.canceled := false |}.
Proof.
  intros Hr Hp Hw Ht start w1 w2.
  split.
  { subst w1 start. destruct periodic.
    - unfold Timer.startPeriodicTimeout. rewrite startOperation_canceled.
      reflexivity.
    - unfold Timer.startTimeout. rewrite startOperation_canceled. reflexivity. }
  assert (H2 : w2 = {| manager.mgr :=
                         {| manager.pendingOperations := None;
                            manager.running := false; manager.canceled := false |};
                       manager.env :=
                         {| Timer.now := Z.max (Timer.now (manager.env w)) t;
                            Timer.expires_at := Timer.now (manager.env w) + d;
                            Timer.waits := [];
                            Timer.log := Timer.log (manager.env w)
                                         ++ [Timer.Started periodic d h] |} |})
    by (apply canceled_idle_swallows; assumption).
  rewrite H2. split; [|split; reflexivity].
  destruct w as [m [n x ws l]]. apply invocations_started. reflexivity.
Qed.

Lemma cancel_on_idle_timer_swallows_next_timeout_witness :
  Timer.invocations
    (Timer.deliver (fun _ _ => [])
       (Timer.advance 9 (Timer.startTimeout 5 1%nat (Timer.cancel Timer.create))))
  = [].
Proof.
  refine (proj1 (proj2 (cancel_on_idle_timer_swallows_next_timeout
                          (fun _ _ => []) Timer.create false 5 1%nat 9
                          eq_refl eq_refl eq_refl _))).
  vm_compute; discriminate.
Defined.



(** X14. In every state a timer can reach from construction, through
    any calls, passing of time and delivered completions (with
    handlers that call back into the timer), at most one wait is
    outstanding on the underlying timer, and the manager is [running]
    whenever a wait is outstanding or an operation is pending. *)
Theorem timer_has_at_most_one_wait
        (user : HandlerId -> list Timer.Event -> list Timer.Call)
        (w : manager.World manager.PendingOperationReplacer Timer.Op Timer.Env) :
  Timer.reachable user w ->
  (length (Timer.waits (manager.env w)) <= 1)%nat /\
  (Timer.waits (manager.env w) <> [] \/
   manager.pendingOperations (manager.mgr w) <> None ->
   manager.running (manager.mgr w) = true).
Proof.
  intros Hr. destruct (timer_reachable_inFlight user w Hr) as [Hp Hw].
  split.
  - destruct Hw as [-> | [[x ->] _]]; cbn; lia.
  - intros [Hne | Hne]; [|exact (Hp Hne)].
    destruct Hw as [Hnil | [_ Hrun]]; [contradiction | exact Hrun].
Qed.

Lemma timer_has_at_most_one_wait_witness :
  let user := fun (h : HandlerId) (_ : list Timer.Event) =>
                [Timer.CallStartTimeout 2 (S h)] in
  let w := fold_left (Timer.react user)
             [Timer.Do (Timer.StepCall (Timer.CallStartTimeout 5 1%nat));
              Timer.Do (Timer.StepCall (Timer.CallStartPeriodicTimeout 3 2%nat));
              Timer.Deliver; Timer.Do (Timer.StepAdvance 10); Timer.Deliver]
             Timer.create in
  (length (Timer.waits (manager.env w)) <= 1)%nat.
Proof.
  intros user w.
  refine (proj1 (timer_has_at_most_one_wait user w _)).
  eexists. reflexivity.
Defined.

(** ** Timer.h: a periodic handler that starts a one-shot timeout *)

Section PeriodicRestart.
Import manager.
Variable user : HandlerId -> list Timer.Event -> list Timer.Call.
Variable h h2 : HandlerId.
Variable interval d : Duration.
Hypothesis Huser : forall l, user h l = [Timer.CallStartTimeout d h2].

Local Abbreviation World := (World PendingOperationReplacer Timer.Op Timer.Env).
Local Abbreviation st :=
  {| Timer.handler := h; Timer.duration := interval;
     Timer.notifier := newNotifier |}.

Lemma periodic_restart_period p (periodicWait : bool) nowTime x l :
  Timer.deliver user
    (Timer.advance x
       ({| mgr := {| pendingOperations := p; running := true; canceled := false |};
           env := {| Timer.now := nowTime; Timer.expires_at := x;
                     Timer.waits :=
                       [{| Timer.kind := if periodicWait then Timer.PeriodicWait
                                         else Timer.NextPeriodWait;
                           Timer.state := st; Timer.status := Timer.Pending |}];
                     Timer.log := l |} |} : World))
  = {| mgr := {| pendingOperations := Some (Timer.TimeoutOperation d h2);
                 running := true; canceled := false |};
       env := {| Timer.now := Z.max nowTime x; Timer.expires_at := x + interval;
                 Timer.waits :=
                   [{| Timer.kind := Timer.NextPeriodWait;
                       Timer.state := st; Timer.status := Timer.Pending |}];
                 Timer.log := l ++ [Timer.Invoked h] |} |}.
Proof.
  rewrite advance_single, (leb_deadline x nowTime x (Z.le_refl x)).
  unfold Timer.deliver.
  cbn [env mgr Timer.waits Timer.status Timer.kind Timer.state Timer.now
       Timer.expires_at Timer.log].
  assert (Hl : Timer.periodicLambda user st false
                 ({| mgr := {| pendingOperations := p; running := true;
                               canceled := false |};
                     env := {| Timer.now := Z.max nowTime x; Timer.expires_at := x;
                               Timer.waits := []; Timer.log := l |} |} : World)
               = {| mgr := {| pendingOperations := Some (Timer.TimeoutOperation d h2);
                              running := true; canceled := false |};
                    env := {| Timer.now := Z.max nowTime x;
                              Timer.expires_at := x + interval;
                              Timer.waits :=
                                [{| Timer.kind := Timer.NextPeriodWait;
                                    Timer.state := st;
                                    Timer.status := Timer.Pending |}];
                              Timer.log := l ++ [Timer.Invoked h] |} |}).
  { unfold Timer.periodicLambda, isCanceled. cbn [mgr canceled orb].
    unfold Timer.invokeHandler.
    cbn [onEnv env mgr Timer.addLog Timer.log Timer.handler Timer.now
         Timer.expires_at Timer.waits].
    rewrite Huser. reflexivity. }
  destruct periodicWait; exact Hl.
Qed.

Lemma periodic_restart_periods (n : nat) (w : World) :
  mgr w = {| pendingOperations := None; running := false; canceled := false |} ->
  Timer.waits (env w) = [] ->
  exists nowTime,
    Nat.iter n
      (fun w => Timer.deliver user (Timer.advance (Timer.expires_at (env w)) w))
      (Timer.startPeriodicTimeout interval h w)
    = {| mgr := {| pendingOperations :=
                     match n with
                     | O => None
                     | S _ => Some (Timer.TimeoutOperation d h2)
                     end;
                   running := true; canceled := false |};
         env := {| Timer.now := nowTime;
                   Timer.expires_at :=
                     Timer.now (env w) + (Z.of_nat n + 1) * interval;
                   Timer.waits :=
                     [{| Timer.kind := match n with
                                       | O => Timer.PeriodicWait
                                       | S _ => Timer.NextPeriodWait
                                       end;
                         Timer.state := st; Timer.status := Timer.Pending |}];
                   Timer.log := (Timer.log (env w) ++ [Timer.Started true interval h])
                                ++ repeat (Timer.Invoked h) n |} |}.
Proof.
  intros Hm Hw. induction n as [|n [nowTime IH]].
  - exists (Timer.now (env w)). cbn [Nat.iter nat_rect repeat].
    rewrite startPeriodicTimeout_idle_world by (try rewrite Hm; auto).
    rewrite Hm, app_nil_r. cbn [pendingOperations canceled].
    replace ((Z.of_nat 0 + 1) * interval) with interval by lia. reflexivity.
  - exists (Z.max nowTime (Timer.now (env w) + (Z.of_nat n + 1) * interval)).
    rewrite Nat.iter_succ, IH.
    cbn [env Timer.expires_at].
    pose proof (periodic_restart_period
                  (match n with O => None | S _ => Some (Timer.TimeoutOperation d h2) end)
                  (match n with O => true | S _ => false end)
                  nowTime (Timer.now (env w) + (Z.of_nat n + 1) * interval)
                  ((Timer.log (env w) ++ [Timer.Started true interval h])
                   ++ repeat (Timer.Invoked h) n)) as Hstep.
    replace (if match n with O => true | S _ => false end
             then Timer.PeriodicWait else Timer.NextPeriodWait)
      with (match n with O => Timer.PeriodicWait | S _ => Timer.NextPeriodWait end)
      in Hstep by (destruct n; reflexivity).
    rewrite Hstep. f_equal. f_equal.
    + lia.
    + rewrite <- app_assoc. f_equal.
      change [Timer.Invoked h] with (repeat (Timer.Invoked h) 1).
      rewrite <- repeat_app. f_equal. lia.
Qed.

End PeriodicRestart.

(** X15. A one-shot timeout started from inside the handler of a
    periodic timeout does not replace the periodic one. The call
    finds the manager running and no wait to cancel, so the new
    operation is only parked as pending; the periodic lambda then
    re-arms as usual and never finishes its operation. Period after
    period the periodic handler runs again at the unchanged deadlines
    [start + k * interval], and the parked timeout is never started. *)
Theorem periodic_handler_cannot_switch_to_one_shot
        (user : HandlerId -> list Timer.Event -> list Timer.Call)
        (h h2 : HandlerId) (interval d : Duration) (n : nat)
        (w : manager.World manager.PendingOperationReplacer Timer.Op Timer.Env) :
  (forall l, user h l = [Timer.CallStartTimeout d h2]) ->
  manager.mgr w = {| manager.pendingOperations := None;
                     manager.running := false; manager.canceled := false |} ->
  Timer.waits (manager.env w) = [] ->
  let period := fun w => Timer.deliver user
                           (Timer.advance (Timer.expires_at (manager.env w)) w) in
  let wn := Nat.iter n period (Timer.startPeriodicTimeout interval h w) in
  Timer.log (manager.env wn)
  = (Timer.log (manager.env w) ++ [Timer.Started true interval h])
    ++ repeat (Timer.Invoked h) n /\
  Timer.expires_at (manager.env wn)
  = Timer.now (manager.env w) + (Z.of_nat n + 1) * interval /\
  manager.running (manager.mgr wn) = true /\
  ((0 < n)%nat ->
   manager.pendingOperations (manager.mgr wn) = Some (Timer.TimeoutOperation d h2)).
Proof.
  intros Huser Hm Hw period wn.
  destruct (periodic_restart_periods user h h2 interval d Huser n w Hm Hw)
    as [nowTime Hn].
  subst wn period. rewrite Hn. cbn [manager.env manager.mgr Timer.log
    Timer.expires_at manager.running manager.pendingOperations].
  repeat split. intros Hpos. destruct n; [lia | reflexivity].
Qed.

Lemma periodic_handler_cannot_switch_to_one_shot_witness :
  let user := fun (_ : HandlerId) (_ : list Timer.Event) =>
                [Timer.CallStartTimeout 1 7%nat] in
  let period := fun w => Timer.deliver user
                           (Timer.advance (Timer.expires_at (manager.env w)) w) in
  Timer.log (manager.env
               (Nat.iter 3 period (Timer.startPeriodicTimeout 10 1%nat Timer.create)))
  = [Timer.Started true 10 1%nat; Timer.Invoked 1%nat; Timer.Invoked 1%nat;
     Timer.Invoked 1%nat].
Proof.
  intros user period.
  exact (proj1 (periodic_handler_cannot_switch_to_one_shot
                  user 1%nat 7%nat 10 1 3 Timer.create
                  (fun _ => eq_refl) eq_refl eq_refl)).
Defined.

(** ** DatagramReceiver.h: cancelling and replacing a receive *)

Section ReceiverReplace.
Import manager.
Context {Message : Type}.
Variable decode : internal.ConstBuffer -> option Message.
Variable defaultMessage : Message.
Variable user : HandlerId -> list (@DatagramReceiver.Event Message)
                -> list DatagramReceiver.Call.

Local Abbreviation World :=
  (World PendingOperationReplacer DatagramReceiver.Op (@DatagramReceiver.Env Message)).
Local Abbreviation receiveCompleted :=
  (DatagramReceiver.receiveCompleted decode defaultMessage user).

Lemma receiver_invokeHandler_invocations h e m ep (w : World) :
  DatagramReceiver.invocations (DatagramReceiver.invokeHandler user h e m ep w)
  = DatagramReceiver.invocations w ++ [DatagramReceiver.Invoked h e m ep].
Proof.
  unfold DatagramReceiver.invokeHandler.
  match goal with
  | |- context [fold_left _ ?cs ?w1] =>
      destruct (receiver_runCalls_extends cs w1) as (_ & _ & Hi)
  end.
  rewrite Hi. destruct w as [m0 [s b o l]].
  unfold DatagramReceiver.invocations; cbn. rewrite filter_app. reflexivity.
Qed.

(** A datagram receive completing on a closed socket reports an
    error, whatever arrived. *)
Lemma asyncReceiveDatagram_closed (buffer : list byte) boostCode datagram :
  let e := fst (fst (message.asyncReceiveDatagram decode defaultMessage false
                       buffer boostCode datagram)) in
  error.to_bool e = true /\
  (e = error.aborted \/ e = error.decoding).
Proof.
  unfold message.asyncReceiveDatagram.
  destruct (asio.receive_from buffer datagram) as [buf n].
  unfold socket.asyncReceiveFrom_completion.
  change (error.to_bool (closeable.completionError false boostCode)) with true.
  cbv iota. unfold message.asyncReceiveDatagram_handler.
  destruct (decode _); cbn; auto.
Qed.

Lemma cancel_idle_then_receive timeout h boostCode datagram ep (w : World) :
  running (mgr w) = false ->
  pendingOperations (mgr w) = None ->
  DatagramReceiver.outstanding (env w) = [] ->
  let w1 := DatagramReceiver.asyncReceive timeout h (DatagramReceiver.cancel w) in
  w1 = {| mgr := {| pendingOperations := None; running := true; canceled := true |};
          env := {| DatagramReceiver.socketOpen := true;
                    DatagramReceiver.buffer := DatagramReceiver.buffer (env w);
                    DatagramReceiver.outstanding :=
                      [{| DatagramReceiver.handler := h;
                          DatagramReceiver.finishedNotifier := newNotifier |}];
                    DatagramReceiver.log :=
                      DatagramReceiver.log (env w)
                      ++ [DatagramReceiver.Started timeout h] |} |} /\
  exists buffer,
    receiveCompleted boostCode datagram ep w1
    = {| mgr := {| pendingOperations := None; running := false; canceled := false |};
         env := {| DatagramReceiver.socketOpen := true;
                   DatagramReceiver.buffer := buffer;
                   DatagramReceiver.outstanding := [];
                   DatagramReceiver.log :=
                     DatagramReceiver.log (env w)
                     ++ [DatagramReceiver.Started timeout h] |} |}.
Proof.
  intros Hr Hp Ho.
  destruct w as [[p r cd] [s b o l]]. cbn in Hr, Hp, Ho. subst p r o.
  cbn zeta. split; [reflexivity|].
  unfold DatagramReceiver.receiveCompleted.
  cbn [DatagramReceiver.asyncReceive DatagramReceiver.cancel cancelOperation
       startOperation setCanceled setRunning setPending onEnv mgr env running
       canceled pendingOperations negb reset replacer
       DatagramReceiver.cancelOperation DatagramReceiver.asyncReceiveOperation
       DatagramReceiver.setupSocket DatagramReceiver.socketOpen
       DatagramReceiver.buffer DatagramReceiver.outstanding DatagramReceiver.log
       DatagramReceiver.opHandler DatagramReceiver.opTimeout app].
  destruct (message.asyncReceiveDatagram decode defaultMessage true b
              boostCode datagram) as [[e m] b'].
  exists b'. reflexivity.
Qed.

Lemma replaced_receive st1 timeout h2 boostCode datagram ep (w : World) :
  mgr w = {| pendingOperations := None; running := true; canceled := false |} ->
  DatagramReceiver.outstanding (env w) = [st1] ->
  exists e m buffer,
    error.to_bool e = true /\
    (e = error.aborted \/ e = error.decoding) /\
    receiveCompleted boostCode datagram ep
      (DatagramReceiver.asyncReceive timeout h2 w)
    = DatagramReceiver.invokeHandler user (DatagramReceiver.handler st1) e m ep
        {| mgr := {| pendingOperations := None; running := true;
                     canceled := false |};
           env := {| DatagramReceiver.socketOpen := true;
                     DatagramReceiver.buffer := buffer;
                     DatagramReceiver.outstanding :=
                       [{| DatagramReceiver.handler := h2;
                           DatagramReceiver.finishedNotifier := newNotifier |}];
                     DatagramReceiver.log :=
                       DatagramReceiver.log (env w)
                       ++ [DatagramReceiver.Started timeout h2] |} |}.
Proof.
  intros Hm Ho.
  destruct w as [m0 [s b o l]]. cbn in Hm, Ho. subst m0 o.
  unfold DatagramReceiver.receiveCompleted.
  cbn [DatagramReceiver.asyncReceive startOperation setCanceled setRunning
       setPending onEnv mgr env running canceled pendingOperations negb
       shouldCancel pushPendingOperation replacer
       DatagramReceiver.cancelOperation DatagramReceiver.socketOpen
       DatagramReceiver.buffer DatagramReceiver.outstanding DatagramReceiver.log].
  pose proof (asyncReceiveDatagram_closed b boostCode datagram) as Hc.
  destruct (message.asyncReceiveDatagram decode defaultMessage false b
              boostCode datagram) as [[e m] b'].
  cbn [fst] in Hc. destruct Hc as [Hb He].
  exists e, m, b'. split; [exact Hb|]. split; [exact He|].
  unfold DatagramReceiver.receiveHandler, isCanceled. cbn [mgr canceled].
  unfold notify, finishOperation.
  cbn [setCanceled setRunning setPending onEnv mgr env pendingOperations running
       canceled hasPendingOperation getPendingOperation popPendingOperation
       replacer negb DatagramReceiver.asyncReceiveOperation
       DatagramReceiver.setupSocket DatagramReceiver.socketOpen
       DatagramReceiver.buffer DatagramReceiver.outstanding DatagramReceiver.log
       DatagramReceiver.opHandler DatagramReceiver.opTimeout app].
  unfold destroy. cbn [enabled]. reflexivity.
Qed.

End ReceiverReplace.

(** X16. [cancel()] on a receiver with no receive in flight leaves the
    manager's [canceled] flag set. The next [asyncReceive] does open
    the socket and start a receive, but when that receive completes,
    even with a well-formed datagram and no error, its lambda sees
    the stale flag and returns: the handler is never invoked, and the
    receiver is idle again with nothing outstanding. *)
Theorem cancel_on_idle_receiver_swallows_next_datagram
        {Message : Type} (decode : internal.ConstBuffer -> option Message)
        (defaultMessage : Message)
        (user : HandlerId -> list (@DatagramReceiver.Event Message)
                -> list DatagramReceiver.Call)
        (w : manager.World manager.PendingOperationReplacer DatagramReceiver.Op
                           (@DatagramReceiver.Env Message))
        (timeout : Duration) (h : HandlerId)
        (boostCode : error.error_code) (datagram : list byte) (ep : Endpoint) :
  manager.running (manager.mgr w) = false ->
  manager.pendingOperations (manager.mgr w) = None ->
  DatagramReceiver.outstanding (manager.env w) = [] ->
  let w1 := DatagramReceiver.asyncReceive timeout h (DatagramReceiver.cancel w) in
  let w2 := DatagramReceiver.receiveCompleted decode defaultMessage user
              boostCode datagram ep w1 in
  DatagramReceiver.socketOpen (manager.env w1) = true /\
  DatagramReceiver.outstanding (manager.env w1)
  = [{| DatagramReceiver.handler := h;
        DatagramReceiver.finishedNotifier := manager.newNotifier |}] /\
  DatagramReceiver.invocations w2 = DatagramReceiver.invocations w /\
  DatagramReceiver.outstanding (manager.env w2) = [] /\
  manager.mgr w2 = {| manager.pendingOperations := None;
                      manager.running := false; manager.canceled := false |}.
Proof.
  intros Hr Hp Ho w1 w2.
  destruct (cancel_idle_then_receive decode defaultMessage user timeout h
              boostCode datagram ep w Hr Hp Ho) as [H1 [b' H2]].
  fold w1 in H1, H2. fold w2 in H2.
  rewrite H2, H1. cbn [manager.env manager.mgr DatagramReceiver.socketOpen
    DatagramReceiver.outstanding].
  repeat split.
  destruct w as [m [s b o l]].
  unfold DatagramReceiver.invocations; cbn. rewrite filter_app; cbn.
  apply app_nil_r.
Qed.

Lemma cancel_on_idle_receiver_swallows_next_datagram_witness :
  DatagramReceiver.invocations
    (DatagramReceiver.receiveCompleted message.stringDecoder [] (fun _ _ => [])
       error.error_code_default
       (internal.getBuffers (message.frameOf [Byte.x41])) (1, 2)
       (DatagramReceiver.asyncReceive 5 1%nat
          (DatagramReceiver.cancel (DatagramReceiver.create 8))))
  = [].
Proof.
  exact (proj1 (proj2 (proj2
           (cancel_on_idle_receiver_swallows_next_datagram
              message.stringDecoder [] (fun _ _ => [])
              (DatagramReceiver.create 8) 5 1%nat error.error_code_default
              (internal.getBuffers (message.frameOf [Byte.x41])) (1, 2)
              eq_refl eq_refl eq_refl)))).
Defined.

(** X17. Calling [asyncReceive] while a receive is in flight replaces
    it: the socket is closed, so the first receive completes with an
    error whatever arrives ([aborted], or [decoding] if the decoder
    rejects an empty window). Its lambda first starts the new receive
    on a reopened socket, then invokes the first handler with that
    error, exactly once: unlike a replaced timeout, a replaced
    receive is reported to its handler. *)
Theorem asyncReceive_replaces_receive_in_flight
        {Message : Type} (decode : internal.ConstBuffer -> option Message)
        (defaultMessage : Message)
        (user : HandlerId -> list (@DatagramReceiver.Event Message)
                -> list DatagramReceiver.Call)
        (w : manager.World manager.PendingOperationReplacer DatagramReceiver.Op
                           (@DatagramReceiver.Env Message))
        (st1 : DatagramReceiver.AsyncState)
        (timeout : Duration) (h2 : HandlerId)
        (boostCode : error.error_code) (datagram : list byte) (ep : Endpoint) :
  manager.mgr w = {| manager.pendingOperations := None;
                     manager.running := true; manager.canceled := false |} ->
  DatagramReceiver.outstanding (manager.env w) = [st1] ->
  let w2 := DatagramReceiver.receiveCompleted decode defaultMessage user
              boostCode datagram ep
              (DatagramReceiver.asyncReceive timeout h2 w) in
  exists e m buffer,
    error.to_bool e = true /\
    (e = error.aborted \/ e = error.decoding) /\
    w2 = DatagramReceiver.invokeHandler user (DatagramReceiver.handler st1) e m ep
           {| manager.mgr := {| manager.pendingOperations := None;
                                manager.running := true;
                                manager.canceled := false |};
              manager.env :=
                {| DatagramReceiver.socketOpen := true;
                   DatagramReceiver.buffer := buffer;
                   DatagramReceiver.outstanding :=
                     [{| DatagramReceiver.handler := h2;
                         DatagramReceiver.finishedNotifier := manager.newNotifier |}];
                   DatagramReceiver.log :=
                     DatagramReceiver.log (manager.env w)
                     ++ [DatagramReceiver.Started timeout h2] |} |} /\
    DatagramReceiver.invocations w2
    = DatagramReceiver.invocations w
      ++ [DatagramReceiver.Invoked (DatagramReceiver.handler st1) e m ep].
Proof.
  intros Hm Ho w2.
  destruct (replaced_receive decode defaultMessage user st1 timeout h2
              boostCode datagram ep w Hm Ho) as (e & m & b' & Hb & He & H2).
  fold w2 in H2. exists e, m, b'.
  split; [exact Hb|]. split; [exact He|]. split; [exact H2|].
  rewrite H2, receiver_invokeHandler_invocations. f_equal.
  destruct w as [m0 [s b o l]].
  unfold DatagramReceiver.invocations; cbn. rewrite filter_app; cbn.
  apply app_nil_r.
Qed.

Lemma asyncReceive_replaces_receive_in_flight_witness :
  let w := DatagramReceiver.asyncReceive 5 1%nat (DatagramReceiver.create 8) in
  exists e m,
    DatagramReceiver.invocations
      (DatagramReceiver.receiveCompleted message.stringDecoder []
         (fun _ _ => []) error.error_code_default
         (internal.getBuffers (message.frameOf [Byte.x41])) (1, 2)
         (DatagramReceiver.asyncReceive 6 2%nat w))
    = [DatagramReceiver.Invoked 1%nat e m (1, 2)] /\ error.to_bool e = true.
Proof.
  intros w.
  destruct (asyncReceive_replaces_receive_in_flight
              message.stringDecoder [] (fun _ _ => []) w
              {| DatagramReceiver.handler := 1%nat;
                 DatagramReceiver.finishedNotifier := manager.newNotifier |}
              6 2%nat error.error_code_default
              (internal.getBuffers (message.frameOf [Byte.x41])) (1, 2)
              eq_refl eq_refl) as (e & m & b & Hb & _ & _ & Hi).
  exists e, m. split; [exact Hi | exact Hb].
Defined.

(** ** DatagramSender.h: sends are serialized, in order *)

Section SenderSerialized.
Import manager.
Context {Message : Type}.
Variable encode : Message -> option (list byte).
Variable user : HandlerId -> list DatagramSender.Event
                -> list (@DatagramSender.Call Message).

Local Abbreviation World :=
  (World PendingOperationQueue DatagramSender.Op DatagramSender.Env).
Local Abbreviation serialized := SenderRuns.serialized.

Lemma sender_serialized_runCall (w : World) (c : DatagramSender.Call) :
  serialized w -> serialized (DatagramSender.runCall encode w c).
Proof.
  intros [Hp Ho]. destruct w as [[p r cd] [s o ps l]]. cbn in Hp, Ho.
  destruct c as [message endpoint timeout handler|].
  - cbn [DatagramSender.runCall]. unfold DatagramSender.asyncSend.
    destruct (encode message) as [data|]; [|split; cbn; assumption].
    unfold startOperation. cbn [mgr running negb].
    destruct r; cbn [negb].
    + split; cbn; [reflexivity|].
      destruct Ho as [Ho | Ho]; [left; exact Ho | right; exact Ho].
    + destruct Ho as [Ho | [_ Hr]]; [|discriminate Hr]. subst o.
      split; cbn; [reflexivity|]. right. split; [|reflexivity].
      destruct s; cbn; eexists; reflexivity.
  - split; cbn; [congruence|]. exact Ho.
Qed.

Lemma sender_serialized_runCalls (calls : list DatagramSender.Call) :
  forall w : World, serialized w ->
                    serialized (fold_left (DatagramSender.runCall encode) calls w).
Proof.
  induction calls as [|c calls IH]; intros w Hw; cbn [fold_left]; [exact Hw|].
  apply IH, sender_serialized_runCall, Hw.
Qed.

Lemma sender_serialized_invokeHandler h e (w : World) :
  serialized w -> serialized (DatagramSender.invokeHandler encode user h e w).
Proof.
  intros Hw. unfold DatagramSender.invokeHandler.
  apply sender_serialized_runCalls.
  destruct w as [m [s o ps l]]. exact Hw.
Qed.

(** Inside a completion lambda the finished send has left the socket;
    [finishOperation] then starts at most one queued send. *)
Lemma sender_serialized_finish (w : World) :
  (pendingOperations (mgr w) <> [] -> running (mgr w) = true) ->
  DatagramSender.outstanding (env w) = [] ->
  serialized (DatagramSender.finish w).
Proof.
  intros Hp Ho. destruct w as [[p r cd] [s o ps l]]. cbn in Hp, Ho. subst o.
  unfold DatagramSender.finish, finishOperation.
  destruct p as [|op p]; cbn.
  - split; cbn; [congruence | left; reflexivity].
  - assert (Hr : r = true) by (apply Hp; discriminate). subst r.
    split; cbn; [reflexivity|]. right. split; [|reflexivity].
    destruct s; cbn; eexists; reflexivity.
Qed.

Lemma sender_serialized_sendCompleted boostCode n (w : World) :
  serialized w -> serialized (DatagramSender.sendCompleted encode user boostCode n w).
Proof.
  intros Hw. pose proof Hw as [Hp Ho].
  unfold DatagramSender.sendCompleted.
  destruct (DatagramSender.outstanding (env w)) as [|st rest] eqn:E; [exact Hw|].
  destruct Ho as [Ho | [[x Hx] Hr]]; [discriminate|].
  injection Hx as -> ->.
  rewrite sendHandler_invokes.
  apply sender_serialized_invokeHandler, sender_serialized_finish.
  - exact Hp.
  - reflexivity.
Qed.

Lemma sender_serialized_runPosted (w : World) :
  serialized w -> serialized (DatagramSender.runPosted encode user w).
Proof.
  intros Hw. unfold DatagramSender.runPosted.
  destruct (DatagramSender.posted (env w)) as [|h rest]; [exact Hw|].
  apply sender_serialized_invokeHandler.
  destruct w as [m [s o ps l]]. exact Hw.
Qed.

Lemma sender_reachable_serialized (w : World) :
  SenderRuns.reachable encode user w -> serialized w.
Proof.
  intros [inputs ->].
  assert (H : forall w0 : World, serialized w0 ->
                serialized (fold_left (SenderRuns.react encode user) inputs w0)).
  { induction inputs as [|i inputs IH]; intros w0 H0; cbn [fold_left]; [exact H0|].
    apply IH. destruct i as [c|boostCode n| |]; cbn [SenderRuns.react].
    - apply sender_serialized_runCall, H0.
    - apply sender_serialized_sendCompleted, H0.
    - apply sender_serialized_runPosted, H0.
    - destruct w0 as [m [s o ps l]]. exact H0. }
  apply H. split; cbn; [congruence | left; reflexivity].
Qed.

(** *** Sends queued back to back *)

Variable Huser : forall h l, user h l = [].

Local Abbreviation stateOf op :=
  {| DatagramSender.data := DatagramSender.opData op;
     DatagramSender.handler := DatagramSender.opHandler op;
     DatagramSender.finishedNotifier := newNotifier |}.

Lemma completeInFull_step (op : DatagramSender.Op) (q : list DatagramSender.Op)
      (w : World) :
  pendingOperations (mgr w) = q ->
  running (mgr w) = true ->
  DatagramSender.socketOpen (env w) = true ->
  DatagramSender.outstanding (env w) = [stateOf op] ->
  let w' := SenderRuns.completeInFull encode user w in
  DatagramSender.invocations w'
  = DatagramSender.invocations w
    ++ [DatagramSender.Invoked (DatagramSender.opHandler op) error.success] /\
  pendingOperations (mgr w') = tl q /\
  DatagramSender.outstanding (env w')
  = match q with [] => [] | next :: _ => [stateOf next] end /\
  match q with
  | [] => running (mgr w') = false
  | _ :: _ => running (mgr w') = true /\ DatagramSender.socketOpen (env w') = true
  end.
Proof.
  intros Hq Hr Hs Ho.
  destruct w as [[p r cd] [s o ps l]]. cbn in Hq, Hr, Hs, Ho. subst p r s o.
  cbn zeta. unfold SenderRuns.completeInFull.
  cbn [env DatagramSender.outstanding DatagramSender.data].
  split.
  { erewrite sendCompleted_invocations by reflexivity.
    cbn [env DatagramSender.socketOpen DatagramSender.handler DatagramSender.data].
    unfold socket.asyncSendTo_completion. rewrite Z.ltb_irrefl. reflexivity. }
  unfold DatagramSender.sendCompleted.
  cbn [env mgr DatagramSender.outstanding DatagramSender.socketOpen
       DatagramSender.posted DatagramSender.log DatagramSender.data].
  rewrite sendHandler_invokes.
  unfold DatagramSender.invokeHandler. rewrite Huser. cbn [fold_left].
  unfold DatagramSender.finish, finishOperation.
  destruct q as [|next q]; cbn; repeat split; reflexivity.
Qed.

Lemma completeInFull_idle (w : World) :
  DatagramSender.outstanding (env w) = [] ->
  SenderRuns.completeInFull encode user w = w.
Proof.
  intros Ho. unfold SenderRuns.completeInFull. rewrite Ho. reflexivity.
Qed.

Lemma completeInFull_steps (k : nat) :
  forall (ops : list DatagramSender.Op) (w : World),
    match ops with
    | [] => DatagramSender.outstanding (env w) = [] /\ pendingOperations (mgr w) = []
    | op :: q =>
        pendingOperations (mgr w) = q /\ running (mgr w) = true /\
        DatagramSender.socketOpen (env w) = true /\
        DatagramSender.outstanding (env w) = [stateOf op]
    end ->
    let wk := Nat.iter k (SenderRuns.completeInFull encode user) w in
    DatagramSender.invocations wk
    = DatagramSender.invocations w
      ++ map (fun op => DatagramSender.Invoked (DatagramSender.opHandler op)
                          error.success) (firstn k ops) /\
    DatagramSender.outstanding (env wk)
    = map (fun op => stateOf op) (firstn 1 (skipn k ops)) /\
    pendingOperations (mgr wk) = skipn (S k) ops.
Proof.
  induction k as [|k IH]; intros ops w Hw; cbn zeta.
  - cbn [Nat.iter nat_rect firstn map]. rewrite app_nil_r.
    destruct ops as [|op q]; cbn [skipn firstn map].
    + destruct Hw as [Ho Hp]. auto.
    + destruct Hw as (Hp & _ & _ & Ho). auto.
  - rewrite Nat.iter_succ_r.
    destruct ops as [|op q].
    + destruct Hw as [Ho Hp].
      rewrite completeInFull_idle by exact Ho.
      specialize (IH [] w (conj Ho Hp)). cbn zeta in IH.
      destruct IH as (Hi & Ho' & Hp').
      rewrite firstn_nil in Hi. rewrite skipn_nil in Ho', Hp'.
      rewrite firstn_nil, !skipn_nil. auto.
    + destruct Hw as (Hp & Hr & Hs & Ho).
      destruct (completeInFull_step op q w Hp Hr Hs Ho) as (Hi1 & Hp1 & Ho1 & Hrest).
      set (w1 := SenderRuns.completeInFull encode user w) in *.
      assert (H1 : match q with
                   | [] => DatagramSender.outstanding (env w1) = [] /\
                           pendingOperations (mgr w1) = []
                   | op' :: q' =>
                       pendingOperations (mgr w1) = q' /\ running (mgr w1) = true /\
                       DatagramSender.socketOpen (env w1) = true /\
                       DatagramSender.outstanding (env w1) = [stateOf op']
                   end).
      { destruct q as [|op' q']; cbn [tl] in *.
        - auto.
        - destruct Hrest as [Hr1 Hs1]. auto. }
      specialize (IH q w1 H1). cbn zeta in IH. destruct IH as (Hi & Ho' & Hp').
      rewrite Hi, Hi1, <- app_assoc. cbn [firstn map skipn app].
      auto.
Qed.

Lemma asyncSends_are_startOperations
      (sends : list (Message * list byte * Endpoint * Duration * HandlerId)) :
  Forall (fun s => encode (fst (fst (fst (fst s)))) = Some (snd (fst (fst (fst s)))))
         sends ->
  forall w : World,
    fold_left (fun w s =>
                 let '(m, _, endpoint, timeout, handler) := s in
                 DatagramSender.asyncSend encode m endpoint timeout handler w)
              sends w
    = startOperations DatagramSender.asyncSendOperation DatagramSender.cancelOperation
        (map (fun s => let '(_, data, endpoint, timeout, handler) := s in
                       SenderRuns.opOf data endpoint timeout handler) sends) w.
Proof.
  induction 1 as [|[[[[m data] endpoint] timeout] handler] sends Hs _ IH];
    intros w; [reflexivity|].
  cbn [fold_left map]. unfold startOperations in *. cbn [fold_left].
  rewrite IH. f_equal. unfold DatagramSender.asyncSend.
  cbn [fst snd] in Hs. rewrite Hs. reflexivity.
Qed.

Lemma sends_started (op : DatagramSender.Op) (q : list DatagramSender.Op) (w : World) :
  mgr w = {| pendingOperations := []; running := false; canceled := canceled (mgr w) |} ->
  DatagramSender.outstanding (env w) = [] ->
  let w1 := startOperations DatagramSender.asyncSendOperation
              DatagramSender.cancelOperation (op :: q) w in
  pendingOperations (mgr w1) = q /\ running (mgr w1) = true /\
  DatagramSender.socketOpen (env w1) = true /\
  DatagramSender.outstanding (env w1) = [stateOf op] /\
  canceled (mgr w1) = canceled (mgr w) /\
  DatagramSender.invocations w1 = DatagramSender.invocations w.
Proof.
  intros Hm Ho. cbn zeta. unfold startOperations. cbn [fold_left].
  fold (startOperations DatagramSender.asyncSendOperation
          DatagramSender.cancelOperation q
          (startOperation DatagramSender.asyncSendOperation
             DatagramSender.cancelOperation op w)).
  rewrite startOperations_running
    by (rewrite startOperation_idle by (rewrite Hm; reflexivity); reflexivity).
  rewrite startOperation_idle by (rewrite Hm; reflexivity).
  destruct w as [[p r cd] [s o ps l]]. cbn in Hm, Ho.
  injection Hm as -> ->. subst o.
  cbn [mgr env pendingOperations running canceled app].
  repeat split.
  - destruct s; reflexivity.
  - destruct s; reflexivity.
  - unfold DatagramSender.invocations. cbn.
    destruct s; cbn; rewrite filter_app; cbn; apply app_nil_r.
Qed.

End SenderSerialized.

(** X18. In every state a sender can reach from construction (any
    calls, completions, posted tasks and deadlines, with handlers
    that call back into the sender), at most one send is outstanding
    on the socket, and the manager is [running] whenever a send is
    outstanding or queued. *)
Theorem sender_has_at_most_one_send_outstanding
        {Message : Type} (encode : Message -> option (list byte))
        (user : HandlerId -> list DatagramSender.Event
                -> list (@DatagramSender.Call Message))
        (w : manager.World manager.PendingOperationQueue DatagramSender.Op
                           DatagramSender.Env) :
  SenderRuns.reachable encode user w ->
  (length (DatagramSender.outstanding (manager.env w)) <= 1)%nat /\
  (DatagramSender.outstanding (manager.env w) <> [] \/
   manager.pendingOperations (manager.mgr w) <> [] ->
   manager.running (manager.mgr w) = true).
Proof.
  intros Hr. destruct (sender_reachable_serialized encode user w Hr) as [Hp Ho].
  split.
  - destruct Ho as [-> | [[x ->] _]]; cbn; lia.
  - intros [Hne | Hne]; [|exact (Hp Hne)].
    destruct Ho as [Hnil | [_ Hrun]]; [contradiction | exact Hrun].
Qed.

Lemma sender_has_at_most_one_send_outstanding_witness :
  let user := fun (h : HandlerId) (_ : list DatagramSender.Event) =>
                [DatagramSender.CallAsyncSend [Byte.x41] (1, 2) 5 (S h)] in
  let w := fold_left (SenderRuns.react message.stringEncoder user)
             [SenderRuns.Do (DatagramSender.CallAsyncSend [Byte.x42] (1, 2) 5 1%nat);
              SenderRuns.Do (DatagramSender.CallAsyncSend [Byte.x43] (1, 2) 5 2%nat);
              SenderRuns.Completed error.error_code_default 5;
              SenderRuns.TimedOut;
              SenderRuns.Completed error.error_code_default 5]
             DatagramSender.create in
  (length (DatagramSender.outstanding (manager.env w)) <= 1)%nat.
Proof.
  intros user w.
  refine (proj1 (sender_has_at_most_one_send_outstanding
                   message.stringEncoder user w _)).
  eexists. reflexivity.
Defined.

(** X19. Sends issued back to back on an idle sender go out one at a
    time and in the order of the calls: the first is started at once,
    the others wait in the queue, and each completion starts the next
    one. With every send transferred in full, after [k] completions
    exactly the first [k] handlers have been invoked, in call order
    and each with [success], the send number [k+1] is the one on the
    socket, and the later ones are still queued. (Handlers here make
    no calls of their own.) *)
Theorem sender_sends_in_call_order
        {Message : Type} (encode : Message -> option (list byte))
        (user : HandlerId -> list DatagramSender.Event
                -> list (@DatagramSender.Call Message))
        (w : manager.World manager.PendingOperationQueue DatagramSender.Op
                           DatagramSender.Env)
        (sends : list (Message * list byte * Endpoint * Duration * HandlerId))
        (k : nat) :
  (forall h l, user h l = []) ->
  Forall (fun s => encode (fst (fst (fst (fst s)))) = Some (snd (fst (fst (fst s)))))
         sends ->
  manager.running (manager.mgr w) = false ->
  manager.pendingOperations (manager.mgr w) = [] ->
  DatagramSender.outstanding (manager.env w) = [] ->
  let w1 := fold_left (fun w s =>
                         let '(m, _, endpoint, timeout, handler) := s in
                         DatagramSender.asyncSend encode m endpoint timeout handler w)
                      sends w in
  let wk := Nat.iter k (SenderRuns.completeInFull encode user) w1 in
  DatagramSender.invocations wk
  = DatagramSender.invocations w
    ++ map (fun s => DatagramSender.Invoked (snd s) error.success) (firstn k sends) /\
  map DatagramSender.handler (DatagramSender.outstanding (manager.env wk))
  = map snd (firstn 1 (skipn k sends)) /\
  map DatagramSender.opHandler (manager.pendingOperations (manager.mgr wk))
  = map snd (skipn (S k) sends).
Proof.
  intros Huser Henc Hr Hp Ho w1 wk.
  set (toOp := fun s : Message * list byte * Endpoint * Duration * HandlerId =>
                 let '(_, data, endpoint, timeout, handler) := s in
                 SenderRuns.opOf data endpoint timeout handler).
  assert (Hh : forall s, DatagramSender.opHandler (toOp s) = snd s)
    by (intros [[[[m data] endpoint] timeout] handler]; reflexivity).
  assert (H1 : w1 = manager.startOperations DatagramSender.asyncSendOperation
                      DatagramSender.cancelOperation (map toOp sends) w)
    by (apply asyncSends_are_startOperations; exact Henc).
  assert (Hinv : match map toOp sends with
                 | [] => DatagramSender.outstanding (manager.env w1) = [] /\
                         manager.pendingOperations (manager.mgr w1) = []
                 | op :: q =>
                     manager.pendingOperations (manager.mgr w1) = q /\
                     manager.running (manager.mgr w1) = true /\
                     DatagramSender.socketOpen (manager.env w1) = true /\
                     DatagramSender.outstanding (manager.env w1)
                     = [{| DatagramSender.data := DatagramSender.opData op;
                           DatagramSender.handler := DatagramSender.opHandler op;
                           DatagramSender.finishedNotifier := manager.newNotifier |}]
                 end /\
                 DatagramSender.invocations w1 = DatagramSender.invocations w).
  { rewrite H1. destruct (map toOp sends) as [|op q] eqn:E.
    - cbn. auto.
    - destruct (sends_started op q w) as (A & B & C & D & _ & F).
      + destruct w as [[p r cd] e]. cbn in Hr, Hp. subst p r. reflexivity.
      + exact Ho.
      + auto. }
  destruct Hinv as [Hinv Hi0].
  destruct (completeInFull_steps encode user Huser k (map toOp sends) w1 Hinv)
    as (Hi & Hout & Hpend).
  fold wk in Hi, Hout, Hpend.
  split; [|split].
  - rewrite Hi, Hi0. f_equal. rewrite firstn_map, map_map.
    apply map_ext. intros s. now rewrite Hh.
  - rewrite Hout, skipn_map, firstn_map, !map_map.
    apply map_ext. intros s. cbn. apply Hh.
  - rewrite Hpend, skipn_map, map_map.
    apply map_ext. intros s. apply Hh.
Qed.

Lemma sender_sends_in_call_order_witness :
  let sends := [([Byte.x41], [Byte.x41], (1, 2), 5, 1%nat);
                ([Byte.x42], [Byte.x42], (1, 2), 5, 2%nat);
                ([Byte.x43], [Byte.x43], (1, 2), 5, 3%nat)] in
  let w1 := fold_left (fun w s =>
                         let '(m, _, endpoint, timeout, handler) := s in
                         DatagramSender.asyncSend message.stringEncoder
                           m endpoint timeout handler w)
                      sends DatagramSender.create in
  DatagramSender.invocations
    (Nat.iter 2 (SenderRuns.completeInFull message.stringEncoder (fun _ _ => [])) w1)
  = [DatagramSender.Invoked 1%nat error.success;
     DatagramSender.Invoked 2%nat error.success].
Proof.
  intros sends w1.
  refine (proj1 (sender_sends_in_call_order message.stringEncoder (fun _ _ => [])
                   DatagramSender.create sends 2 (fun _ _ => eq_refl) _
                   eq_refl eq_refl eq_refl)).
  repeat constructor.
Defined.

(** ** DatagramSender.h: cancelling with sends queued *)

(** X20. [cancel()] on a sender with one send in flight and others
    queued behind it: the queued sends are discarded, and their
    handlers are never invoked, not even with an error. Only the
    handler of the send in flight runs when its completion arrives,
    with [failedOperation] when fewer bytes than the frame were
    transferred and [aborted] otherwise; it runs with the sender idle,
    nothing queued and nothing outstanding. *)
Theorem sender_cancel_discards_queued_sends
        {Message : Type} (encode : Message -> option (list byte))
        (user : HandlerId -> list DatagramSender.Event
                -> list (@DatagramSender.Call Message))
        (w : manager.World manager.PendingOperationQueue DatagramSender.Op
                           DatagramSender.Env)
        (first : Message * list byte * Endpoint * Duration * HandlerId)
        (queued : list (Message * list byte * Endpoint * Duration * HandlerId))
        (boostCode : error.error_code) (numBytesTransferred : Z) :
  Forall (fun s => encode (fst (fst (fst (fst s)))) = Some (snd (fst (fst (fst s)))))
         (first :: queued) ->
  manager.running (manager.mgr w) = false ->
  manager.pendingOperations (manager.mgr w) = [] ->
  DatagramSender.outstanding (manager.env w) = [] ->
  let w1 := fold_left (fun w s =>
                         let '(m, _, endpoint, timeout, handler) := s in
                         DatagramSender.asyncSend encode m endpoint timeout handler w)
                      (first :: queued) w in
  let w2 := DatagramSender.sendCompleted encode user boostCode numBytesTransferred
              (DatagramSender.cancel w1) in
  let e := if numBytesTransferred
              <? internal.getSize (message.frameOf (snd (fst (fst (fst first)))))
           then error.failedOperation else error.aborted in
  map DatagramSender.opHandler (manager.pendingOperations (manager.mgr w1))
  = map snd queued /\
  exists idle,
    w2 = DatagramSender.invokeHandler encode user (snd first) e idle /\
    manager.mgr idle = {| manager.pendingOperations := [];
                          manager.running := false; manager.canceled := false |} /\
    DatagramSender.outstanding (manager.env idle) = [] /\
    DatagramSender.invocations idle = DatagramSender.invocations w /\
    DatagramSender.invocations w2
    = DatagramSender.invocations w ++ [DatagramSender.Invoked (snd first) e].
Proof.
  intros Henc Hr Hp Ho w1 w2 e.
  set (toOp := fun s : Message * list byte * Endpoint * Duration * HandlerId =>
                 let '(_, data, endpoint, timeout, handler) := s in
                 SenderRuns.opOf data endpoint timeout handler).
  assert (Hh : forall s, DatagramSender.opHandler (toOp s) = snd s)
    by (intros [[[[m data] endpoint] timeout] handler]; reflexivity).
  assert (H1 : w1 = manager.startOperations DatagramSender.asyncSendOperation
                      DatagramSender.cancelOperation (map toOp (first :: queued)) w)
    by (apply asyncSends_are_startOperations; exact Henc).
  cbn [map] in H1.
  destruct (sends_started (toOp first) (map toOp queued) w) as (A & B & C & D & _ & F).
  { destruct w as [[p r cd] env0]. cbn in Hr, Hp. subst p r. reflexivity. }
  { exact Ho. }
  rewrite <- H1 in A, B, C, D, F.
  split.
  { rewrite A, map_map. apply map_ext. exact Hh. }
  destruct w1 as [[p1 r1 cd1] [s1 o1 ps1 l1]].
  cbn [manager.mgr manager.env manager.pendingOperations manager.running
       DatagramSender.socketOpen DatagramSender.outstanding] in A, B, C, D.
  subst p1 r1 s1 o1.
  exists {| manager.mgr := {| manager.pendingOperations := [];
                              manager.running := false; manager.canceled := false |};
            manager.env := {| DatagramSender.socketOpen := false;
                              DatagramSender.outstanding := [];
                              DatagramSender.posted := ps1;
                              DatagramSender.log := l1 |} |}.
  assert (H2 : w2 = DatagramSender.invokeHandler encode user (snd first) e
                      {| manager.mgr :=
                           {| manager.pendingOperations := [];
                              manager.running := false; manager.canceled := false |};
                         manager.env :=
                           {| DatagramSender.socketOpen := false;
                              DatagramSender.outstanding := [];
                              DatagramSender.posted := ps1;
                              DatagramSender.log := l1 |} |}).
  { subst w2 e. destruct first as [[[[m data] endpoint] timeout] handler].
    reflexivity. }
  split; [exact H2|]. split; [reflexivity|]. split; [reflexivity|].
  split; [exact F|].
  rewrite H2, sender_invokeHandler_invocations. f_equal. exact F.
Qed.

Lemma sender_cancel_discards_queued_sends_witness :
  let sends := [([Byte.x41], [Byte.x41], (1, 2), 5, 1%nat);
                ([Byte.x42], [Byte.x42], (1, 2), 5, 2%nat);
                ([Byte.x43], [Byte.x43], (1, 2), 5, 3%nat)] in
  let w1 := fold_left (fun w s =>
                         let '(m, _, endpoint, timeout, handler) := s in
                         DatagramSender.asyncSend message.stringEncoder
                           m endpoint timeout handler w)
                      sends DatagramSender.create in
  DatagramSender.invocations
    (DatagramSender.sendCompleted message.stringEncoder (fun _ _ => [])
       error.error_code_default 5 (DatagramSender.cancel w1))
  = [DatagramSender.Invoked 1%nat error.aborted].
Proof.
  intros sends w1.
  destruct (sender_cancel_discards_queued_sends
              message.stringEncoder (fun _ _ => []) DatagramSender.create
              ([Byte.x41], [Byte.x41], (1, 2), 5, 1%nat)
              [([Byte.x42], [Byte.x42], (1, 2), 5, 2%nat);
               ([Byte.x43], [Byte.x43], (1, 2), 5, 3%nat)]
              error.error_code_default 5
              ltac:(repeat constructor) eq_refl eq_refl eq_refl)
    as (_ & idle & _ & _ & _ & _ & H).
  exact H.
Defined.

(** ** DatagramReceiver.h: receives are serialized *)

Section ReceiverSerialized.
Import manager.
Context {Message : Type}.
Variable decode : internal.ConstBuffer -> option Message.
Variable defaultMessage : Message.
Variable user : HandlerId -> list (@DatagramReceiver.Event Message)
                -> list DatagramReceiver.Call.
Variable maxMessageSize : Z.

Local Abbreviation World :=
  (World PendingOperationReplacer DatagramReceiver.Op (@DatagramReceiver.Env Message)).
Local Abbreviation serialized := (@ReceiverRuns.serialized Message).

Lemma receiver_serialized_runCall (w : World) (c : DatagramReceiver.Call) :
  serialized w -> serialized (DatagramReceiver.runCall w c).
Proof.
  intros [Hp Ho]. destruct w as [[p r cd] [s b o l]]. cbn in Hp, Ho.
  destruct c as [timeout handler|].
  - cbn [DatagramReceiver.runCall]. unfold DatagramReceiver.asyncReceive, startOperation.
    cbn [mgr running negb]. destruct r; cbn [negb].
    + split; cbn; [reflexivity|].
      destruct Ho as [Ho | Ho]; [left; exact Ho | right; exact Ho].
    + destruct Ho as [Ho | [_ Hr]]; [|discriminate Hr]. subst o.
      split; cbn; [reflexivity|]. right. split; [|reflexivity].
      destruct s; cbn; eexists; reflexivity.
  - split; cbn; [congruence|]. exact Ho.
Qed.

Lemma receiver_serialized_runCalls (calls : list DatagramReceiver.Call) :
  forall w : World, serialized w ->
                    serialized (fold_left DatagramReceiver.runCall calls w).
Proof.
  induction calls as [|c calls IH]; intros w Hw; cbn [fold_left]; [exact Hw|].
  apply IH, receiver_serialized_runCall, Hw.
Qed.

Lemma receiver_serialized_invokeHandler h e m ep (w : World) :
  serialized w -> serialized (DatagramReceiver.invokeHandler user h e m ep w).
Proof.
  intros Hw. unfold DatagramReceiver.invokeHandler.
  apply receiver_serialized_runCalls.
  destruct w as [m0 [s b o l]]. exact Hw.
Qed.

Lemma receiver_serialized_finish (w : World) :
  (pendingOperations (mgr w) <> None -> running (mgr w) = true) ->
  DatagramReceiver.outstanding (env w) = [] ->
  serialized (DatagramReceiver.finish w).
Proof.
  intros Hp Ho. destruct w as [[p r cd] [s b o l]]. cbn in Hp, Ho. subst o.
  unfold DatagramReceiver.finish, finishOperation.
  destruct p as [op|]; cbn.
  - assert (Hr : r = true) by (apply Hp; discriminate). subst r.
    split; cbn; [reflexivity|]. right. split; [|reflexivity].
    destruct s; cbn; eexists; reflexivity.
  - split; cbn; [congruence | left; reflexivity].
Qed.

Lemma receiver_serialized_receiveHandler st e m ep (w : World) :
  (pendingOperations (mgr w) <> None -> running (mgr w) = true) ->
  DatagramReceiver.outstanding (env w) = [] ->
  serialized (DatagramReceiver.receiveHandler user st e m ep w).
Proof.
  intros Hp Ho. unfold DatagramReceiver.receiveHandler.
  destruct (isCanceled w).
  - unfold destroy. destruct (enabled (DatagramReceiver.finishedNotifier st)).
    + apply receiver_serialized_finish; assumption.
    + split; [exact Hp | left; exact Ho].
  - cbn [notify destroy enabled].
    apply receiver_serialized_invokeHandler, receiver_serialized_finish; assumption.
Qed.

Lemma receiver_serialized_receiveCompleted boostCode datagram ep (w : World) :
  serialized w ->
  serialized (DatagramReceiver.receiveCompleted decode defaultMessage user
                boostCode datagram ep w).
Proof.
  intros Hw. pose proof Hw as [Hp Ho].
  unfold DatagramReceiver.receiveCompleted.
  destruct (DatagramReceiver.outstanding (env w)) as [|st rest] eqn:E; [exact Hw|].
  destruct Ho as [Ho | [[x Hx] Hr]]; [discriminate|].
  injection Hx as -> ->.
  destruct (message.asyncReceiveDatagram decode defaultMessage
              (DatagramReceiver.socketOpen (env w))
              (DatagramReceiver.buffer (env w)) boostCode datagram) as [[e m] b'].
  apply receiver_serialized_receiveHandler; [exact Hp | reflexivity].
Qed.

Lemma receiver_reachable_serialized (w : World) :
  ReceiverRuns.reachable decode defaultMessage user maxMessageSize w -> serialized w.
Proof.
  intros [inputs ->].
  assert (H : forall w0 : World, serialized w0 ->
                serialized (fold_left (ReceiverRuns.react decode defaultMessage user)
                              inputs w0)).
  { induction inputs as [|i inputs IH]; intros w0 H0; cbn [fold_left]; [exact H0|].
    apply IH. destruct i as [c|boostCode datagram ep|]; cbn [ReceiverRuns.react].
    - apply receiver_serialized_runCall, H0.
    - apply receiver_serialized_receiveCompleted, H0.
    - destruct w0 as [m [s b o l]]. exact H0. }
  apply H. split; cbn; [congruence | left; reflexivity].
Qed.

End ReceiverSerialized.

(** ** ServiceClient.h: calls are serialized *)

Section ClientSerialized.
Import manager.
Context {RequestMessage ResponseMessage : Type}.
Variable encodeRequest : RequestMessage -> option (list byte).
Variable decodeResponse : internal.ConstBuffer -> option ResponseMessage.
Variable noResponse : ResponseMessage.
Variable maxMessageSize : Z.
Variable user : HandlerId -> list (@ServiceClient.Event ResponseMessage)
                -> list (@ServiceClient.Call RequestMessage).

Local Abbreviation World :=
  (World PendingOperationQueue ServiceClient.Op (@ServiceClient.Env ResponseMessage)).
Local Abbreviation serialized := (@ClientRuns.serialized ResponseMessage).

Lemma client_started_single (op : ServiceClient.Op) n s ps l :
  exists x s' l',
    ServiceClient.asyncCallOperation maxMessageSize op
      {| ServiceClient.now := n; ServiceClient.socketOpen := s;
         ServiceClient.outstanding := []; ServiceClient.posted := ps;
         ServiceClient.log := l |}
    = ({| ServiceClient.now := n; ServiceClient.socketOpen := s';
          ServiceClient.outstanding := [x]; ServiceClient.posted := ps;
          ServiceClient.log := l' |} : @ServiceClient.Env ResponseMessage).
Proof.
  unfold ServiceClient.asyncCallOperation.
  destruct (ServiceClient.opTarget op); cbn; do 3 eexists; reflexivity.
Qed.

Lemma client_serialized_runCall (w : World) (c : ServiceClient.Call) :
  serialized w ->
  serialized (ServiceClient.runCall encodeRequest maxMessageSize w c).
Proof.
  intros [Hp Ho]. destruct w as [[p r cd] [n s o ps l]]. cbn in Hp, Ho.
  destruct c as [request target timeout handler|].
  - cbn [ServiceClient.runCall].
    unfold ServiceClient.asyncCall, ServiceClient.encode.
    destruct (encodeRequest request) as [data|]; [|split; cbn; assumption].
    unfold startOperation. cbn [mgr running negb].
    destruct r; cbn [negb].
    + split; cbn; [reflexivity|].
      destruct Ho as [Ho | Ho]; [left; exact Ho | right; exact Ho].
    + destruct Ho as [Ho | [_ Hr]]; [|discriminate Hr]. subst o.
      match goal with
      | |- context [onEnv (ServiceClient.asyncCallOperation _ ?op) _] =>
          destruct (client_started_single op n s ps l) as (x & s' & l' & Hx)
      end.
      split; cbn; [reflexivity|]. right. split; [|reflexivity].
      cbn in Hx. rewrite Hx. eexists. reflexivity.
  - split; cbn; [congruence|]. exact Ho.
Qed.

Lemma client_serialized_runCalls (calls : list ServiceClient.Call) :
  forall w : World,
    serialized w ->
    serialized (fold_left (ServiceClient.runCall encodeRequest maxMessageSize) calls w).
Proof.
  induction calls as [|c calls IH]; intros w Hw; cbn [fold_left]; [exact Hw|].
  apply IH, client_serialized_runCall, Hw.
Qed.

Lemma client_serialized_invokeHandler h e r (w : World) :
  serialized w ->
  serialized (ServiceClient.invokeHandler encodeRequest maxMessageSize user h e r w).
Proof.
  intros Hw. unfold ServiceClient.invokeHandler.
  apply client_serialized_runCalls.
  destruct w as [m0 [n s o ps l]]. exact Hw.
Qed.

Lemma client_serialized_finish (w : World) :
  (pendingOperations (mgr w) <> [] -> running (mgr w) = true) ->
  ServiceClient.outstanding (env w) = [] ->
  serialized (ServiceClient.finish maxMessageSize w).
Proof.
  intros Hp Ho. destruct w as [[p r cd] [n s o ps l]]. cbn in Hp, Ho. subst o.
  unfold ServiceClient.finish, finishOperation.
  destruct p as [|op p]; cbn [setCanceled setRunning setPending onEnv mgr env
    pendingOperations running canceled hasPendingOperation getPendingOperation
    popPendingOperation queue negb hd_error tl].
  - split; cbn; [congruence | left; reflexivity].
  - assert (Hr : r = true) by (apply Hp; discriminate). subst r.
    destruct (client_started_single op n s ps l) as (x & s' & l' & Hx).
    split; cbn [mgr env pendingOperations running]; [reflexivity|].
    right. split; [|reflexivity].
    unfold onEnv, setPending, setCanceled.
    cbn [env mgr pendingOperations running canceled].
    rewrite Hx. eexists. reflexivity.
Qed.

Lemma client_serialized_exitStage st e r (w : World) :
  (pendingOperations (mgr w) <> [] -> running (mgr w) = true) ->
  ServiceClient.outstanding (env w) = [] ->
  serialized (ServiceClient.exitStage encodeRequest maxMessageSize user st e r w).
Proof.
  intros Hp Ho. rewrite exitStage_invokes.
  apply client_serialized_invokeHandler, client_serialized_finish.
  - destruct w as [m0 [n s o ps l]]. exact Hp.
  - destruct w as [m0 [n s o ps l]]. exact Ho.
Qed.

Lemma client_serialized_submit stage st (w : World) :
  running (mgr w) = true ->
  ServiceClient.outstanding (env w) = [] ->
  serialized (onEnv (ServiceClient.submit stage st) w).
Proof.
  intros Hr Ho. destruct w as [[p r cd] [n s o ps l]]. cbn in Hr, Ho. subst r o.
  split; cbn; [reflexivity|]. right. split; [|reflexivity]. eexists. reflexivity.
Qed.

Lemma client_serialized_connectHandler st e (w : World) :
  running (mgr w) = true ->
  ServiceClient.outstanding (env w) = [] ->
  serialized (ServiceClient.connectHandler encodeRequest noResponse maxMessageSize
                user st e w).
Proof.
  intros Hr Ho. unfold ServiceClient.connectHandler.
  destruct (error.to_bool e).
  - apply client_serialized_exitStage; auto.
  - apply client_serialized_submit; assumption.
Qed.

Lemma client_serialized_writeHandler st e (w : World) :
  running (mgr w) = true ->
  ServiceClient.outstanding (env w) = [] ->
  serialized (ServiceClient.writeHandler encodeRequest noResponse maxMessageSize
                user st e w).
Proof.
  intros Hr Ho. unfold ServiceClient.writeHandler.
  destruct (error.to_bool e).
  - apply client_serialized_exitStage; auto.
  - apply client_serialized_submit; assumption.
Qed.

Lemma client_serialized_completed c (w : World) :
  serialized w ->
  serialized (ServiceClient.completed encodeRequest decodeResponse noResponse
                maxMessageSize user c w).
Proof.
  intros Hw. pose proof Hw as [Hp Ho].
  unfold ServiceClient.completed.
  destruct (ServiceClient.outstanding (env w)) as [|[stage st] rest] eqn:E;
    [exact Hw|].
  destruct Ho as [Ho | [[x Hx] Hr]]; [discriminate|].
  injection Hx as <- ->.
  destruct stage as [resolverOpen| | |], c as [bc eps|bc|bc nb|wire];
    try exact Hw.
  - destruct (error.to_bool (closeable.completionError resolverOpen bc)).
    + apply client_serialized_connectHandler; [exact Hr | reflexivity].
    + unfold ServiceClient.beginConnect.
      destruct w as [[p r cd] [n s o ps l]]. cbn in Hr. subst r.
      split; cbn; [reflexivity|]. right. split; [|reflexivity].
      eexists. reflexivity.
  - apply client_serialized_connectHandler; [exact Hr | reflexivity].
  - apply client_serialized_writeHandler; [exact Hr | reflexivity].
  - destruct (message.asyncReceive decodeResponse noResponse
                (ServiceClient.socketOpen (env w)) (ServiceClient.buffer st) wire)
      as [[e r] sb].
    unfold ServiceClient.readHandler.
    apply client_serialized_exitStage; [auto | reflexivity].
Qed.

Lemma client_serialized_runPosted (w : World) :
  serialized w ->
  serialized (ServiceClient.runPosted encodeRequest noResponse maxMessageSize user w).
Proof.
  intros Hw. unfold ServiceClient.runPosted.
  destruct (ServiceClient.posted (env w)) as [|h rest]; [exact Hw|].
  apply client_serialized_invokeHandler.
  destruct w as [m [n s o ps l]]. exact Hw.
Qed.

Lemma client_serialized_timedOut (w : World) :
  serialized w -> serialized (ServiceClient.timedOut w).
Proof.
  intros [Hp Ho]. destruct w as [m [n s o ps l]]. cbn in Hp, Ho.
  unfold ServiceClient.timedOut. cbn [env ServiceClient.outstanding].
  destruct o as [|[[resolverOpen| | |] st] rest];
    try (split; cbn; assumption).
  split; cbn; [exact Hp|].
  destruct Ho as [Ho | [[x Hx] Hr]]; [discriminate|].
  injection Hx as <- ->. right. split; [|exact Hr]. eexists. reflexivity.
Qed.

Lemma client_reachable_serialized (w : World) :
  ClientRuns.reachable encodeRequest decodeResponse noResponse maxMessageSize user w ->
  serialized w.
Proof.
  intros [inputs ->].
  assert (H : forall w0 : World, serialized w0 ->
                serialized (fold_left
                              (ClientRuns.react encodeRequest decodeResponse
                                 noResponse maxMessageSize user) inputs w0)).
  { induction inputs as [|i inputs IH]; intros w0 H0; cbn [fold_left]; [exact H0|].
    apply IH. destruct i as [c|c| |t|]; cbn [ClientRuns.react].
    - apply client_serialized_runCall, H0.
    - apply client_serialized_completed, H0.
    - apply client_serialized_runPosted, H0.
    - destruct w0 as [m [n s o ps l]]. exact H0.
    - apply client_serialized_timedOut, H0. }
  apply H. split; cbn; [congruence | left; reflexivity].
Qed.

End ClientSerialized.

(** X21. In every state a receiver can reach from construction (any
    calls, completions and deadlines, with handlers that call back
    into the receiver), at most one receive is outstanding on the
    socket, so the single receive buffer is never written by two
    receives, and the manager is [running] whenever a receive is
    outstanding or pending. *)
Theorem receiver_has_at_most_one_receive_outstanding
        {Message : Type} (decode : internal.ConstBuffer -> option Message)
        (defaultMessage : Message)
        (user : HandlerId -> list (@DatagramReceiver.Event Message)
                -> list DatagramReceiver.Call)
        (maxMessageSize : Z)
        (w : manager.World manager.PendingOperationReplacer DatagramReceiver.Op
                           (@DatagramReceiver.Env Message)) :
  ReceiverRuns.reachable decode defaultMessage user maxMessageSize w ->
  (length (DatagramReceiver.outstanding (manager.env w)) <= 1)%nat /\
  (DatagramReceiver.outstanding (manager.env w) <> [] \/
   manager.pendingOperations (manager.mgr w) <> None ->
   manager.running (manager.mgr w) = true).
Proof.
  intros Hr.
  destruct (receiver_reachable_serialized decode defaultMessage user
              maxMessageSize w Hr) as [Hp Ho].
  split.
  - destruct Ho as [-> | [[x ->] _]]; cbn; lia.
  - intros [Hne | Hne]; [|exact (Hp Hne)].
    destruct Ho as [Hnil | [_ Hrun]]; [contradiction | exact Hrun].
Qed.

Lemma receiver_has_at_most_one_receive_outstanding_witness :
  let user := fun (h : HandlerId) (_ : list (@DatagramReceiver.Event (list byte))) =>
                [DatagramReceiver.CallAsyncReceive 5 (S h)] in
  let w := fold_left (ReceiverRuns.react message.stringDecoder [] user)
             [ReceiverRuns.Do (DatagramReceiver.CallAsyncReceive 5 1%nat);
              ReceiverRuns.Do (DatagramReceiver.CallAsyncReceive 5 2%nat);
              ReceiverRuns.Completed error.error_code_default [] (1, 2);
              ReceiverRuns.TimedOut;
              ReceiverRuns.Completed error.error_code_default [] (1, 2)]
             (DatagramReceiver.create 8) in
  (length (DatagramReceiver.outstanding (manager.env w)) <= 1)%nat.
Proof.
  intros user w.
  refine (proj1 (receiver_has_at_most_one_receive_outstanding
                   message.stringDecoder [] user 8 w _)).
  eexists. reflexivity.
Defined.

(** X22. In every state a service client can reach from construction
    (any calls, stage completions, posted tasks, passing of time and
    deadlines, with handlers that call back into the client), at most
    one stage of one call is outstanding, so the client's single
    socket is never used by two calls at once, and the manager is
    [running] whenever a stage is outstanding or a call is queued. *)
Theorem client_has_at_most_one_stage_outstanding
        {RequestMessage ResponseMessage : Type}
        (encodeRequest : RequestMessage -> option (list byte))
        (decodeResponse : internal.ConstBuffer -> option ResponseMessage)
        (noResponse : ResponseMessage) (maxMessageSize : Z)
        (user : HandlerId -> list (@ServiceClient.Event ResponseMessage)
                -> list (@ServiceClient.Call RequestMessage))
        (w : manager.World manager.PendingOperationQueue ServiceClient.Op
                           (@ServiceClient.Env ResponseMessage)) :
  ClientRuns.reachable encodeRequest decodeResponse noResponse maxMessageSize user w ->
  (length (ServiceClient.outstanding (manager.env w)) <= 1)%nat /\
  (ServiceClient.outstanding (manager.env w) <> [] \/
   manager.pendingOperations (manager.mgr w) <> [] ->
   manager.running (manager.mgr w) = true).
Proof.
  intros Hr.
  destruct (client_reachable_serialized encodeRequest decodeResponse noResponse
              maxMessageSize user w Hr) as [Hp Ho].
  split.
  - destruct Ho as [-> | [[x ->] _]]; cbn; lia.
  - intros [Hne | Hne]; [|exact (Hp Hne)].
    destruct Ho as [Hnil | [_ Hrun]]; [contradiction | exact Hrun].
Qed.

Lemma client_has_at_most_one_stage_outstanding_witness :
  let user := fun (h : HandlerId) (_ : list (@ServiceClient.Event (list byte))) =>
                [ServiceClient.CallAsyncCall [Byte.x41]
                   (ServiceClient.ByEndpoints [(1, 2)]) 5 (S h)] in
  let w := fold_left (ClientRuns.react message.stringEncoder message.stringDecoder
                        [] 8 user)
             [ClientRuns.Do (ServiceClient.CallAsyncCall [Byte.x42]
                               (ServiceClient.ByHost [Byte.x68] 80) 5 1%nat);
              ClientRuns.Do (ServiceClient.CallAsyncCall [Byte.x43]
                               (ServiceClient.ByEndpoints [(1, 2)]) 5 2%nat);
              ClientRuns.Completed
                (ServiceClient.ResolveDone error.error_code_default [(1, 2)]);
              ClientRuns.TimedOut;
              ClientRuns.Completed (ServiceClient.ConnectDone error.error_code_default);
              ClientRuns.Advance 3;
              ClientRuns.Completed (ServiceClient.ConnectDone error.error_code_default)]
             ServiceClient.create in
  (length (ServiceClient.outstanding (manager.env w)) <= 1)%nat.
Proof.
  intros user w.
  refine (proj1 (client_has_at_most_one_stage_outstanding
                   message.stringEncoder message.stringDecoder [] 8 user w _)).
  eexists. reflexivity.
Defined.

(** ** Message.h, ServiceClient.h: a call that succeeds *)

Section FrameReceive.
Context {Message : Type}.
Variable decode : internal.ConstBuffer -> option Message.
Variable defaultMessage : Message.
Variable decodeBytes : list byte -> option Message.
(** The decoder reads the window from [begin()] to [end()]. *)
Hypothesis Hdecode : forall window, decode window = decodeBytes (internal.bytes window).
Variable maxMessageSize : Z.
Variable p : list byte.
Hypothesis Hmax : Z.of_nat (length p) <= maxMessageSize.
Hypothesis Hcap : maxMessageSize + internal.HEADER_SIZE < 2 ^ 64.
Hypothesis Hlen : Z.of_nat (length p) < 2 ^ 32.

Lemma asyncRead_frame :
  exists window,
    internal.bytes window = p /\
    stream.asyncRead true (message.serviceBuffer maxMessageSize)
      (internal.getBuffers (message.frameOf p))
    = (error.success, window, message.serviceBuffer maxMessageSize).
Proof.
  assert (Hsb : forall c n,
             (length c <= Z.to_nat n)%nat ->
             asio.consume n {| asio.contents := c; asio.max_size := maxMessageSize + 4 |}
             = message.serviceBuffer maxMessageSize).
  { intros c n Hc. unfold asio.consume, message.serviceBuffer.
    cbn [asio.contents asio.max_size].
    rewrite (capacity p maxMessageSize Hmax Hcap).
    f_equal. apply skipn_all2. exact Hc. }
  unfold stream.asyncRead.
  rewrite (frameOf_getBuffers p Hlen).
  rewrite (read_exactly_header p maxMessageSize Hmax Hcap) by reflexivity.
  change (error.to_bool (closeable.completionError true error.error_code_default))
    with false.
  cbv iota. rewrite Z.eqb_refl. cbn [negb].
  unfold stream.numDataBytesFromBuffer. cbn [asio.contents].
  change (firstn (Z.to_nat internal.HEADER_SIZE)
                 (utils.toBigEndian 4 (Z.of_nat (length p))))
    with (utils.toBigEndian 4 (Z.of_nat (length p))).
  rewrite fromBigEndian_toBigEndian by lia.
  destruct (Z.of_nat (length p) =? 0) eqn:E.
  - apply Z.eqb_eq in E.
    assert (p = []) by (destruct p; [reflexivity | cbn in E; lia]).
    eexists. split; [|rewrite Hsb by (cbn; lia); reflexivity].
    subst p. reflexivity.
  - rewrite (read_exactly_payload p maxMessageSize Hmax) by reflexivity.
    unfold stream.asyncRead_data_completion.
    change (error.to_bool (closeable.completionError true error.error_code_default))
      with false.
    cbv iota. rewrite Z.eqb_refl. cbn [negb].
    eexists. split.
    2:{ rewrite Hsb; [reflexivity|].
        rewrite length_app. unfold internal.HEADER_SIZE.
        change (length (utils.toBigEndian 4 (Z.of_nat (length p)))) with 4%nat.
        lia. }
    cbn [asio.contents].
    replace (utils.toBigEndian 4 (Z.of_nat (length p)) ++ p)
      with (utils.toBigEndian 4 (Z.of_nat (length p)) ++ p ++ [])
      by now rewrite app_nil_r.
    apply view_of_frame. reflexivity.
Qed.

Lemma asyncReceive_frame :
  message.asyncReceive decode defaultMessage true
    (message.serviceBuffer maxMessageSize)
    (internal.getBuffers (message.frameOf p))
  = (match decodeBytes p with
     | Some m => (error.success, m)
     | None => (error.decoding, defaultMessage)
     end,
     message.serviceBuffer maxMessageSize).
Proof.
  unfold message.asyncReceive.
  destruct asyncRead_frame as (window & Hw & ->).
  unfold message.asyncReceive_handler. rewrite Hdecode, Hw. reflexivity.
Qed.

End FrameReceive.

Section ClientCall.
Import manager.
Context {RequestMessage ResponseMessage : Type}.
Variable encodeRequest : RequestMessage -> option (list byte).
Variable decodeResponse : internal.ConstBuffer -> option ResponseMessage.
Variable noResponse : ResponseMessage.
Variable maxMessageSize : Z.
Variable user : HandlerId -> list (@ServiceClient.Event ResponseMessage)
                -> list (@ServiceClient.Call RequestMessage).

Local Abbreviation World :=
  (World PendingOperationQueue ServiceClient.Op (@ServiceClient.Env ResponseMessage)).
Local Abbreviation completed :=
  (ServiceClient.completed encodeRequest decodeResponse noResponse maxMessageSize user).
Local Abbreviation mkState h data timeout startTime :=
  ({| ServiceClient.handler := h; ServiceClient.sendData := data;
      ServiceClient.timeout := timeout; ServiceClient.startTime := startTime;
      ServiceClient.buffer := message.serviceBuffer maxMessageSize;
      ServiceClient.finishedNotifier := newNotifier |}).
Local Abbreviation running1 stage st n ps l :=
  ({| mgr := {| pendingOperations := []; running := true; canceled := false |};
      env := {| ServiceClient.now := n; ServiceClient.socketOpen := true;
                ServiceClient.outstanding := [(stage, st)];
                ServiceClient.posted := ps; ServiceClient.log := l |} |} : World).

Lemma call_started request data eps timeout h (w : World) :
  encodeRequest request = Some data ->
  mgr w = {| pendingOperations := []; running := false; canceled := false |} ->
  ServiceClient.outstanding (env w) = [] ->
  ServiceClient.asyncCall encodeRequest maxMessageSize request
    (ServiceClient.ByEndpoints eps) timeout h w
  = running1 ServiceClient.Connecting
      (mkState h data timeout (ServiceClient.now (env w)))
      (ServiceClient.now (env w)) (ServiceClient.posted (env w))
      (ServiceClient.log (env w)
       ++ [ServiceClient.Started data (ServiceClient.ByEndpoints eps) timeout h]).
Proof.
  intros He Hm Ho. destruct w as [m [n s o ps l]]. cbn in Hm, Ho. subst m o.
  unfold ServiceClient.asyncCall, ServiceClient.encode. rewrite He. reflexivity.
Qed.

Lemma call_connected t st n ps l :
  completed (ServiceClient.ConnectDone error.error_code_default)
    (ServiceClient.advance t (running1 ServiceClient.Connecting st n ps l))
  = running1 ServiceClient.Writing
      (ServiceClient.updateTimeout (Z.max n t) st) (Z.max n t) ps l.
Proof. reflexivity. Qed.

Lemma call_written t st n ps l :
  completed (ServiceClient.WriteDone error.error_code_default
               (internal.getSize (message.frameOf (ServiceClient.sendData st))))
    (ServiceClient.advance t (running1 ServiceClient.Writing st n ps l))
  = running1 ServiceClient.Reading
      (ServiceClient.updateTimeout (Z.max n t) st) (Z.max n t) ps l.
Proof.
  unfold ServiceClient.completed, ServiceClient.advance.
  cbn [env mgr ServiceClient.outstanding ServiceClient.now ServiceClient.socketOpen
       ServiceClient.posted ServiceClient.log].
  unfold stream.asyncWrite_completion. rewrite Z.ltb_irrefl. reflexivity.
Qed.

Lemma call_answered t st n ps l wire e r sb :
  message.asyncReceive decodeResponse noResponse true (ServiceClient.buffer st) wire
  = (e, r, sb) ->
  completed (ServiceClient.ReadDone wire)
    (ServiceClient.advance t (running1 ServiceClient.Reading st n ps l))
  = ServiceClient.invokeHandler encodeRequest maxMessageSize user
      (ServiceClient.handler st) e r
      {| mgr := {| pendingOperations := []; running := false; canceled := false |};
         env := {| ServiceClient.now := Z.max n t; ServiceClient.socketOpen := false;
                   ServiceClient.outstanding := [];
                   ServiceClient.posted := ps; ServiceClient.log := l |} |}.
Proof.
  intros Hrecv.
  unfold ServiceClient.completed, ServiceClient.advance.
  cbn [env mgr ServiceClient.outstanding ServiceClient.now ServiceClient.socketOpen
       ServiceClient.posted ServiceClient.log].
  rewrite Hrecv. reflexivity.
Qed.

End ClientCall.

(** X23. A service call that meets no error. On an idle client, a
    call by endpoints whose request encodes, followed by the connect
    completing, the request frame written in full, and the frame of a
    response payload within [maxMessageSize] arriving, invokes the
    handler exactly once with [success] and the decoded response,
    with the socket closed and the client idle again. Whatever time
    passes between the stages, the write and the read are each given
    what is left until the one deadline fixed when the call started
    ([start + timeout]). *)
Theorem service_call_succeeds
        {RequestMessage ResponseMessage : Type}
        (encodeRequest : RequestMessage -> option (list byte))
        (decodeResponse : internal.ConstBuffer -> option ResponseMessage)
        (decodeBytes : list byte -> option ResponseMessage)
        (noResponse : ResponseMessage) (maxMessageSize : Z)
        (user : HandlerId -> list (@ServiceClient.Event ResponseMessage)
                -> list (@ServiceClient.Call RequestMessage))
        (w : manager.World manager.PendingOperationQueue ServiceClient.Op
                           (@ServiceClient.Env ResponseMessage))
        (request : RequestMessage) (data : list byte) (eps : list Endpoint)
        (timeout : Duration) (h : HandlerId) (t1 t2 t3 : TimePoint)
        (p : list byte) (response : ResponseMessage) :
  (forall window, decodeResponse window = decodeBytes (internal.bytes window)) ->
  encodeRequest request = Some data ->
  decodeBytes p = Some response ->
  Z.of_nat (length p) <= maxMessageSize ->
  maxMessageSize + internal.HEADER_SIZE < 2 ^ 64 ->
  Z.of_nat (length p) < 2 ^ 32 ->
  manager.mgr w = {| manager.pendingOperations := [];
                     manager.running := false; manager.canceled := false |} ->
  ServiceClient.outstanding (manager.env w) = [] ->
  let completed := ServiceClient.completed encodeRequest decodeResponse noResponse
                     maxMessageSize user in
  let deadline := ServiceClient.now (manager.env w) + timeout in
  let w1 := ServiceClient.asyncCall encodeRequest maxMessageSize request
              (ServiceClient.ByEndpoints eps) timeout h w in
  let w2 := completed (ServiceClient.ConnectDone error.error_code_default)
              (ServiceClient.advance t1 w1) in
  let w3 := completed (ServiceClient.WriteDone error.error_code_default
                         (internal.getSize (message.frameOf data)))
              (ServiceClient.advance t2 w2) in
  let w4 := completed (ServiceClient.ReadDone
                         (internal.getBuffers (message.frameOf p)))
              (ServiceClient.advance t3 w3) in
  (exists st, ServiceClient.outstanding (manager.env w2) = [(ServiceClient.Writing, st)] /\
              ServiceClient.startTime st + ServiceClient.timeout st = deadline) /\
  (exists st, ServiceClient.outstanding (manager.env w3) = [(ServiceClient.Reading, st)] /\
              ServiceClient.startTime st + ServiceClient.timeout st = deadline) /\
  (exists idle,
      w4 = ServiceClient.invokeHandler encodeRequest maxMessageSize user
             h error.success response idle /\
      manager.mgr idle = {| manager.pendingOperations := [];
                            manager.running := false; manager.canceled := false |} /\
      ServiceClient.outstanding (manager.env idle) = [] /\
      ServiceClient.socketOpen (manager.env idle) = false) /\
  ServiceClient.invocations w4
  = ServiceClient.invocations w ++ [ServiceClient.Invoked h error.success response].
Proof.
  intros Hdec Henc Hresp Hmax Hcap Hlen Hm Ho completed deadline w1 w2 w3 w4.
  eassert (H1 : w1 = _) by (apply call_started; eassumption).
  eassert (H2 : w2 = _)
    by (subst w2 completed; rewrite H1; apply call_connected).
  eassert (H3 : w3 = _)
    by (subst w3 completed; rewrite H2;
        apply (call_written encodeRequest decodeResponse noResponse maxMessageSize user)).
  assert (Hrecv : message.asyncReceive decodeResponse noResponse true
                    (message.serviceBuffer maxMessageSize)
                    (internal.getBuffers (message.frameOf p))
                  = (error.success, response, message.serviceBuffer maxMessageSize)).
  { rewrite (asyncReceive_frame decodeResponse noResponse decodeBytes Hdec
               maxMessageSize p Hmax Hcap Hlen).
    rewrite Hresp. reflexivity. }
  eassert (H4 : w4 = _).
  { subst w4 completed. rewrite H3.
    apply (call_answered encodeRequest decodeResponse noResponse maxMessageSize user
             t3 _ _ _ _ _ error.success response
             (message.serviceBuffer maxMessageSize)).
    exact Hrecv. }
  split; [|split; [|split]].
  - rewrite H2. eexists. split; [reflexivity|].
    subst deadline. cbn. lia.
  - rewrite H3. eexists. split; [reflexivity|].
    subst deadline. cbn. lia.
  - eexists. split; [exact H4|]. repeat split.
  - rewrite H4, client_invokeHandler_invocations. f_equal.
    destruct w as [m [n s o ps l]].
    unfold ServiceClient.invocations; cbn. rewrite filter_app; cbn.
    apply app_nil_r.
Qed.

Lemma service_call_succeeds_witness :
  let completed := ServiceClient.completed message.stringEncoder message.stringDecoder
                     [] 8 (fun _ _ => []) in
  let w1 := ServiceClient.asyncCall message.stringEncoder 8 [Byte.x41]
              (ServiceClient.ByEndpoints [(1, 2)]) 10 1%nat ServiceClient.create in
  let w2 := completed (ServiceClient.ConnectDone error.error_code_default)
              (ServiceClient.advance 1 w1) in
  let w3 := completed (ServiceClient.WriteDone error.error_code_default
                         (internal.getSize (message.frameOf [Byte.x41])))
              (ServiceClient.advance 2 w2) in
  let w4 := completed (ServiceClient.ReadDone
                         (internal.getBuffers (message.frameOf [Byte.x42; Byte.x43])))
              (ServiceClient.advance 3 w3) in
  ServiceClient.invocations w4
  = [ServiceClient.Invoked 1%nat error.success [Byte.x42; Byte.x43]].
Proof.
  intros completed w1 w2 w3 w4.
  refine (proj2 (proj2 (proj2
            (service_call_succeeds message.stringEncoder message.stringDecoder
               (fun bs => Some bs) [] 8 (fun _ _ => []) ServiceClient.create
               [Byte.x41] [Byte.x41] [(1, 2)] 10 1%nat 1 2 3
               [Byte.x42; Byte.x43] [Byte.x42; Byte.x43]
               (fun _ => eq_refl) eq_refl eq_refl _ _ _ eq_refl eq_refl)))).
  - vm_compute; discriminate.
  - vm_compute; reflexivity.
  - vm_compute; reflexivity.
Defined.

(** ** Resolver.h: stopping and resolving again *)

Section ResolverFacts.
Import manager.
Variable user : HandlerId -> list Resolver.Event -> list Resolver.Call.

Local Abbreviation World := (World PendingOperationQueue Resolver.Op Resolver.Env).

Lemma resolver_invocations_started (op : Resolver.Op) (e : Resolver.Env) m m' :
  Resolver.invocations
    ({| mgr := m; env := Resolver.asyncResolveOperation op e |} : World)
  = Resolver.invocations ({| mgr := m'; env := e |} : World).
Proof.
  destruct e as [o os l]. unfold Resolver.invocations; cbn.
  rewrite filter_app; cbn. apply app_nil_r.
Qed.

Lemma resolver_runCall_invocations (w : World) (c : Resolver.Call) :
  Resolver.invocations (Resolver.runCall w c) = Resolver.invocations w.
Proof.
  destruct w as [[p r cd] e]. destruct c as [host service timeout handler|].
  - cbn [Resolver.runCall]. unfold Resolver.asyncResolve, startOperation.
    cbn [mgr running negb]. destruct r; cbn [negb].
    + reflexivity.
    + unfold setRunning, onEnv; cbn [mgr env].
      apply resolver_invocations_started.
  - cbn. unfold Resolver.close. destruct e as [o os l]. destruct o; reflexivity.
Qed.

Lemma resolver_runCalls_invocations (calls : list Resolver.Call) :
  forall w : World,
    Resolver.invocations (fold_left Resolver.runCall calls w) = Resolver.invocations w.
Proof.
  induction calls as [|c calls IH]; intros w; cbn [fold_left]; [reflexivity|].
  rewrite IH. apply resolver_runCall_invocations.
Qed.

Lemma resolver_invokeHandler_invocations h e eps (w : World) :
  Resolver.invocations (Resolver.invokeHandler user h e eps w)
  = Resolver.invocations w ++ [Resolver.Invoked h e eps].
Proof.
  unfold Resolver.invokeHandler. rewrite resolver_runCalls_invocations.
  destruct w as [m [o os l]]. unfold Resolver.invocations; cbn.
  rewrite filter_app. reflexivity.
Qed.

Lemma resolver_stopped st1 boostCode eps (w : World) :
  running (mgr w) = true ->
  Resolver.outstanding (env w) = [st1] ->
  Resolver.resolveCompleted user boostCode eps (Resolver.stop w)
  = Resolver.invokeHandler user (Resolver.handler st1) error.aborted eps
      {| mgr := {| pendingOperations := []; running := false; canceled := false |};
         env := {| Resolver.opened := false; Resolver.outstanding := [];
                   Resolver.log := Resolver.log (env w) |} |}.
Proof.
  intros Hr Ho. destruct w as [[p r cd] [o os l]]. cbn in Hr, Ho. subst r os.
  destruct o; reflexivity.
Qed.

Lemma resolver_resolves host service timeout h eps l o :
  Resolver.resolveCompleted user error.error_code_default eps
    (Resolver.asyncResolve host service timeout h
       ({| mgr := {| pendingOperations := []; running := false; canceled := false |};
           env := {| Resolver.opened := o; Resolver.outstanding := [];
                     Resolver.log := l |} |} : World))
  = Resolver.invokeHandler user h error.success eps
      {| mgr := {| pendingOperations := []; running := false; canceled := false |};
         env := {| Resolver.opened := true; Resolver.outstanding := [];
                   Resolver.log := l ++ [Resolver.Started host service timeout h] |} |}.
Proof. reflexivity. Qed.

End ResolverFacts.

(** X24. [stop()] on a resolver with a resolve in flight closes the
    resolver and discards the queued resolves: the completion of the
    one in flight invokes its handler with [aborted], with the
    resolver idle. The closed resolver is not stuck: the next
    [asyncResolve] opens it again, and its completion without a
    transport error invokes the new handler with [success] and the
    endpoints found. (The first handler here makes no calls of its
    own.) *)
Theorem resolver_stop_aborts_then_resolves_again
        (user : HandlerId -> list Resolver.Event -> list Resolver.Call)
        (w : manager.World manager.PendingOperationQueue Resolver.Op Resolver.Env)
        (st1 : Resolver.AsyncState)
        (boostCode : error.error_code) (eps1 eps2 : list Endpoint)
        (host service : list byte) (timeout : Duration) (h2 : HandlerId) :
  manager.running (manager.mgr w) = true ->
  Resolver.outstanding (manager.env w) = [st1] ->
  (forall l, user (Resolver.handler st1) l = []) ->
  let w1 := Resolver.resolveCompleted user boostCode eps1 (Resolver.stop w) in
  let w2 := Resolver.asyncResolve host service timeout h2 w1 in
  let w3 := Resolver.resolveCompleted user error.error_code_default eps2 w2 in
  Resolver.invocations w1
  = Resolver.invocations w
    ++ [Resolver.Invoked (Resolver.handler st1) error.aborted eps1] /\
  manager.mgr w1 = {| manager.pendingOperations := [];
                      manager.running := false; manager.canceled := false |} /\
  Resolver.opened (manager.env w1) = false /\
  Resolver.opened (manager.env w2) = true /\
  Resolver.invocations w3
  = Resolver.invocations w
    ++ [Resolver.Invoked (Resolver.handler st1) error.aborted eps1;
        Resolver.Invoked h2 error.success eps2].
Proof.
  intros Hr Ho Huser w1 w2 w3.
  assert (H1 : w1 = {| manager.mgr :=
                         {| manager.pendingOperations := [];
                            manager.running := false; manager.canceled := false |};
                       manager.env :=
                         {| Resolver.opened := false; Resolver.outstanding := [];
                            Resolver.log :=
                              Resolver.log (manager.env w)
                              ++ [Resolver.Invoked (Resolver.handler st1)
                                    error.aborted eps1] |} |}).
  { subst w1. rewrite (resolver_stopped user st1 boostCode eps1 w Hr Ho).
    unfold Resolver.invokeHandler. rewrite Huser. reflexivity. }
  assert (Hi1 : Resolver.invocations w1
                = Resolver.invocations w
                  ++ [Resolver.Invoked (Resolver.handler st1) error.aborted eps1]).
  { rewrite H1. destruct w as [m [o os l]].
    unfold Resolver.invocations; cbn. rewrite filter_app. reflexivity. }
  split; [exact Hi1|]. split; [rewrite H1; reflexivity|].
  split; [rewrite H1; reflexivity|].
  split; [subst w2; rewrite H1; reflexivity|].
  subst w3 w2. rewrite H1, resolver_resolves, resolver_invokeHandler_invocations.
  rewrite H1 in Hi1.
  change [Resolver.Invoked (Resolver.handler st1) error.aborted eps1;
          Resolver.Invoked h2 error.success eps2]
    with ([Resolver.Invoked (Resolver.handler st1) error.aborted eps1]
          ++ [Resolver.Invoked h2 error.success eps2]).
  rewrite app_assoc, <- Hi1. f_equal.
  unfold Resolver.invocations; cbn. rewrite !filter_app; cbn.
  now rewrite app_nil_r.
Qed.

Lemma resolver_stop_aborts_then_resolves_again_witness :
  let user := fun (_ : HandlerId) (_ : list Resolver.Event) =>
                @nil Resolver.Call in
  let w := Resolver.asyncResolve [Byte.x68] [Byte.x38] 5 1%nat Resolver.create in
  let w1 := Resolver.resolveCompleted user error.error_code_default [] (Resolver.stop w) in
  let w2 := Resolver.asyncResolve [Byte.x68] [Byte.x38] 5 2%nat w1 in
  Resolver.invocations
    (Resolver.resolveCompleted user error.error_code_default [(1, 2)] w2)
  = [Resolver.Invoked 1%nat error.aborted [];
     Resolver.Invoked 2%nat error.success [(1, 2)]].
Proof.
  intros user w w1 w2.
  exact (proj2 (proj2 (proj2 (proj2
           (resolver_stop_aborts_then_resolves_again user w
              {| Resolver.handler := 1%nat;
                 Resolver.finishedNotifier := manager.newNotifier |}
              error.error_code_default [] [(1, 2)] [Byte.x68] [Byte.x38] 5 2%nat
              eq_refl eq_refl (fun _ => eq_refl)))))).
Defined.

(** ** ServiceServer.h: serving requests *)

Section ServerFacts.
Import manager.
Context {RequestMessage ResponseMessage : Type}.
Variable decodeRequest : internal.ConstBuffer -> option RequestMessage.
Variable encodeResponse : ResponseMessage -> option (list byte).
Variable noRequest : RequestMessage.
Variable maxMessageSize : Z.
Variable user : HandlerId -> list (@ServiceServer.Event RequestMessage) -> Endpoint
                -> RequestMessage -> ResponseMessage * list ServiceServer.Call.

Local Abbreviation World :=
  (World PendingOperationReplacer ServiceServer.Op (@ServiceServer.Env RequestMessage)).
Local Abbreviation requestCompleted :=
  (ServiceServer.requestCompleted decodeRequest encodeResponse noRequest user).

(** Calls on the server touch neither the connections in service nor
    the requests and responses in the history. *)
Lemma server_runCall_keeps (w : World) (c : ServiceServer.Call) :
  ServiceServer.receives (env (ServiceServer.runCall w c))
  = ServiceServer.receives (env w) /\
  ServiceServer.invocations (ServiceServer.runCall w c) = ServiceServer.invocations w /\
  ServiceServer.sent (ServiceServer.runCall w c) = ServiceServer.sent w.
Proof.
  destruct w as [[p r cd] [sr ao acc rcv l]].
  destruct c as [h rt st|].
  - cbn [ServiceServer.runCall].
    unfold ServiceServer.advertiseService, startOperation.
    cbn [mgr running negb]. destruct r; cbn [negb].
    + repeat split.
    + unfold ServiceServer.invocations, ServiceServer.sent. cbn.
      rewrite !filter_app. cbn. rewrite !app_nil_r. repeat split.
  - repeat split.
Qed.

Lemma server_runCalls_keeps (calls : list ServiceServer.Call) :
  forall w : World,
    ServiceServer.receives (env (fold_left ServiceServer.runCall calls w))
    = ServiceServer.receives (env w) /\
    ServiceServer.invocations (fold_left ServiceServer.runCall calls w)
    = ServiceServer.invocations w /\
    ServiceServer.sent (fold_left ServiceServer.runCall calls w)
    = ServiceServer.sent w.
Proof.
  induction calls as [|c calls IH]; intros w; cbn [fold_left]; [repeat split|].
  destruct (IH (ServiceServer.runCall w c)) as (A & B & C).
  destruct (server_runCall_keeps w c) as (A1 & B1 & C1).
  rewrite A, B, C. auto.
Qed.

Lemma requestLambda_serves s request response calls data (w : World) :
  user (ServiceServer.serviceHandler s)
       (ServiceServer.log (env w)
        ++ [ServiceServer.Invoked (ServiceServer.serviceHandler s)
              (ServiceServer.clientEndpoint s) request])
       (ServiceServer.clientEndpoint s) request = (response, calls) ->
  encodeResponse response = Some data ->
  let w' := ServiceServer.requestLambda encodeResponse user s error.success request w in
  ServiceServer.receives (env w') = ServiceServer.receives (env w) /\
  ServiceServer.invocations w'
  = ServiceServer.invocations w
    ++ [ServiceServer.Invoked (ServiceServer.serviceHandler s)
          (ServiceServer.clientEndpoint s) request] /\
  ServiceServer.sent w'
  = ServiceServer.sent w
    ++ [ServiceServer.Sent (ServiceServer.clientEndpoint s)
          (internal.getBuffers (message.frameOf data))].
Proof.
  intros Huser Henc. cbn zeta. unfold ServiceServer.requestLambda.
  change (error.to_bool error.success) with false. cbv iota.
  destruct w as [m [sr ao acc rcv l]].
  cbn [onEnv env mgr ServiceServer.addLog ServiceServer.log ServiceServer.running
       ServiceServer.acceptorOpen ServiceServer.accepts ServiceServer.receives].
  cbn [env ServiceServer.log] in Huser. rewrite Huser, Henc.
  match goal with
  | |- context [fold_left ServiceServer.runCall calls ?w0] =>
      destruct (server_runCalls_keeps calls w0) as (A & B & C);
      set (w1 := fold_left ServiceServer.runCall calls w0) in *
  end.
  destruct w1 as [m1 [sr1 ao1 acc1 rcv1 l1]].
  cbn [env ServiceServer.receives] in A.
  unfold ServiceServer.invocations, ServiceServer.sent in *.
  cbn [onEnv env mgr ServiceServer.addLog ServiceServer.log ServiceServer.running
       ServiceServer.acceptorOpen ServiceServer.accepts ServiceServer.receives] in *.
  rewrite !filter_app, B, C, !filter_app. cbn [filter]. rewrite !app_nil_r.
  auto.
Qed.

Lemma requestCompleted_drops i s socketOpen wire (w : World) :
  nth_error (ServiceServer.receives (env w)) i = Some s ->
  error.to_bool (fst (fst (message.asyncReceive decodeRequest noRequest socketOpen
                             (ServiceServer.buffer s) wire))) = true ->
  requestCompleted i socketOpen wire w
  = {| mgr := mgr w;
       env := {| ServiceServer.running := ServiceServer.running (env w);
                 ServiceServer.acceptorOpen := ServiceServer.acceptorOpen (env w);
                 ServiceServer.accepts := ServiceServer.accepts (env w);
                 ServiceServer.receives :=
                   ServiceServer.removeNth i (ServiceServer.receives (env w));
                 ServiceServer.log := ServiceServer.log (env w) |} |}.
Proof.
  intros Hn He. unfold ServiceServer.requestCompleted. rewrite Hn.
  destruct (message.asyncReceive decodeRequest noRequest socketOpen
              (ServiceServer.buffer s) wire) as [[e r] sb].
  cbn [fst] in He. unfold ServiceServer.requestLambda. rewrite He. reflexivity.
Qed.

Variable decodeBytes : list byte -> option RequestMessage.
Hypothesis Hdecode :
  forall window, decodeRequest window = decodeBytes (internal.bytes window).

Lemma requestCompleted_serves i s p request response calls data (w : World) :
  nth_error (ServiceServer.receives (env w)) i = Some s ->
  ServiceServer.buffer s = message.serviceBuffer maxMessageSize ->
  Z.of_nat (length p) <= maxMessageSize ->
  maxMessageSize + internal.HEADER_SIZE < 2 ^ 64 ->
  Z.of_nat (length p) < 2 ^ 32 ->
  decodeBytes p = Some request ->
  user (ServiceServer.serviceHandler s)
       (ServiceServer.log (env w)
        ++ [ServiceServer.Invoked (ServiceServer.serviceHandler s)
              (ServiceServer.clientEndpoint s) request])
       (ServiceServer.clientEndpoint s) request = (response, calls) ->
  encodeResponse response = Some data ->
  let w' := requestCompleted i true (internal.getBuffers (message.frameOf p)) w in
  ServiceServer.receives (env w')
  = ServiceServer.removeNth i (ServiceServer.receives (env w)) /\
  ServiceServer.invocations w'
  = ServiceServer.invocations w
    ++ [ServiceServer.Invoked (ServiceServer.serviceHandler s)
          (ServiceServer.clientEndpoint s) request] /\
  ServiceServer.sent w'
  = ServiceServer.sent w
    ++ [ServiceServer.Sent (ServiceServer.clientEndpoint s)
          (internal.getBuffers (message.frameOf data))].
Proof.
  intros Hn Hb Hmax Hcap Hlen Hreq Huser Henc. cbn zeta.
  unfold ServiceServer.requestCompleted. rewrite Hn, Hb.
  rewrite (asyncReceive_frame decodeRequest noRequest decodeBytes Hdecode
             maxMessageSize p Hmax Hcap Hlen), Hreq.
  match goal with
  | |- context [ServiceServer.requestLambda _ _ s _ _ ?w0] =>
      pose proof (requestLambda_serves s request response calls data w0) as H
  end.
  cbn zeta in H. destruct w as [m [sr ao acc rcv l]].
  cbn [env mgr ServiceServer.log ServiceServer.receives] in *.
  apply H; assumption.
Qed.

(** *** The accept loop *)

Lemma advertise_after_idle_cancel h rt st (w : World) :
  running (mgr w) = false ->
  pendingOperations (mgr w) = None ->
  ServiceServer.accepts (env w) = [] ->
  ServiceServer.advertiseService h rt st (ServiceServer.cancel w)
  = {| mgr := {| pendingOperations := None; running := true; canceled := true |};
       env := {| ServiceServer.running := true;
                 ServiceServer.acceptorOpen := true;
                 ServiceServer.accepts :=
                   [{| ServiceServer.requestReceivedHandler := h;
                       ServiceServer.receiveTimeout := rt;
                       ServiceServer.sendTimeout := st;
                       ServiceServer.finishedNotifier := newNotifier |}];
                 ServiceServer.receives := ServiceServer.receives (env w);
                 ServiceServer.log :=
                   ServiceServer.log (env w) ++ [ServiceServer.Started h rt st] |} |}.
Proof.
  intros Hr Hp Ha. destruct w as [[p r cd] [sr ao acc rcv l]].
  cbn in Hr, Hp, Ha. subst p r acc. reflexivity.
Qed.

Lemma accepts_while_canceled a rcv l (completions : list (error.error_code * Endpoint)) :
  let w1 : World :=
    {| mgr := {| pendingOperations := None; running := true; canceled := true |};
       env := {| ServiceServer.running := true; ServiceServer.acceptorOpen := true;
                 ServiceServer.accepts := [a]; ServiceServer.receives := rcv;
                 ServiceServer.log := l |} |} in
  fold_left (fun w c => ServiceServer.acceptCompleted maxMessageSize (fst c) (snd c) w)
            completions w1
  = w1.
Proof.
  cbn zeta. induction completions as [|[code peer] completions IH];
    cbn [fold_left]; [reflexivity|].
  rewrite <- IH at 2. f_equal.
  unfold ServiceServer.acceptCompleted, ServiceServer.acceptLambda, isCanceled.
  cbn [env mgr ServiceServer.accepts ServiceServer.running canceled negb fst snd].
  rewrite andb_false_r. reflexivity.
Qed.

Lemma accept_after_cancel a boostCode peer (w : World) :
  mgr w = {| pendingOperations := None; running := true; canceled := false |} ->
  ServiceServer.accepts (env w) = [a] ->
  enabled (ServiceServer.finishedNotifier a) = true ->
  ServiceServer.acceptCompleted maxMessageSize boostCode peer (ServiceServer.cancel w)
  = {| mgr := {| pendingOperations := None; running := false; canceled := false |};
       env := {| ServiceServer.running := false;
                 ServiceServer.acceptorOpen := false;
                 ServiceServer.accepts := [];
                 ServiceServer.receives := ServiceServer.receives (env w);
                 ServiceServer.log := ServiceServer.log (env w) |} |}.
Proof.
  intros Hm Ha He. destruct w as [m [sr ao acc rcv l]].
  cbn in Hm, Ha. subst m acc.
  unfold ServiceServer.acceptCompleted, ServiceServer.acceptLambda.
  cbn [ServiceServer.cancel cancelOperation setCanceled setPending onEnv env mgr
       ServiceServer.cancelOperation ServiceServer.accepts ServiceServer.running
       ServiceServer.acceptorOpen ServiceServer.receives ServiceServer.log
       pendingOperations running canceled reset replacer negb].
  unfold destroy. rewrite He. reflexivity.
Qed.

Lemma accept_after_readvertise a h2 rt2 st2 boostCode peer (w : World) :
  mgr w = {| pendingOperations := None; running := true; canceled := false |} ->
  ServiceServer.accepts (env w) = [a] ->
  enabled (ServiceServer.finishedNotifier a) = true ->
  ServiceServer.acceptCompleted maxMessageSize boostCode peer
    (ServiceServer.advertiseService h2 rt2 st2 w)
  = {| mgr := {| pendingOperations := None; running := true; canceled := false |};
       env := {| ServiceServer.running := true;
                 ServiceServer.acceptorOpen := true;
                 ServiceServer.accepts :=
                   [{| ServiceServer.requestReceivedHandler := h2;
                       ServiceServer.receiveTimeout := rt2;
                       ServiceServer.sendTimeout := st2;
                       ServiceServer.finishedNotifier := newNotifier |}];
                 ServiceServer.receives := ServiceServer.receives (env w);
                 ServiceServer.log :=
                   ServiceServer.log (env w) ++ [ServiceServer.Started h2 rt2 st2] |} |}.
Proof.
  intros Hm Ha He. destruct w as [m [sr ao acc rcv l]].
  cbn in Hm, Ha. subst m acc.
  unfold ServiceServer.acceptCompleted, ServiceServer.acceptLambda.
  cbn [ServiceServer.advertiseService startOperation setCanceled setPending
       setRunning onEnv env mgr
       ServiceServer.cancelOperation ServiceServer.accepts ServiceServer.running
       ServiceServer.acceptorOpen ServiceServer.receives ServiceServer.log
       pendingOperations running canceled shouldCancel pushPendingOperation
       replacer negb].
  unfold destroy. rewrite He. reflexivity.
Qed.

End ServerFacts.



(** X26. [cancel()] on a server that is not serving leaves the
    manager's [canceled] flag set, and the server has no path that
    clears it while it serves. A service advertised afterwards opens
    the acceptor and accepts connections, but the accept lambda finds
    the stale flag each time: every accepted connection is dropped
    without its request being received, however many arrive, and the
    server stays in exactly this state. *)
Theorem server_cancel_when_idle_disables_next_service
        {RequestMessage : Type} (maxMessageSize : Z)
        (w : manager.World manager.PendingOperationReplacer ServiceServer.Op
                           (@ServiceServer.Env RequestMessage))
        (h : HandlerId) (receiveTimeout sendTimeout : Duration)
        (completions : list (error.error_code * Endpoint)) :
  manager.running (manager.mgr w) = false ->
  manager.pendingOperations (manager.mgr w) = None ->
  ServiceServer.accepts (manager.env w) = [] ->
  let w1 := ServiceServer.advertiseService h receiveTimeout sendTimeout
              (ServiceServer.cancel w) in
  let wn := fold_left
              (fun w c => ServiceServer.acceptCompleted maxMessageSize (fst c) (snd c) w)
              completions w1 in
  ServiceServer.acceptorOpen (manager.env w1) = true /\
  length (ServiceServer.accepts (manager.env w1)) = 1%nat /\
  wn = w1 /\
  ServiceServer.receives (manager.env wn) = ServiceServer.receives (manager.env w) /\
  manager.canceled (manager.mgr wn) = true.
Proof.
  intros Hr Hp Ha w1 wn.
  eassert (H1 : w1 = _) by (apply advertise_after_idle_cancel; assumption).
  assert (Hn : wn = w1).
  { subst wn. rewrite H1.
    exact (accepts_while_canceled maxMessageSize _ _ _ completions). }
  rewrite Hn, H1. repeat split.
Qed.

Lemma server_cancel_when_idle_disables_next_service_witness :
  let w1 := ServiceServer.advertiseService 1%nat 60 10
              (ServiceServer.cancel (@ServiceServer.create (list byte))) in
  ServiceServer.receives
    (manager.env
       (fold_left
          (fun w c => ServiceServer.acceptCompleted 8 (fst c) (snd c) w)
          [(error.error_code_default, (1, 2)); (error.error_code_default, (3, 4))]
          w1))
  = [].
Proof.
  intros w1.
  exact (proj1 (proj2 (proj2 (proj2
           (server_cancel_when_idle_disables_next_service 8
              (@ServiceServer.create (list byte)) 1%nat 60 10
              [(error.error_code_default, (1, 2)); (error.error_code_default, (3, 4))]
              eq_refl eq_refl eq_refl))))).
Defined.

(** X27. Ending an accept loop. After [cancel()] on a serving server,
    the completion of the outstanding accept, whatever it reports,
    returns at once: a connection accepted in that moment is dropped,
    no new accept is submitted, and the manager is idle with
    [canceled] cleared. After [advertiseService] on a serving server
    the same completion ends the old loop and starts the new one: a
    new accept is outstanding on a reopened acceptor, for the new
    handler. Connections already in service are untouched by both. *)
Theorem server_cancel_and_readvertise_end_accept_loop
        {RequestMessage : Type} (maxMessageSize : Z)
        (w : manager.World manager.PendingOperationReplacer ServiceServer.Op
                           (@ServiceServer.Env RequestMessage))
        (a : ServiceServer.AcceptState)
        (boostCode : error.error_code) (peer : Endpoint)
        (h2 : HandlerId) (receiveTimeout2 sendTimeout2 : Duration) :
  manager.mgr w = {| manager.pendingOperations := None;
                     manager.running := true; manager.canceled := false |} ->
  ServiceServer.accepts (manager.env w) = [a] ->
  manager.enabled (ServiceServer.finishedNotifier a) = true ->
  let stopped := ServiceServer.acceptCompleted maxMessageSize boostCode peer
                   (ServiceServer.cancel w) in
  let replaced := ServiceServer.acceptCompleted maxMessageSize boostCode peer
                    (ServiceServer.advertiseService h2 receiveTimeout2 sendTimeout2 w) in
  (ServiceServer.accepts (manager.env stopped) = [] /\
   ServiceServer.acceptorOpen (manager.env stopped) = false /\
   manager.mgr stopped = {| manager.pendingOperations := None;
                            manager.running := false; manager.canceled := false |} /\
   ServiceServer.receives (manager.env stopped)
   = ServiceServer.receives (manager.env w) /\
   ServiceServer.log (manager.env stopped) = ServiceServer.log (manager.env w)) /\
  (ServiceServer.accepts (manager.env replaced)
   = [{| ServiceServer.requestReceivedHandler := h2;
         ServiceServer.receiveTimeout := receiveTimeout2;
         ServiceServer.sendTimeout := sendTimeout2;
         ServiceServer.finishedNotifier := manager.newNotifier |}] /\
   ServiceServer.acceptorOpen (manager.env replaced) = true /\
   ServiceServer.running (manager.env replaced) = true /\
   manager.mgr replaced = manager.mgr w /\
   ServiceServer.receives (manager.env replaced)
   = ServiceServer.receives (manager.env w)).
Proof.
  intros Hm Ha He stopped replaced.
  eassert (Hs : stopped = _) by (apply (accept_after_cancel maxMessageSize a); assumption).
  eassert (Hp : replaced = _) by (apply (accept_after_readvertise maxMessageSize a); assumption).
  rewrite Hs, Hp, Hm. repeat split.
Qed.

Lemma server_cancel_and_readvertise_end_accept_loop_witness :
  let w := ServiceServer.advertiseService 1%nat 60 10
             (@ServiceServer.create (list byte)) in
  ServiceServer.accepts
    (manager.env
       (ServiceServer.acceptCompleted 8 error.error_code_default (1, 2)
          (ServiceServer.cancel w)))
  = [].
Proof.
  intros w.
  exact (proj1 (proj1
           (server_cancel_and_readvertise_end_accept_loop 8 w
              {| ServiceServer.requestReceivedHandler := 1%nat;
                 ServiceServer.receiveTimeout := 60;
                 ServiceServer.sendTimeout := 10;
                 ServiceServer.finishedNotifier := manager.newNotifier |}
              error.error_code_default (1, 2) 2%nat 60 10
              eq_refl eq_refl eq_refl))).
Defined.



(** ** test/TestMessage.h: the nine-byte message codec *)

Section TestMessageFacts.

Lemma masked_byte (x k mask : Z) :
  0 <= k ->
  Z.shiftr mask k = 255 ->
  utils.uint8 (Z.shiftr (Z.land x mask) k) = (x / 2 ^ k) mod 256.
Proof.
  intros Hk Hm. rewrite Z.shiftr_land, Hm.
  change 255 with (Z.ones 8). rewrite Z.land_ones by lia.
  rewrite Z.shiftr_div_pow2 by lia.
  unfold utils.uint8, utils.wrap. change (2 ^ 8) with 256.
  apply Z.mod_mod. lia.
Qed.

Lemma Encoder_bytes (m : protocol.TestMessage) :
  map byte.unsigned (protocol.Encoder m)
  = [ protocol.byteAt (protocol.id m) 0; protocol.byteAt (protocol.id m) 1;
      protocol.byteAt (protocol.id m) 2; protocol.byteAt (protocol.id m) 3;
      protocol.messageType m mod 256;
      protocol.byteAt (protocol.value m) 0; protocol.byteAt (protocol.value m) 1;
      protocol.byteAt (protocol.value m) 2; protocol.byteAt (protocol.value m) 3 ].
Proof.
  unfold protocol.Encoder. cbn [map].
  rewrite !byte.unsigned_of_Z. unfold byte.wrap. change (2 ^ 8) with 256.
  change (Z.land (protocol.id m) 255)
    with (Z.shiftr (Z.land (protocol.id m) 255) 0).
  change (Z.land (protocol.value m) 255)
    with (Z.shiftr (Z.land (protocol.value m) 255) 0).
  rewrite !masked_byte by (try lia; reflexivity).
  unfold protocol.byteAt, utils.uint8, utils.wrap.
  change (2 ^ 8) with 256.
  change (8 * 0) with 0. change (8 * 1) with 8. change (8 * 2) with 16.
  change (8 * 3) with 24.
  rewrite !Z.mod_mod by lia. reflexivity.
Qed.

(** The bytes of a 32-bit value. *)
Lemma byteAt_range (x i : Z) : 0 <= protocol.byteAt x i < 256.
Proof. unfold protocol.byteAt. apply Z.mod_pos_bound. lia. Qed.

Lemma byteAt_sum (x : Z) :
  0 <= x < 2 ^ 32 ->
  x = protocol.byteAt x 0 + 256 * protocol.byteAt x 1
      + 65536 * protocol.byteAt x 2 + 16777216 * protocol.byteAt x 3.
Proof.
  intros Hx. unfold protocol.byteAt.
  change (2 ^ (8 * 0)) with 1. change (2 ^ (8 * 1)) with 256.
  change (2 ^ (8 * 2)) with 65536. change (2 ^ (8 * 3)) with 16777216.
  change (2 ^ 32) with 4294967296 in Hx.
  Z.div_mod_to_equations. lia.
Qed.

(** The amount lost when the bytes are widened as signed [char]s:
    each of the three low bytes from 0x80 on borrows one from the
    byte above it. *)
Lemma signed_field (signed : bool) (b0 b1 b2 b3 : Z) :
  0 <= b0 < 256 -> 0 <= b1 < 256 -> 0 <= b2 < 256 -> 0 <= b3 < 256 ->
  let c := fun b => utils.uint32 (if signed && (128 <=? b) then b - 256 else b) in
  utils.uint32
    (utils.uint32
       (utils.uint32
          (utils.uint32 (0 + c b0) + utils.uint32 (Z.shiftl (c b1) 8))
        + utils.uint32 (Z.shiftl (c b2) 16))
     + utils.uint32 (Z.shiftl (c b3) 24))
  = (b0 + 256 * b1 + 65536 * b2 + 16777216 * b3
     - ((if signed && (128 <=? b0) then 256 else 0)
        + (if signed && (128 <=? b1) then 65536 else 0)
        + (if signed && (128 <=? b2) then 16777216 else 0)))
    mod 2 ^ 32.
Proof.
  intros H0 H1 H2 H3 c. subst c. cbv beta.
  unfold utils.uint32, utils.wrap.
  rewrite !Z.shiftl_mul_pow2 by lia.
  change (2 ^ 8) with 256. change (2 ^ 16) with 65536.
  change (2 ^ 24) with 16777216.
  change (2 ^ 32) with 4294967296.
  destruct (signed && (128 <=? b0)), (signed && (128 <=? b1)),
    (signed && (128 <=? b2)), (signed && (128 <=? b3));
    Z.div_mod_to_equations; lia.
Qed.

Lemma field_survives (x borrow : Z) :
  0 <= x < 2 ^ 32 -> 0 <= borrow < 2 ^ 32 ->
  ((x - borrow) mod 2 ^ 32 = x <-> borrow = 0).
Proof.
  change (2 ^ 32) with 4294967296. intros Hx Hb. split.
  - intros H. Z.div_mod_to_equations. lia.
  - intros ->. rewrite Z.sub_0_r. apply Z.mod_small. lia.
Qed.

Lemma at_encoded (pre enc post : list byte) (n : Z) (k : nat) :
  (k < length enc)%nat ->
  protocol.at_ {| internal.buffer := pre ++ enc ++ post;
                  internal.numBytes := n;
                  internal.offset := Z.of_nat (length pre) |} k
  = nth k enc Byte.x00.
Proof.
  intros Hk. unfold protocol.at_. cbn [internal.offset internal.buffer].
  rewrite Nat2Z.id, app_nth2 by lia.
  replace (k + length pre - length pre)%nat with k by lia.
  apply app_nth1. exact Hk.
Qed.


Lemma borrow_zero (signed : bool) (b0 b1 b2 : Z) :
  (if signed && (128 <=? b0) then 256 else 0)
  + (if signed && (128 <=? b1) then 65536 else 0)
  + (if signed && (128 <=? b2) then 16777216 else 0) = 0
  <-> (signed = true -> b0 < 128 /\ b1 < 128 /\ b2 < 128).
Proof.
  destruct signed; cbn [andb].
  - destruct (128 <=? b0) eqn:E0, (128 <=? b1) eqn:E1, (128 <=? b2) eqn:E2;
      rewrite ?Z.leb_le, ?Z.leb_gt in *; split; intros H; try lia;
      specialize (H eq_refl); lia.
  - split; [discriminate | reflexivity].
Qed.

Lemma borrow_range (signed : bool) (b0 b1 b2 : Z) :
  0 <= (if signed && (128 <=? b0) then 256 else 0)
       + (if signed && (128 <=? b1) then 65536 else 0)
       + (if signed && (128 <=? b2) then 16777216 else 0) < 2 ^ 32.
Proof.
  change (2 ^ 32) with 4294967296.
  destruct (signed && (128 <=? b0)), (signed && (128 <=? b1)),
    (signed && (128 <=? b2)); lia.
Qed.

Lemma Decoder_Encoder (signed : bool) (m : protocol.TestMessage)
      (pre post : list byte) (n : Z) :
  0 <= protocol.messageType m < 256 ->
  let borrow := fun x =>
    (if signed && (128 <=? protocol.byteAt x 0) then 256 else 0)
    + (if signed && (128 <=? protocol.byteAt x 1) then 65536 else 0)
    + (if signed && (128 <=? protocol.byteAt x 2) then 16777216 else 0) in
  let sum := fun x =>
    protocol.byteAt x 0 + 256 * protocol.byteAt x 1
    + 65536 * protocol.byteAt x 2 + 16777216 * protocol.byteAt x 3 in
  protocol.Decoder signed
    {| internal.buffer := pre ++ protocol.Encoder m ++ post;
       internal.numBytes := n;
       internal.offset := Z.of_nat (length pre) |}
  = {| protocol.id :=
         (sum (protocol.id m) - borrow (protocol.id m)) mod 2 ^ 32;
       protocol.messageType := protocol.messageType m;
       protocol.value :=
         (sum (protocol.value m) - borrow (protocol.value m)) mod 2 ^ 32 |}.
Proof.
  intros Ht borrow sum.
  pose proof (Encoder_bytes m) as HB.
  assert (Henc : exists e0 e1 e2 e3 e4 e5 e6 e7 e8,
             protocol.Encoder m = [e0; e1; e2; e3; e4; e5; e6; e7; e8])
    by (unfold protocol.Encoder; repeat eexists).
  destruct Henc as (e0 & e1 & e2 & e3 & e4 & e5 & e6 & e7 & e8 & Henc).
  rewrite Henc in HB |- *. cbn [map] in HB.
  injection HB as B0 B1 B2 B3 B4 B5 B6 B7 B8.
  unfold protocol.Decoder.
  rewrite !at_encoded by (cbn; lia).
  cbn [nth].
  unfold protocol.charToUint32, protocol.charToUint8.
  rewrite B0, B1, B2, B3, B4, B5, B6, B7, B8.
  pose proof (signed_field signed _ _ _ _
                (byteAt_range (protocol.id m) 0) (byteAt_range (protocol.id m) 1)
                (byteAt_range (protocol.id m) 2) (byteAt_range (protocol.id m) 3))
    as Hid.
  pose proof (signed_field signed _ _ _ _
                (byteAt_range (protocol.value m) 0) (byteAt_range (protocol.value m) 1)
                (byteAt_range (protocol.value m) 2) (byteAt_range (protocol.value m) 3))
    as Hval.
  cbv zeta in Hid, Hval. rewrite Hid, Hval.
  unfold protocol.mkTestMessage. f_equal.
  - unfold utils.uint32, utils.wrap. apply Z.mod_mod. lia.
  - rewrite (Z.mod_small (protocol.messageType m) 256) by lia.
    unfold utils.uint8, utils.wrap. change (2 ^ 8) with 256.
    destruct (signed && (128 <=? protocol.messageType m));
      Z.div_mod_to_equations; lia.
  - unfold utils.uint32, utils.wrap. apply Z.mod_mod. lia.
Qed.

End TestMessageFacts.

(** X29. The codec of [TestMessage] used by the tests. The encoder
    writes nine bytes. Where [char] is an unsigned type the decoder
    reads back the message that was encoded. Where [char] is a signed
    type the decoder widens every byte from 0x80 on to a negative
    number, and the message survives exactly when the three low bytes
    of its id and of its value are all below 0x80; the message type
    and the top byte of each field are not affected. *)
Theorem TestMessage_round_trip
        (m : protocol.TestMessage) (pre post : list byte) :
  0 <= protocol.id m < 2 ^ 32 ->
  0 <= protocol.messageType m < 256 ->
  0 <= protocol.value m < 2 ^ 32 ->
  let window := {| internal.buffer := pre ++ protocol.Encoder m ++ post;
                   internal.numBytes := 9;
                   internal.offset := Z.of_nat (length pre) |} in
  length (protocol.Encoder m) = 9%nat /\
  protocol.Decoder false window = m /\
  (protocol.Decoder true window = m <->
   forall i, 0 <= i < 3 ->
             protocol.byteAt (protocol.id m) i < 128 /\
             protocol.byteAt (protocol.value m) i < 128).
Proof.
  intros Hid Ht Hval window.
  split; [reflexivity|].
  assert (Hfield : forall signed x,
             0 <= x < 2 ^ 32 ->
             ((protocol.byteAt x 0 + 256 * protocol.byteAt x 1
               + 65536 * protocol.byteAt x 2 + 16777216 * protocol.byteAt x 3
               - ((if signed && (128 <=? protocol.byteAt x 0) then 256 else 0)
                  + (if signed && (128 <=? protocol.byteAt x 1) then 65536 else 0)
                  + (if signed && (128 <=? protocol.byteAt x 2) then 16777216 else 0)))
              mod 2 ^ 32 = x
              <-> (signed = true ->
                   protocol.byteAt x 0 < 128 /\ protocol.byteAt x 1 < 128 /\
                   protocol.byteAt x 2 < 128))).
  { intros signed x Hx. rewrite <- (byteAt_sum x Hx).
    rewrite (field_survives x _ Hx (borrow_range signed _ _ _)).
    apply borrow_zero. }
  subst window. rewrite !(Decoder_Encoder _ m pre post 9 Ht). cbv zeta.
  split.
  - destruct m as [mid mt mv]. cbn [protocol.id protocol.messageType protocol.value] in *.
    f_equal; apply Hfield; try assumption; discriminate.
  - destruct m as [mid mt mv]. cbn [protocol.id protocol.messageType protocol.value] in *.
    split.
    + intros H. pose proof (f_equal protocol.id H) as Hi.
      pose proof (f_equal protocol.value H) as Hv.
      cbn [protocol.id protocol.value] in Hi, Hv.
      pose proof (proj1 (Hfield true mid Hid) Hi eq_refl) as Hi'.
      pose proof (proj1 (Hfield true mv Hval) Hv eq_refl) as Hv'.
      intros i Hi3. assert (Hc : i = 0 \/ i = 1 \/ i = 2) by lia.
      destruct Hc as [-> | [-> | ->]]; tauto.
    + intros H. pose proof (H 0 ltac:(lia)) as H0.
      pose proof (H 1 ltac:(lia)) as H1. pose proof (H 2 ltac:(lia)) as H2.
      f_equal; apply Hfield; try assumption; intros _; tauto.
Qed.

Lemma TestMessage_round_trip_witness :
  protocol.Decoder true
    {| internal.buffer := [Byte.x00; Byte.x00; Byte.x00; Byte.x09]
                          ++ protocol.Encoder (protocol.response 1 42) ++ [];
       internal.numBytes := 9;
       internal.offset := Z.of_nat (length [Byte.x00; Byte.x00; Byte.x00; Byte.x09]) |}
  = protocol.response 1 42.
Proof.
  refine (proj2 (proj2 (proj2
            (TestMessage_round_trip (protocol.response 1 42)
               [Byte.x00; Byte.x00; Byte.x00; Byte.x09] [] _ _ _))) _).
  - split; vm_compute; [discriminate | reflexivity].
  - split; vm_compute; [discriminate | reflexivity].
  - split; vm_compute; [discriminate | reflexivity].
  - intros i Hi. assert (Hc : i = 0 \/ i = 1 \/ i = 2) by lia.
    destruct Hc as [-> | [-> | ->]]; split; vm_compute; reflexivity.
Defined.

(** ** DatagramReceiver.h: a datagram that arrives *)

Section ReceiverDelivers.
Import manager.
Context {Message : Type}.
Variable decode : internal.ConstBuffer -> option Message.
Variable defaultMessage : Message.
Variable decodeBytes : list byte -> option Message.
Hypothesis Hdecode : forall window, decode window = decodeBytes (internal.bytes window).
Variable user : HandlerId -> list (@DatagramReceiver.Event Message)
                -> list DatagramReceiver.Call.

Local Abbreviation World :=
  (World PendingOperationReplacer DatagramReceiver.Op (@DatagramReceiver.Env Message)).

Lemma asyncReceiveDatagram_frame (buffer p : list byte) :
  Z.of_nat (length p) < 2 ^ 32 ->
  (4 + length p <= length buffer)%nat ->
  message.asyncReceiveDatagram decode defaultMessage true buffer
    error.error_code_default (internal.getBuffers (message.frameOf p))
  = (match decodeBytes p with
     | Some m => (error.success, m)
     | None => (error.decoding, defaultMessage)
     end,
     internal.getBuffers (message.frameOf p) ++ skipn (4 + length p) buffer).
Proof.
  intros Hlen Hfit. unfold message.asyncReceiveDatagram.
  rewrite (frameOf_getBuffers p Hlen).
  assert (Hl : length (utils.toBigEndian 4 (Z.of_nat (length p)) ++ p)
               = (4 + length p)%nat) by (rewrite length_app; reflexivity).
  rewrite receive_from_fits by (rewrite Hl; exact Hfit).
  rewrite Hl.
  unfold socket.asyncReceiveFrom_completion.
  change (error.to_bool (closeable.completionError true error.error_code_default))
    with false. cbv iota.
  rewrite <- app_assoc.
  replace (Z.of_nat (4 + length p)) with (4 + Z.of_nat (length p)) by lia.
  rewrite (numDataBytesFromBuffer_frame p Hlen).
  unfold message.asyncReceiveDatagram_handler.
  rewrite Hdecode, view_of_frame by reflexivity.
  destruct (decodeBytes p); reflexivity.
Qed.

Lemma receiveCompleted_delivers st p m ep (w : World) :
  mgr w = {| pendingOperations := None; running := true; canceled := false |} ->
  DatagramReceiver.outstanding (env w) = [st] ->
  DatagramReceiver.socketOpen (env w) = true ->
  Z.of_nat (length p) < 2 ^ 32 ->
  (4 + length p <= length (DatagramReceiver.buffer (env w)))%nat ->
  decodeBytes p = Some m ->
  DatagramReceiver.receiveCompleted decode defaultMessage user
    error.error_code_default (internal.getBuffers (message.frameOf p)) ep w
  = DatagramReceiver.invokeHandler user (DatagramReceiver.handler st)
      error.success m ep
      {| mgr := {| pendingOperations := None; running := false; canceled := false |};
         env := {| DatagramReceiver.socketOpen := true;
                   DatagramReceiver.buffer :=
                     internal.getBuffers (message.frameOf p)
                     ++ skipn (4 + length p) (DatagramReceiver.buffer (env w));
                   DatagramReceiver.outstanding := [];
                   DatagramReceiver.log := DatagramReceiver.log (env w) |} |}.
Proof.
  intros Hm Ho Hs Hlen Hfit Hdec.
  destruct w as [m0 [s b o l]]. cbn in Hm, Ho, Hs, Hfit. subst m0 o s.
  unfold DatagramReceiver.receiveCompleted.
  cbn [env mgr DatagramReceiver.outstanding DatagramReceiver.socketOpen
       DatagramReceiver.buffer DatagramReceiver.log].
  rewrite (asyncReceiveDatagram_frame b p Hlen Hfit), Hdec.
  reflexivity.
Qed.

End ReceiverDelivers.

(** X30. A receiver with a receive in flight, not cancelled and with
    its socket open: when a datagram carrying the frame of a payload
    arrives and the frame fits the receive buffer, the handler is
    invoked exactly once with [success], the decoded message and the
    sender's endpoint, with the receiver idle again and nothing
    outstanding, whatever earlier datagrams left in the buffer. *)
Theorem receiver_delivers_datagram
        {Message : Type} (decode : internal.ConstBuffer -> option Message)
        (defaultMessage : Message) (decodeBytes : list byte -> option Message)
        (user : HandlerId -> list (@DatagramReceiver.Event Message)
                -> list DatagramReceiver.Call)
        (w : manager.World manager.PendingOperationReplacer DatagramReceiver.Op
                           (@DatagramReceiver.Env Message))
        (st : DatagramReceiver.AsyncState) (p : list byte) (m : Message)
        (ep : Endpoint) :
  (forall window, decode window = decodeBytes (internal.bytes window)) ->
  manager.mgr w = {| manager.pendingOperations := None;
                     manager.running := true; manager.canceled := false |} ->
  DatagramReceiver.outstanding (manager.env w) = [st] ->
  DatagramReceiver.socketOpen (manager.env w) = true ->
  Z.of_nat (length p) < 2 ^ 32 ->
  (4 + length p <= length (DatagramReceiver.buffer (manager.env w)))%nat ->
  decodeBytes p = Some m ->
  let w' := DatagramReceiver.receiveCompleted decode defaultMessage user
              error.error_code_default (internal.getBuffers (message.frameOf p))
              ep w in
  (exists idle,
      w' = DatagramReceiver.invokeHandler user (DatagramReceiver.handler st)
             error.success m ep idle /\
      manager.mgr idle = {| manager.pendingOperations := None;
                            manager.running := false; manager.canceled := false |} /\
      DatagramReceiver.outstanding (manager.env idle) = []) /\
  DatagramReceiver.invocations w'
  = DatagramReceiver.invocations w
    ++ [DatagramReceiver.Invoked (DatagramReceiver.handler st) error.success m ep].
Proof.
  intros Hdecode Hm Ho Hs Hlen Hfit Hdec w'.
  eassert (H : w' = _)
    by (apply (receiveCompleted_delivers decode defaultMessage decodeBytes Hdecode
                 user st p m ep w); assumption).
  split.
  - eexists. split; [exact H|]. split; reflexivity.
  - rewrite H, receiver_invokeHandler_invocations. f_equal.
Qed.

Lemma receiver_delivers_datagram_witness :
  let w := DatagramReceiver.asyncReceive 5 1%nat (DatagramReceiver.create 8) in
  DatagramReceiver.invocations
    (DatagramReceiver.receiveCompleted message.stringDecoder [] (fun _ _ => [])
       error.error_code_default
       (internal.getBuffers (message.frameOf [Byte.x41; Byte.x42])) (1, 2) w)
  = [DatagramReceiver.Invoked 1%nat error.success [Byte.x41; Byte.x42] (1, 2)].
Proof.
  intros w.
  refine (proj2 (receiver_delivers_datagram message.stringDecoder []
                   (fun bs => Some bs) (fun _ _ => []) w
                   {| DatagramReceiver.handler := 1%nat;
                      DatagramReceiver.finishedNotifier := manager.newNotifier |}
                   [Byte.x41; Byte.x42] [Byte.x41; Byte.x42] (1, 2)
                   (fun _ => eq_refl) eq_refl eq_refl eq_refl _ _ eq_refl)).
  - vm_compute; reflexivity.
  - vm_compute. repeat constructor.
Defined.
